(** * Sacred Soundscapes: MusicBrain, ColorBrain and the neural renderer

    A shallow embedding of the two classes of [src/lib/musicBrain.ts],
    [MusicBrain] (feature extractor and context classifier) and [ColorBrain]
    (palette generator, imported by the components as [lib/colorBrain]), and
    of the node and connection loops of [drawNeuralNetwork] in
    [src/components/AudioVisualizer.tsx].  From the same component it also
    embeds the last loop of [drawNeuralNetwork], [drawPulsingCircles], and
    [simulateIntelligentAudio], the tick that builds a frame and calls both
    brains.

    The TypeScript code computes with JavaScript numbers.  The embedding is
    written once, over an interface [JSNumber] that lists the operations the
    source uses, and is then read at two instances:

    - [float]: IEEE 754 binary64, the arithmetic JavaScript performs (NaN,
      signed zeros and rounding included); every definition computes.
    - [R]: exact real arithmetic, the idealisation in which the ranges of
      the features are stated and proved.

    What does not depend on arithmetic (history bounds, which branch is
    taken, lengths of arrays, the regular expression of [parseHSL]) is proved
    for every instance at once.  Objects are records; the fields a method
    assigns are returned in a new record, next to the result. *)

From Stdlib Require Import String Ascii.
From Stdlib Require Import List ZArith Bool Lia.
From Stdlib Require Import Floats.
From Stdlib Require Import Reals Lra Psatz.
Import ListNotations.

Set Warnings "-inexact-float".
Set Implicit Arguments.

(* ================================================================== *)
(** * JavaScript numbers *)
(* ================================================================== *)

Declare Scope js_scope.
Delimit Scope js_scope with js.

(** The operations on [number] the source relies on. *)
Class JSNumber (num : Type) : Type := {
  ofZ      : Z -> num;            (* an integer literal, or [arr.length] *)
  add      : num -> num -> num;   (* x + y *)
  sub      : num -> num -> num;   (* x - y *)
  mul      : num -> num -> num;   (* x * y *)
  div      : num -> num -> num;   (* x / y *)
  rem      : num -> num -> num;   (* the remainder operator, sign of the dividend *)
  ltb      : num -> num -> bool;  (* x < y *)
  eqb      : num -> num -> bool;  (* x === y *)
  Math_sqrt  : num -> num;
  Math_floor : num -> num;
  Math_abs   : num -> num;
  Math_max   : num -> num -> num;
  Math_min   : num -> num -> num;
  toString   : num -> string;     (* the conversion behind a template literal *)
  (* the number of rounds of [for (let i = 0; i < x; i++)]; [None] when the
     loop has no last round *)
  countBelow : num -> option nat;
  }.

Notation "x + y" := (add x y) : js_scope.
Notation "x - y" := (sub x y) : js_scope.
Notation "x * y" := (mul x y) : js_scope.
Notation "x / y" := (div x y) : js_scope.
Notation "x 'mod' y" := (rem x y) : js_scope.
Notation "x <? y" := (ltb x y) : js_scope.
Notation "x >? y" := (ltb y x) : js_scope.
Notation "x === y" := (eqb x y) (at level 70, no associativity) : js_scope.

(** A decimal literal [p/q] of the source, e.g. [lit 12 10] for [1.2].  Both
    parts are small integers, so at [float] the quotient is the correctly
    rounded double the JavaScript parser produces for the literal. *)
Definition lit {num} `{JSNumber num} (p q : Z) : num := div (ofZ p) (ofZ q).

(** [Math.pow(x, 2)] *)
Definition Math_pow2 {num} `{JSNumber num} (x : num) : num := mul x x.

(* ================================================================== *)
(** * Arrays *)
(* ================================================================== *)

Section Arrays.
Context {A : Type}.

(** A relative index of [Array.prototype.slice], clamped into [0, len]. *)
Definition slice_index (len : nat) (k : Z) : nat :=
  if (k <? 0)%Z then Z.to_nat (Z.max (Z.of_nat len + k) 0)
  else Nat.min (Z.to_nat k) len.

(** [arr.slice(start, end)] *)
Definition slice (start stop : Z) (arr : list A) : list A :=
  let s := slice_index (length arr) start in
  let e := slice_index (length arr) stop in
  firstn (e - s) (skipn s arr).

(** [arr.slice(start)] *)
Definition slice_from (start : Z) (arr : list A) : list A :=
  skipn (slice_index (length arr) start) arr.

(** [arr.push(x)] *)
Definition push (arr : list A) (x : A) : list A := arr ++ [x].

(** [arr.shift()], keeping the array only *)
Definition shift (arr : list A) : list A := tl arr.

(** [arr.push(x); if (arr.length > cap) arr.shift()] *)
Definition pushCapped (cap : nat) (arr : list A) (x : A) : list A :=
  let arr := push arr x in
  if (cap <? length arr)%nat then shift arr else arr.
End Arrays.

(* ================================================================== *)
(** * MusicBrain *)
(* ================================================================== *)

Inductive Mood := calm | energetic | dramatic | mysterious | joyful.

Inductive Genre := electronic | acoustic | classical | rock | ambient | voice | mixed.

Section Brain.
Context {num : Type} `{JSNumber num}.
Local Open Scope js_scope.

Record AudioFeatures := mkFeatures {
  bass : num; mid : num; treble : num;
  rhythm : num; melody : num; harmony : num;
  dynamics : num; energy : num; tempo : num;
  mood : Mood
  }.

Record MusicContext := mkContext {
  beatDrop : bool;
  vocalPresence : bool;
  instrumentalDensity : num;
  emotionalIntensity : num;
  genreHint : Genre
  }.

(** The private fields of [class MusicBrain]. *)
Record MusicBrain := mkBrain {
  previousFeatures : option AudioFeatures;
  beatHistory : list num;
  energyHistory : list num;
  time : nat
  }.

Definition newMusicBrain : MusicBrain := mkBrain None [] [] 0.

Definition len (arr : list num) : num := ofZ (Z.of_nat (length arr)).

(** [arr.reduce((sum, val) => sum + val, 0)] *)
Definition sum (arr : list num) : num :=
  fold_left (fun sum val => sum + val) arr (ofZ 0).

Definition extractBass (audioData : list num) : num :=
  let bassRange := slice 0 32 audioData in
  sum bassRange / len bassRange.

Definition extractMid (audioData : list num) : num :=
  let midRange := slice 32 96 audioData in
  sum midRange / len midRange.

Definition extractTreble (audioData : list num) : num :=
  let trebleRange := slice_from 96 audioData in
  sum trebleRange / len trebleRange.

Definition calculateConsistency (values : list num) : num :=
  if (length values <? 2)%nat then ofZ 0
  else
    let mean := sum values / len values in
    let variance :=
      fold_left (fun sum val => sum + Math_pow2 (val - mean)) values (ofZ 0)
      / len values in
    Math_max (ofZ 0) (ofZ 1 - Math_sqrt variance).

Definition analyzeRhythm (this : MusicBrain) (bass mid : num) : num :=
  let rhythmicStrength := Math_max (bass * lit 12 10) (mid * lit 8 10) in
  if (4 <? length (beatHistory this))%nat then
    let recentBeats := slice_from (-4) (beatHistory this) in
    let consistency := calculateConsistency recentBeats in
    rhythmicStrength * (ofZ 1 + consistency * lit 5 10)
  else rhythmicStrength.

Definition analyzeMelody (this : MusicBrain) (mid' treble' : num) : num :=
  let melodicContent := mid' * lit 6 10 + treble' * lit 8 10 in
  match previousFeatures this with
  | Some prev =>
      let movement :=
        Math_abs (melodicContent
                  - (prev.(mid) * lit 6 10 + prev.(treble) * lit 8 10)) in
      Math_min (ofZ 1) (melodicContent + movement * lit 3 10)
  | None => melodicContent
  end.

(** The loop of [calculateCorrelation]; the accumulator is
    [(numerator, denominator1, denominator2)]. *)
Definition correlationSums (mean1 mean2 : num) (arr1 arr2 : list num)
  : num * num * num :=
  fold_left
    (fun acc p =>
       let '(numerator, denominator1, denominator2) := acc in
       let diff1 := fst p - mean1 in
       let diff2 := snd p - mean2 in
       (numerator + diff1 * diff2,
        denominator1 + diff1 * diff1,
        denominator2 + diff2 * diff2))
    (combine arr1 arr2) (ofZ 0, ofZ 0, ofZ 0).

Definition calculateCorrelation (arr1 arr2 : list num) : num :=
  if negb (length arr1 =? length arr2)%nat then ofZ 0
  else
    let mean1 := sum arr1 / len arr1 in
    let mean2 := sum arr2 / len arr2 in
    let '(numerator, denominator1, denominator2) :=
      correlationSums mean1 mean2 arr1 arr2 in
    let denominator := Math_sqrt (denominator1 * denominator2) in
    if denominator === ofZ 0 then ofZ 0 else numerator / denominator.

Definition segments : nat := 8.

(** [analyzeHarmony].  [Math.floor(audioData.length / segments)] and the
    slice bounds are computed on integers. *)
Definition analyzeHarmony (audioData : list num) : num :=
  let segmentSize := (length audioData / segments)%nat in
  let harmonyScore :=
    fold_left
      (fun harmonyScore i =>
         let segment1 :=
           slice (Z.of_nat (i * segmentSize))
                 (Z.of_nat ((i + 1) * segmentSize)) audioData in
         let segment2 :=
           slice (Z.of_nat ((i + 1) * segmentSize))
                 (Z.of_nat ((i + 2) * segmentSize)) audioData in
         let correlation := calculateCorrelation segment1 segment2 in
         harmonyScore + correlation)
      (seq 0 (segments - 1)) (ofZ 0) in
  harmonyScore / ofZ (Z.of_nat (segments - 1)).

Definition analyzeDynamics (audioData : list num) : num :=
  let total := sum audioData in
  let average := total / len audioData in
  let variance :=
    fold_left (fun sum val => sum + Math_pow2 (val - average))
              audioData (ofZ 0)
    / len audioData in
  Math_min (ofZ 1) (Math_sqrt variance * ofZ 2).

Definition calculateEnergy (audioData : list num) : num :=
  let rms :=
    Math_sqrt (fold_left (fun sum val => sum + val * val) audioData (ofZ 0)
               / len audioData) in
  Math_min (ofZ 1) (rms * ofZ 2).

Definition estimateTempo (this : MusicBrain) (rhythm : num) : num :=
  if (length (beatHistory this) <? 8)%nat then ofZ 120
  else
    let recentBeats := slice_from (-8) (beatHistory this) in
    let avgBeatStrength := sum recentBeats / len recentBeats in
    ofZ 60 + avgBeatStrength * ofZ 120.

Definition determineMood (energy harmony dynamics : num) : Mood :=
  if (energy <? lit 3 10) && (harmony >? lit 6 10) then calm
  else if (energy >? lit 7 10) && (dynamics >? lit 5 10) then energetic
  else if (harmony <? lit 4 10) && (dynamics >? lit 6 10) then dramatic
  else if (energy <? lit 5 10) && (harmony <? lit 5 10) then mysterious
  else joyful.

Definition detectBeatDrop (this : MusicBrain) (features : AudioFeatures)
  : bool :=
  match previousFeatures this with
  | None => false
  | Some prev =>
      let bassIncrease := features.(bass) - prev.(bass) in
      let energyIncrease := features.(energy) - prev.(energy) in
      (bassIncrease >? lit 3 10) && (energyIncrease >? lit 2 10)
  end.

Definition detectVocalPresence (audioData : list num) : bool :=
  let vocalLow := slice 8 24 audioData in
  let vocalHigh := slice 80 120 audioData in
  let vocalScore :=
    (sum vocalLow / len vocalLow + sum vocalHigh / len vocalHigh) / ofZ 2 in
  vocalScore >? lit 4 10.

Definition calculateInstrumentalDensity (audioData : list num) : num :=
  let nonZeroFreqs := filter (fun val => val >? lit 1 10) audioData in
  len nonZeroFreqs / len audioData.

Definition detectGenre (features : AudioFeatures) : Genre :=
  if (features.(bass) >? lit 7 10) && (features.(energy) >? lit 6 10)
  then electronic
  else if (features.(harmony) >? lit 7 10) && (features.(energy) <? lit 4 10)
  then classical
  else if (features.(rhythm) >? lit 6 10) && (features.(bass) >? lit 5 10)
  then rock
  else if (features.(energy) <? lit 3 10) && (features.(harmony) >? lit 5 10)
  then ambient
  else if (features.(mid) >? lit 6 10) && (features.(melody) >? lit 5 10)
  then voice
  else acoustic.

Definition analyzeContext (this : MusicBrain) (features : AudioFeatures)
           (audioData : list num) : MusicContext :=
  let beatDrop := detectBeatDrop this features in
  let vocalPresence := detectVocalPresence audioData in
  let instrumentalDensity := calculateInstrumentalDensity audioData in
  let emotionalIntensity :=
    (features.(energy) + features.(dynamics) + features.(harmony)) / ofZ 3 in
  let genreHint := detectGenre features in
  mkContext beatDrop vocalPresence instrumentalDensity emotionalIntensity
            genreHint.

(** [MusicBrain.updateHistory]: push both values, then drop the oldest
    entry of a buffer that has grown past 20. *)
Definition updateHistory (this : MusicBrain) (rhythm energy : num)
  : MusicBrain :=
  let beatHistory := push (beatHistory this) rhythm in
  let energyHistory := push (energyHistory this) energy in
  let beatHistory :=
    if (20 <? length beatHistory)%nat then shift beatHistory
    else beatHistory in
  let energyHistory :=
    if (20 <? length energyHistory)%nat then shift energyHistory
    else energyHistory in
  mkBrain (previousFeatures this) beatHistory energyHistory (time this).

(** [analyzeAudio]: the result and the brain after the call. *)
Definition analyzeAudio (this : MusicBrain) (audioData : list num)
  : (AudioFeatures * MusicContext) * MusicBrain :=
  let this := mkBrain (previousFeatures this) (beatHistory this)
                      (energyHistory this) (time this + 1) in
  let bass := extractBass audioData in
  let mid := extractMid audioData in
  let treble := extractTreble audioData in
  let rhythm := analyzeRhythm this bass mid in
  let melody := analyzeMelody this mid treble in
  let harmony := analyzeHarmony audioData in
  let dynamics := analyzeDynamics audioData in
  let energy := calculateEnergy audioData in
  let tempo := estimateTempo this rhythm in
  let mood := determineMood energy harmony dynamics in
  let features :=
    mkFeatures bass mid treble rhythm melody harmony dynamics energy
               tempo mood in
  let context := analyzeContext this features audioData in
  let this := mkBrain (Some features) (beatHistory this)
                      (energyHistory this) (time this) in
  let this := updateHistory this rhythm energy in
  ((features, context), this).

(** The brain after a run of ticks, from a given brain. *)
Definition runAudio (this : MusicBrain) (frames : list (list num))
  : MusicBrain :=
  fold_left (fun b frame => snd (analyzeAudio b frame)) frames this.


(** ** The rhythm rule in the words of the specification

    [consistency(v) = max(0, 1 - sqrt(variance(v)))], and the multiplier
    [1 + consistency(last 4) * 0.5] applied when the beat history has at
    least [least] entries.  The specification says [least = 4]. *)
Definition mean (v : list num) : num := sum v / len v.

Definition variance (v : list num) : num :=
  fold_left (fun acc val => acc + Math_pow2 (val - mean v)) v (ofZ 0) / len v.

Definition consistency (v : list num) : num :=
  Math_max (ofZ 0) (ofZ 1 - Math_sqrt (variance v)).

(** The last [n] entries of an array. *)
Definition lastN (n : nat) (v : list num) : list num :=
  skipn (length v - n) v.

Definition rhythmRule (least : nat) (history : list num) (bass mid : num)
  : num :=
  let strength := Math_max (bass * lit 12 10) (mid * lit 8 10) in
  if (least <=? length history)%nat
  then strength * (ofZ 1 + consistency (lastN 4 history) * lit 5 10)
  else strength.
End Brain.

Arguments AudioFeatures num : clear implicits.
Arguments MusicContext num : clear implicits.
Arguments MusicBrain num : clear implicits.

(* ================================================================== *)
(** * The regular expression of parseHSL *)
(* ================================================================== *)

(** [/hsl\((\d+),\s*(\d+)%,\s*(\d+)%\)/], as [String.prototype.match] runs
    it: the leftmost position where the pattern matches.  A digit is never a
    comma, a percent sign or white space, so the greedy runs of [\d+] and
    [\s*] never have to give a character back. *)
Module Regex.
Local Open Scope string_scope.

Definition isDigit (c : ascii) : bool :=
  let n := nat_of_ascii c in ((48 <=? n) && (n <=? 57))%nat.

(** [\s] on code units below 256 *)
Definition isSpace (c : ascii) : bool :=
  let n := nat_of_ascii c in
  ((n =? 9) || (n =? 10) || (n =? 11) || (n =? 12) || (n =? 13)
   || (n =? 32) || (n =? 160))%nat.

(** The longest prefix of characters that satisfy [p], and the rest. *)
Fixpoint span (p : ascii -> bool) (s : string) : string * string :=
  match s with
  | EmptyString => (EmptyString, EmptyString)
  | String c t =>
      if p c then let '(a, b) := span p t in (String c a, b)
      else (EmptyString, s)
  end.

(** [s] without its prefix [pre] *)
Fixpoint expect (pre s : string) : option string :=
  match pre, s with
  | EmptyString, _ => Some s
  | String a pre, String b s =>
      if Ascii.eqb a b then expect pre s else None
  | String _ _, EmptyString => None
  end.

(** [(\d+)] *)
Definition group (s : string) : option (string * string) :=
  match span isDigit s with
  | (EmptyString, _) => None
  | (ds, rest) => Some (ds, rest)
  end.

(** [\s*] *)
Definition spaces (s : string) : string := snd (span isSpace s).

(** [(\d+)] followed by the literal [sep]: the group and what follows. *)
Definition groupThen (sep s : string) : option (string * string) :=
  match group s with
  | None => None
  | Some (m, s) =>
      match expect sep s with
      | None => None
      | Some s => Some (m, s)
      end
  end.

(** The pattern at the start of [s], read as [hsl\(], [(\d+),], [\s*],
    [(\d+)%,], [\s*], [(\d+)%\)]: the three captured groups. *)
Definition matchHere (s : string) : option (string * string * string) :=
  match expect "hsl(" s with None => None | Some s =>
  match groupThen "," s with None => None | Some (m1, s) =>
  match groupThen "%," (spaces s) with None => None | Some (m2, s) =>
  match groupThen "%)" (spaces s) with None => None | Some (m3, _) =>
  Some (m1, m2, m3)
  end end end end.

(** [str.match(re)]: the groups of the leftmost match. *)
Fixpoint search (s : string) : option (string * string * string) :=
  match matchHere s with
  | Some m => Some m
  | None =>
      match s with
      | EmptyString => None
      | String _ t => search t
      end
  end.

(** Every character of [s] satisfies [p]. *)
Fixpoint all (p : ascii -> bool) (s : string) : bool :=
  match s with
  | EmptyString => true
  | String c t => p c && all p t
  end.

(** [s] is a run of one or more decimal digits: what Number::toString
    yields for a non-negative integer below [10^21]. *)
Definition digitString (s : string) : bool :=
  match s with
  | EmptyString => false
  | String _ _ => all isDigit s
  end.

(** The characters Number::toString can yield: digits, the decimal point,
    the signs, the exponent mark, and the letters of [NaN] and [Infinity]. *)
Definition isNumberChar (c : ascii) : bool :=
  isDigit c
  || existsb (Ascii.eqb c) (list_ascii_of_string ".-+eNaInfity").

(** The string of the template literal [`hsl(${a}, ${b}%, ${c}%)`] once the
    three numbers are converted to the strings [a], [b], [c]. *)
Definition template (a b c : string) : string :=
  "hsl(" ++ a ++ ", " ++ b ++ "%, " ++ c ++ "%)".

(** [s] has a decimal point. *)
Definition hasPoint (s : string) : bool :=
  negb (all (fun c => negb (Ascii.eqb "." c)) s).

(** A string with a match of the pattern somewhere inside. *)
Definition holdsPattern (str m1 m2 m3 : string) : Prop :=
  exists pre w1 w2 post,
    str = pre ++ "hsl(" ++ m1 ++ "," ++ w1 ++ m2 ++ "%," ++ w2 ++ m3
              ++ "%)" ++ post
    /\ all isSpace w1 = true /\ all isSpace w2 = true
    /\ digitString m1 = true /\ digitString m2 = true
    /\ digitString m3 = true.

(** Not the letter [h], with which the pattern starts. *)
Definition notH (c : ascii) : bool := negb (Ascii.eqb "h" c).

(** The value of a string of decimal digits, as [parseInt] reads it. *)
Definition digitValue (c : ascii) : Z := Z.of_nat (nat_of_ascii c - 48).

Fixpoint valueAcc (s : string) (acc : Z) : Z :=
  match s with
  | EmptyString => acc
  | String c t => valueAcc t (10 * acc + digitValue c)%Z
  end.

Definition value (s : string) : Z := valueAcc s 0.
End Regex.

(* ================================================================== *)
(** * ColorBrain *)
(* ================================================================== *)

Inductive Temperature := warm | cool | neutral.

Definition Genre_eqb (a b : Genre) : bool :=
  match a, b with
  | electronic, electronic | acoustic, acoustic | classical, classical
  | rock, rock | ambient, ambient | voice, voice | mixed, mixed => true
  | _, _ => false
  end.

Definition Mood_eqb (a b : Mood) : bool :=
  match a, b with
  | calm, calm | energetic, energetic | dramatic, dramatic
  | mysterious, mysterious | joyful, joyful => true
  | _, _ => false
  end.

Definition moodString (m : Mood) : string :=
  match m with
  | calm => "calm" | energetic => "energetic" | dramatic => "dramatic"
  | mysterious => "mysterious" | joyful => "joyful"
  end.

Section Colors.
Context {num : Type} `{JSNumber num}.
Local Open Scope string_scope.
Local Open Scope js_scope.

(** A palette entry is the string that the template literal
    [`hsl(${h}, ${s}%, ${l}%)`] yields.  Every colour string of ColorBrain
    comes from that one template, so an entry is kept as the three numbers
    the template was given; [css] is the string itself. *)
Record Color := hsl { hue : num; sat : num; light : num }.

Definition css (c : Color) : string :=
  Regex.template (toString c.(hue)) (toString c.(sat)) (toString c.(light)).

Record ColorPalette := mkPalette {
  primary : Color;
  secondary : Color;
  accent : Color;
  background : Color;
  glow : Color;
  particles : list Color
  }.

Record ColorMood := mkMood {
  name : string;
  temperature : Temperature;
  saturation : num;
  brightness : num;
  contrast : num
  }.

(** The private fields of [class ColorBrain]. *)
Record ColorBrain := mkColorBrain {
  colorHistory : list ColorPalette;
  transitionSpeed : num
  }.

Definition newColorBrain : ColorBrain := mkColorBrain [] (lit 1 10).

(** The object [{h, s, l}] that [parseHSL] returns. *)
Record HSL := mkHSL { h : num; s : num; l : num }.

Definition parseInt (digits : string) : num := ofZ (Regex.value digits).

Definition parseHSL (hslString : string) : HSL :=
  match Regex.search hslString with
  | None => mkHSL (ofZ 0) (ofZ 0) (ofZ 0)
  | Some (m1, m2, m3) => mkHSL (parseInt m1) (parseInt m2) (parseInt m3)
  end.

(** The three numbers of a colour are written with digits only. *)
Definition integral (c : Color) : bool :=
  Regex.digitString (toString c.(hue))
  && Regex.digitString (toString c.(sat))
  && Regex.digitString (toString c.(light)).

Definition getMoodName (mood : Mood) (energy harmony : num) : string :=
  let intensity :=
    if energy >? lit 6 10 then "intense"
    else if energy >? lit 3 10 then "moderate" else "gentle" in
  let harmonyLevel :=
    if harmony >? lit 6 10 then "harmonious"
    else if harmony >? lit 3 10 then "balanced" else "chaotic" in
  (intensity ++ "-" ++ moodString mood ++ "-" ++ harmonyLevel)%string.

Definition analyzeMood (features : AudioFeatures num)
           (context : MusicContext num) : ColorMood :=
  let temperature := neutral in
  let temperature :=
    if (features.(bass) >? lit 6 10)
       || Genre_eqb context.(genreHint) electronic
    then cool else temperature in
  let temperature :=
    if (features.(harmony) >? lit 6 10)
       || Genre_eqb context.(genreHint) acoustic
    then warm else temperature in
  let temperature :=
    if Mood_eqb features.(mood) mysterious
       || Mood_eqb features.(mood) dramatic
    then cool else temperature in
  let saturation :=
    Math_min (ofZ 100)
             (ofZ 40 + features.(energy) * ofZ 60
              + features.(dynamics) * ofZ 30) in
  let brightness :=
    Math_min (ofZ 100)
             (ofZ 30 + features.(treble) * ofZ 40
              + context.(emotionalIntensity) * ofZ 30) in
  let contrast :=
    Math_min (ofZ 100)
             (ofZ 20 + features.(dynamics) * ofZ 50
              + features.(energy) * ofZ 30) in
  mkMood (getMoodName features.(mood) features.(energy) features.(harmony))
         temperature saturation brightness contrast.

(** The body of the loop of [generateParticleColors] for index [i]; the two
    calls of [Math.random] are the draws [2 i] and [2 i + 1]. *)
Definition particleColor (random : nat -> num) (baseHue saturation' lightness
                          particleCount : num) (i : nat) : Color :=
  let hueShift := (ofZ 360 / particleCount) * ofZ (Z.of_nat i) in
  let particleHue := (baseHue + hueShift) mod ofZ 360 in
  let particleSat :=
    saturation' + (random (2 * i)%nat - lit 5 10) * ofZ 30 in
  let particleLight :=
    lightness + (random (2 * i + 1)%nat - lit 5 10) * ofZ 40 in
  hsl particleHue
      (Math_max (ofZ 0) (Math_min (ofZ 100) particleSat))
      (Math_max (ofZ 10) (Math_min (ofZ 90) particleLight)).

(** [generateParticleColors]; [None] when the loop does not end. *)
Definition generateParticleColors (random : nat -> num)
           (baseHue saturation' lightness : num)
           (features : AudioFeatures num) : option (list Color) :=
  let particleCount := Math_floor (ofZ 3 + features.(energy) * ofZ 5) in
  match countBelow particleCount with
  | None => None
  | Some rounds =>
      Some (map (particleColor random baseHue saturation' lightness
                               particleCount)
                (seq 0 rounds))
  end.

(** The [switch] of [createBasePalette] on the genre hint; [mixed] is the
    one value left to its [default] branch. *)
Definition baseHueOf (features : AudioFeatures num)
           (context : MusicContext num) : num :=
  match context.(genreHint) with
  | electronic => ofZ 240 + features.(bass) * ofZ 60
  | acoustic => ofZ 30 + features.(harmony) * ofZ 60
  | classical => ofZ 200 + features.(harmony) * ofZ 80
  | rock => ofZ 0 + features.(energy) * ofZ 60
  | ambient => ofZ 180 + features.(mid) * ofZ 120
  | voice =>
      if context.(vocalPresence)
      then ofZ 45 + context.(emotionalIntensity) * ofZ 90
      else ofZ 200
  | mixed => features.(bass) * ofZ 120 + features.(treble) * ofZ 240
  end.

(** [createBasePalette]; the draws of the particle loop are
    [random 0, random 1, ...]. *)
Definition createBasePalette (random : nat -> num)
           (features : AudioFeatures num) (context : MusicContext num)
           (mood : ColorMood) : option ColorPalette :=
  let baseHue := baseHueOf features context in
  let baseHue := baseHue mod ofZ 360 in
  let primaryHue := baseHue in
  let secondaryHue := (baseHue + ofZ 120) mod ofZ 360 in
  let accentHue := (baseHue + ofZ 240) mod ofZ 360 in
  let backgroundHue := (baseHue + ofZ 180) mod ofZ 360 in
  let saturation' := mood.(saturation) in
  let lightness := mood.(brightness) in
  match generateParticleColors random baseHue saturation' lightness
                               features with
  | None => None
  | Some particles =>
      Some (mkPalette
        (hsl primaryHue saturation' lightness)
        (hsl secondaryHue (saturation' * lit 8 10) (lightness * lit 9 10))
        (hsl accentHue (saturation' * lit 12 10) (lightness * lit 11 10))
        (hsl backgroundHue (saturation' * lit 3 10) (lightness * lit 2 10))
        (hsl primaryHue (saturation' * lit 15 10) (lightness * lit 13 10))
        particles)
  end.

Definition intensifyPalette (palette : ColorPalette) (factor : num)
  : ColorPalette :=
  let intensify (color : Color) :=
    let hsl' := parseHSL (css color) in
    hsl hsl'.(h) (Math_min (ofZ 100) (hsl'.(s) * factor))
        (Math_min (ofZ 90) (hsl'.(l) * factor)) in
  mkPalette (intensify palette.(primary)) palette.(secondary)
            (intensify palette.(accent)) palette.(background)
            (intensify palette.(glow))
            (map intensify palette.(particles)).

Definition shiftTowardsWarmth (hue' amount : num) : num :=
  let closestWarmHue :=
    fold_left
      (fun closest warmHue =>
         let distance1 := Math_abs (hue' - closest) in
         let distance2 := Math_abs (hue' - warmHue) in
         if distance2 <? distance1 then warmHue else closest)
      [ofZ 30; ofZ 60] (ofZ 0) in
  let shift := (closestWarmHue - hue') * amount in
  (hue' + shift + ofZ 360) mod ofZ 360.

Definition addWarmth (palette : ColorPalette) (amount : num)
  : ColorPalette :=
  let warmify (color : Color) :=
    let hsl' := parseHSL (css color) in
    let warmerHue := shiftTowardsWarmth hsl'.(h) amount in
    hsl warmerHue hsl'.(s) hsl'.(l) in
  mkPalette (warmify palette.(primary)) (warmify palette.(secondary))
            palette.(accent) palette.(background)
            (warmify palette.(glow)) palette.(particles).

(** [addComplexity]; [next] is the index of the first draw it makes.  The
    count [Math.min(5, Math.floor(particles.length * 0.5))] and the index
    [i % particles.length] are computed on array lengths, which are
    integers. *)
Definition addComplexity (random : nat -> num) (next : nat)
           (particles : list Color) : list Color :=
  let additionalCount := Nat.min 5 (length particles / 2) in
  fold_left
    (fun complexParticles i =>
       match nth_error particles (i mod length particles)%nat with
       | None => complexParticles
       | Some baseColor =>
           let hsl' := parseHSL (css baseColor) in
           let variation :=
             hsl ((hsl'.(h) + (random (next + i)%nat - lit 5 10) * ofZ 60)
                  mod ofZ 360)
                 hsl'.(s) hsl'.(l) in
           push complexParticles variation
       end)
    (seq 0 additionalCount) particles.

Definition adjustSaturation (palette : ColorPalette) (intensity : num)
  : ColorPalette :=
  let adjust (color : Color) :=
    let hsl' := parseHSL (css color) in
    let newSaturation :=
      Math_min (ofZ 100) (hsl'.(s) * (ofZ 1 + intensity * lit 5 10)) in
    hsl hsl'.(h) newSaturation hsl'.(l) in
  mkPalette (adjust palette.(primary)) (adjust palette.(secondary))
            (adjust palette.(accent)) palette.(background)
            palette.(glow) (map adjust palette.(particles)).

Definition refineForContext (random : nat -> num) (next : nat)
           (palette : ColorPalette) (context : MusicContext num)
  : ColorPalette :=
  let refinedPalette := palette in
  let refinedPalette :=
    if context.(beatDrop)
    then intensifyPalette refinedPalette (lit 15 10)
    else refinedPalette in
  let refinedPalette :=
    if context.(vocalPresence)
    then addWarmth refinedPalette (lit 3 10)
    else refinedPalette in
  let refinedPalette :=
    if context.(instrumentalDensity) >? lit 7 10
    then mkPalette refinedPalette.(primary) refinedPalette.(secondary)
                   refinedPalette.(accent) refinedPalette.(background)
                   refinedPalette.(glow)
                   (addComplexity random next refinedPalette.(particles))
    else refinedPalette in
  let refinedPalette :=
    if context.(emotionalIntensity) >? lit 8 10
    then adjustSaturation refinedPalette context.(emotionalIntensity)
    else refinedPalette in
  refinedPalette.

Definition interpolateHue (h1 h2 t : num) : num :=
  let diff := ((h2 - h1 + ofZ 180) mod ofZ 360) - ofZ 180 in
  (h1 + diff * t + ofZ 360) mod ofZ 360.

(** The [blend] closure of [smoothTransition]. *)
Definition blend (speed : num) (color1 color2 : Color) : Color :=
  let hsl1 := parseHSL (css color1) in
  let hsl2 := parseHSL (css color2) in
  let h' := interpolateHue hsl1.(h) hsl2.(h) speed in
  let s' := hsl1.(s) + (hsl2.(s) - hsl1.(s)) * speed in
  let l' := hsl1.(l) + (hsl2.(l) - hsl1.(l)) * speed in
  hsl h' s' l'.

(** [arr.map((x, i) => f(x, i))] *)
Fixpoint mapi_from {A B} (i : nat) (f : A -> nat -> B) (arr : list A)
  : list B :=
  match arr with
  | [] => []
  | x :: arr => f x i :: mapi_from (S i) f arr
  end.

Definition mapi {A B} (f : A -> nat -> B) (arr : list A) : list B :=
  mapi_from 0 f arr.

Definition smoothTransition (this : ColorBrain) (newPalette : ColorPalette)
  : ColorPalette :=
  if (length this.(colorHistory) =? 0)%nat then newPalette
  else
  match nth_error this.(colorHistory) (length this.(colorHistory) - 1) with
  | None => newPalette
  | Some lastPalette =>
      let speed := this.(transitionSpeed) in
      mkPalette
        (blend speed lastPalette.(primary) newPalette.(primary))
        (blend speed lastPalette.(secondary) newPalette.(secondary))
        (blend speed lastPalette.(accent) newPalette.(accent))
        (blend speed lastPalette.(background) newPalette.(background))
        (blend speed lastPalette.(glow) newPalette.(glow))
        (mapi (fun color i =>
                 match nth_error lastPalette.(particles) i with
                 | Some c => blend speed c color
                 | None => color
                 end)
              newPalette.(particles))
  end.

(** [ColorBrain.updateHistory] *)
Definition updateColorHistory (this : ColorBrain) (palette : ColorPalette)
  : ColorBrain :=
  let colorHistory := push this.(colorHistory) palette in
  let colorHistory :=
    if (10 <? length colorHistory)%nat then shift colorHistory
    else colorHistory in
  mkColorBrain colorHistory this.(transitionSpeed).

(** The index of the first draw after the particle loop. *)
Definition drawsOfBase (palette : ColorPalette) : nat :=
  (2 * length palette.(particles))%nat.

(** [generatePalette]: the palette and the brain after the call, or [None]
    when the particle loop does not end.  [random k] is the result of the
    [k]-th call of [Math.random] made during this call. *)
Definition generatePalette (random : nat -> num) (this : ColorBrain)
           (features : AudioFeatures num) (context : MusicContext num)
  : option (ColorPalette * ColorBrain) :=
  let mood := analyzeMood features context in
  match createBasePalette random features context mood with
  | None => None
  | Some basePalette =>
      let refinedPalette :=
        refineForContext random (drawsOfBase basePalette) basePalette
                         context in
      let finalPalette := smoothTransition this refinedPalette in
      let this := updateColorHistory this finalPalette in
      Some (finalPalette, this)
  end.

Definition setTransitionSpeed (this : ColorBrain) (speed : num)
  : ColorBrain :=
  mkColorBrain this.(colorHistory)
               (Math_max (lit 1 100) (Math_min (ofZ 1) speed)).

(** One call of [generatePalette]: its random source and its arguments. *)
Definition PaletteTick : Type :=
  (nat -> num) * AudioFeatures num * MusicContext num.

(** The brain after a run of calls, if every call returns. *)
Definition runPalettes (this : ColorBrain) (ticks : list PaletteTick)
  : option ColorBrain :=
  fold_left
    (fun acc tick =>
       match acc with
       | None => None
       | Some this =>
           let '(random, features, context) := tick in
           option_map snd (generatePalette random this features context)
       end)
    ticks (Some this).
End Colors.

Arguments Color num : clear implicits.
Arguments ColorPalette num : clear implicits.
Arguments ColorMood num : clear implicits.
Arguments ColorBrain num : clear implicits.
Arguments HSL num : clear implicits.

(** ** The colours addComplexity adds *)

Section Variations.
Context {num : Type} `{JSNumber num}.
Local Open Scope js_scope.

(** The body of the loop of [addComplexity] for one base colour: the colour
    it pushes when [Math.random] returns [jitter]. *)
Definition variationOf (jitter : num) (baseColor : Color num) : Color num :=
  let hsl' := parseHSL (css baseColor) in
  hsl ((hsl'.(h) + (jitter - lit 5 10) * ofZ 60) mod ofZ 360)
      hsl'.(s) hsl'.(l).
End Variations.


(* ================================================================== *)
(** * The neural render mode *)
(* ================================================================== *)

(** [drawNeuralNetwork], up to the end of its connection loop.  The canvas is
    modelled by the list of strokes it receives.  [Math.sin], [Math.cos] and
    [Math.PI] are parameters. *)
Section Neural.
Context {num : Type} `{JSNumber num}.
Variables (Math_sin Math_cos : num -> num) (Math_PI : num).
Local Open Scope string_scope.
Local Open Scope js_scope.

Record Node := mkNode { x : num; y : num; intensity : num }.

(** One [beginPath; moveTo; lineTo; stroke] with the context state it is
    drawn in; [ends] are the indices of the two nodes. *)
Record Stroke := mkStroke {
  ends : nat * nat;
  moveTo : num * num;
  lineTo : num * num;
  strokeStyle : string;
  lineWidth : num;
  globalAlpha : num
  }.

Definition nodeCount : nat := 20.

(** [v || 0] for a number or [undefined] *)
Definition orZero (v : option num) : num :=
  match v with
  | None => ofZ 0
  | Some v => if (v === ofZ 0) || negb (v === v) then ofZ 0 else v
  end.

(** The node loop; the sample index [i * Math.floor(data.length / nodeCount)]
    is computed on integers. *)
Definition createNodes (centerX centerY : num) (data : list num)
           (time : num) : list Node :=
  map (fun i =>
         let angle :=
           (ofZ (Z.of_nat i) / ofZ (Z.of_nat nodeCount)) * Math_PI * ofZ 2 in
         let radius :=
           ofZ 100 + Math_sin (time + ofZ (Z.of_nat i)) * ofZ 50 in
         mkNode (centerX + Math_cos angle * radius)
                (centerY + Math_sin angle * radius)
                (orZero (nth_error data
                                   (i * (length data / nodeCount))%nat)))
      (seq 0 nodeCount).

Definition distance (a b : Node) : num :=
  Math_sqrt (Math_pow2 (a.(x) - b.(x)) + Math_pow2 (a.(y) - b.(y))).

(** The test that guards the stroke between two nodes. *)
Definition connected (a b : Node) : bool :=
  (distance a b <? ofZ 150)
  && ((a.(intensity) >? lit 3 10) || (b.(intensity) >? lit 3 10)).

Definition connectionStroke (palette : option (ColorPalette num))
           (i j : nat) (a b : Node) : Stroke :=
  mkStroke (i, j) (a.(x), a.(y)) (b.(x), b.(y))
    match palette with
    | Some p => css p.(secondary)
    | None =>
        "hsl(60, 70%, "
        ++ toString (ofZ 30 + (a.(intensity) + b.(intensity)) * ofZ 25)
        ++ "%)"
    end
    ((a.(intensity) + b.(intensity)) * ofZ 2)
    (lit 6 10).

(** The two nested loops, [i] over all nodes and [j] over the later ones. *)
Definition drawConnections (palette : option (ColorPalette num))
           (nodes : list Node) : list Stroke :=
  flat_map
    (fun i =>
       flat_map
         (fun j =>
            match nth_error nodes i, nth_error nodes j with
            | Some a, Some b =>
                if connected a b then [connectionStroke palette i j a b]
                else []
            | _, _ => []
            end)
         (seq (i + 1) (length nodes - (i + 1))))
    (seq 0 (length nodes)).

Definition drawNeuralConnections (centerX centerY : num) (data : list num)
           (time : num) (palette : option (ColorPalette num))
  : list Stroke :=
  drawConnections palette (createNodes centerX centerY data time).
End Neural.

Arguments Node num : clear implicits.
Arguments Stroke num : clear implicits.

(** ** The node loop of the neural mode *)

Section NeuralNodes.
Context {num : Type} `{JSNumber num}.
Variable Math_PI : num.
Local Open Scope string_scope.
Local Open Scope js_scope.

(** One [ctx.fill()] of the last loop of [drawNeuralNetwork]: the node, the
    circle of [ctx.arc], and the fill style and the shadow the context holds
    when the fill is made.  [shadowColor] is [None] as long as the loop has
    not assigned it. *)
Record NodeFill := mkNodeFill {
  filled : nat;
  center : num * num;
  radius : num;
  angles : num * num;
  fillStyle : string;
  shadowColor : option string;
  shadowBlur : num
  }.

(** The body of [nodes.forEach]: the fills of one node, and the shadow
    colour the context holds afterwards. *)
Definition drawNode (palette : option (ColorPalette num))
           (shadow : option string) (i : nat) (node : Node num)
  : list NodeFill * option string :=
  if node.(intensity) <? lit 1 10 then ([], shadow)
  else
    let r := ofZ 3 + node.(intensity) * ofZ 8 in
    let style :=
      match palette with
      | Some p => css p.(accent)
      | None =>
          "hsl(300, 70%, "
          ++ toString (ofZ 50 + node.(intensity) * ofZ 30) ++ "%)"
      end in
    let full := (ofZ 0, Math_PI * ofZ 2) in
    let plain :=
      mkNodeFill i (node.(x), node.(y)) r full style shadow (ofZ 0) in
    if node.(intensity) >? lit 6 10 then
      let shadow' :=
        Some match palette with
             | Some p => css p.(glow)
             | None => "#ff00ff"
             end in
      ([plain;
        mkNodeFill i (node.(x), node.(y)) r full style shadow' (ofZ 20)],
       shadow')
    else ([plain], shadow).

Fixpoint drawNodesFrom (palette : option (ColorPalette num))
         (shadow : option string) (i : nat) (nodes : list (Node num))
  : list NodeFill :=
  match nodes with
  | [] => []
  | node :: nodes =>
      let '(fills, shadow) := drawNode palette shadow i node in
      fills ++ drawNodesFrom palette shadow (S i) nodes
  end.

(** [nodes.forEach((node, i) => ...)] *)
Definition drawNodes (palette : option (ColorPalette num))
           (nodes : list (Node num)) : list NodeFill :=
  drawNodesFrom palette None 0 nodes.
End NeuralNodes.

Arguments NodeFill num : clear implicits.

(* ================================================================== *)
(** * The simulated audio *)
(* ================================================================== *)

Inductive Mode :=
  sacred | cosmic | flow | pulse | trippy | ocean | neural | galaxy.

(** [simulateIntelligentAudio] of [AudioVisualizer.tsx].  [dateNow] is the
    value of [Date.now()]; [random i] is the result of the call of
    [Math.random] made for sample [i] (a mode that draws makes one call per
    sample).  The [default] branch of the switch is left out: [mode] has no
    ninth value. *)
Section Simulation.
Context {num : Type} `{JSNumber num}.
Variables (Math_sin Math_cos : num -> num) (Math_PI : num).
Local Open Scope js_scope.

Definition amplitudeOf (mode : Mode) (random : nat -> num) (time : num)
           (i : nat) : num :=
  let baseFreq := (ofZ (Z.of_nat i) / ofZ 128) * Math_PI * ofZ 2 in
  match mode with
  | sacred =>
      let amplitude :=
        Math_sin (time * lit 12 10 + baseFreq) * Math_sin (time * lit 3 10)
        * lit 7 10 in
      if (i mod 12 =? 0)%nat then amplitude * lit 15 10 else amplitude
  | cosmic =>
      let amplitude :=
        Math_sin (time * lit 8 10 + baseFreq * lit 15 10)
        * Math_cos (time * lit 2 10) * lit 6 10 in
      amplitude + random i * lit 1 10
  | flow =>
      Math_sin (time * ofZ 1 + baseFreq) * Math_sin (time * lit 4 10)
      * lit 5 10
  | pulse =>
      let amplitude :=
        Math_sin (time * ofZ 2 + baseFreq) * Math_sin (time * lit 6 10)
        * lit 8 10 in
      if (Math_floor (time * ofZ 2) mod ofZ 2) === ofZ 0
      then amplitude * lit 13 10 else amplitude
  | trippy =>
      let amplitude :=
        Math_sin (time * lit 17 10 + baseFreq * ofZ 3)
        * Math_cos (time * lit 7 10) * lit 9 10 in
      amplitude
      + Math_sin (time * ofZ 4 + ofZ (Z.of_nat i) * lit 1 10) * lit 2 10
  | ocean =>
      let amplitude :=
        Math_sin (time * lit 5 10 + baseFreq * lit 8 10)
        * Math_sin (time * lit 1 10) * lit 4 10 in
      amplitude + Math_sin (time * lit 3 10 + baseFreq * ofZ 2) * lit 2 10
  | neural =>
      let amplitude :=
        Math_sin (time * lit 15 10 + baseFreq * ofZ 2) * lit 6 10 in
      if random i >? lit 9 10 then amplitude * ofZ 2 else amplitude
  | galaxy =>
      let amplitude :=
        Math_sin (time * lit 7 10 + baseFreq * lit 12 10)
        * Math_cos (time * lit 15 100) * lit 7 10 in
      amplitude + Math_sin (time * ofZ 3 + baseFreq * lit 5 10) * lit 3 10
  end.

(** [audioData.map((_, i) => Math.max(0, amplitude * intensity))] *)
Definition simulateFrame (mode : Mode) (intensity' : num)
           (random : nat -> num) (dateNow : num) (audioData : list num)
  : list num :=
  let time := dateNow * lit 1 1000 in
  mapi (fun _ i =>
          Math_max (ofZ 0) (amplitudeOf mode random time i * intensity'))
       audioData.

(** The state the component keeps between ticks: the [useState] cells and
    the two brains held in refs. *)
Record Visualizer := mkVisualizer {
  audioData : list num;
  musicBrainRef : MusicBrain num;
  colorBrainRef : ColorBrain num;
  currentPalette : option (ColorPalette num);
  audioFeatures : option (AudioFeatures num);
  musicContext : option (MusicContext num)
  }.

(** [useState(new Array(128).fill(0))], new brains, nothing analysed yet. *)
Definition newVisualizer : Visualizer :=
  mkVisualizer (repeat (ofZ 0) 128) newMusicBrain newColorBrain
               None None None.

(** What one tick reads from outside: [Date.now()], the draws of the frame
    and the draws of [generatePalette]. *)
Record Tick := mkTick {
  tickNow : num;
  frameRandom : nat -> num;
  paletteRandom : nat -> num
  }.

(** The body of [simulateIntelligentAudio]: the state after the tick, or
    [None] when [generatePalette] does not return. *)
Definition simulateIntelligentAudio (mode : Mode) (intensity' : num)
           (tick : Tick) (v : Visualizer) : option Visualizer :=
  let newData :=
    simulateFrame mode intensity' tick.(frameRandom) tick.(tickNow)
                  v.(audioData) in
  let analysis := analyzeAudio v.(musicBrainRef) newData in
  let features := fst (fst analysis) in
  let context := snd (fst analysis) in
  match generatePalette tick.(paletteRandom) v.(colorBrainRef)
                        features context with
  | None => None
  | Some (palette, colorBrain) =>
      Some (mkVisualizer newData (snd analysis) colorBrain (Some palette)
                         (Some features) (Some context))
  end.

(** The state after a run of ticks of the interval timer. *)
Definition runVisualizer (mode : Mode) (intensity' : num)
           (ticks : list Tick) : option Visualizer :=
  fold_left
    (fun acc tick =>
       match acc with
       | None => None
       | Some v => simulateIntelligentAudio mode intensity' tick v
       end)
    ticks (Some newVisualizer).
End Simulation.

Arguments Visualizer num : clear implicits.
Arguments Tick num : clear implicits.

(* ================================================================== *)
(** * The pulse render mode *)
(* ================================================================== *)

Module Pulse.
Section Pulse.
Context {num : Type} `{JSNumber num}.
Variable Math_PI : num.
Local Open Scope string_scope.
Local Open Scope js_scope.

(** One [beginPath; arc; stroke] of [drawPulsingCircles], with the context
    state it is drawn in. *)
Record Circle := mkCircle {
  arc : num * num * num * num * num;
  strokeStyle : string;
  lineWidth : num
  }.

(** [features?.energy || 1] *)
Definition energyOrOne (features : option (AudioFeatures num)) : num :=
  match features with
  | None => ofZ 1
  | Some f =>
      if (energy f === ofZ 0) || negb (energy f === energy f) then ofZ 1
      else energy f
  end.

Definition drawPulsingCircles (centerX centerY : num) (data : list num)
           (palette : option (ColorPalette num))
           (features : option (AudioFeatures num)) : list Circle :=
  let bassIntensity := sum (slice 0 16 data) / ofZ 16 in
  let midIntensity := sum (slice 16 64 data) / ofZ 48 in
  let highIntensity := sum (slice_from 64 data) / ofZ 64 in
  let energyMultiplier := energyOrOne features in
  [ mkCircle (centerX, centerY,
              ofZ 80 + bassIntensity * ofZ 120 * energyMultiplier,
              ofZ 0, Math_PI * ofZ 2)
             match palette with
             | Some p => css p.(primary)
             | None =>
                 "hsl(270, 70%, "
                 ++ toString (ofZ 65 + bassIntensity * ofZ 30) ++ "%)"
             end
             (ofZ 3 + bassIntensity * ofZ 5);
    mkCircle (centerX, centerY,
              ofZ 50 + midIntensity * ofZ 80 * energyMultiplier,
              ofZ 0, Math_PI * ofZ 2)
             match palette with
             | Some p => css p.(secondary)
             | None =>
                 "hsl(220, 70%, "
                 ++ toString (ofZ 55 + midIntensity * ofZ 30) ++ "%)"
             end
             (ofZ 2 + midIntensity * ofZ 4);
    mkCircle (centerX, centerY,
              ofZ 20 + highIntensity * ofZ 40 * energyMultiplier,
              ofZ 0, Math_PI * ofZ 2)
             match palette with
             | Some p => css p.(accent)
             | None =>
                 "hsl(180, 70%, "
                 ++ toString (ofZ 60 + highIntensity * ofZ 30) ++ "%)"
             end
             (ofZ 1 + highIntensity * ofZ 3) ].

(** The radius of a circle, the third argument of [ctx.arc]. *)
Definition radiusOf (c : Circle) : num :=
  let '(_, _, r, _, _) := c.(arc) in r.
End Pulse.
End Pulse.


(* ================================================================== *)
(** * Decimal digits *)
(* ================================================================== *)

Module Digits.
Local Open Scope string_scope.
Local Open Scope Z_scope.

Definition digitChar (d : Z) : ascii :=
  ascii_of_nat (48 + Z.to_nat d).

(** The decimal digits of a non-negative integer, most significant first. *)
Fixpoint digitsAcc (fuel : nat) (z : Z) (acc : string) : string :=
  match fuel with
  | O => acc
  | S fuel =>
      let acc := String (digitChar (z mod 10)) acc in
      if z <? 10 then acc else digitsAcc fuel (z / 10) acc
  end.

Definition decimal (z : Z) : string :=
  digitsAcc (S (Z.to_nat (Z.log2 z))) z EmptyString.

Fixpoint zeros (n : nat) : string :=
  match n with O => EmptyString | S n => String "0" (zeros n) end.
End Digits.

(* ================================================================== *)
(** * The binary64 instance *)
(* ================================================================== *)

Module Float64.
Import Digits.
Local Open Scope string_scope.
Local Open Scope Z_scope.

(** The double nearest to an integer (ties to even). *)
Definition ofZ (z : Z) : float :=
  SF2Prim (binary_normalize prec emax z 0 false).

(** [Math.floor] *)
Definition floor (x : float) : float :=
  match Prim2SF x with
  | S754_finite s m e =>
      if 0 <=? e then x
      else
        let q := Z.shiftr (Z.pos m) (- e) in
        if Z.pos m =? Z.shiftl q (- e) then x
        else if s then ofZ (- (q + 1)) else ofZ q
  | _ => x
  end.

(** [x % y]: the exact remainder of the truncating division, with the sign
    of [x]. *)
Definition rem (x y : float) : float :=
  match Prim2SF x, Prim2SF y with
  | S754_nan, _ | _, S754_nan => nan
  | S754_infinity _, _ => nan
  | _, S754_zero _ => nan
  | S754_zero _, _ => x
  | _, S754_infinity _ => x
  | S754_finite sx mx ex, S754_finite _ my ey =>
      let e := Z.min ex ey in
      let X := Z.pos mx * 2 ^ (ex - e) in
      let Y := Z.pos my * 2 ^ (ey - e) in
      let r := X mod Y in
      if r =? 0 then (if sx then neg_zero else zero)
      else SF2Prim (binary_normalize prec emax (cond_Zopp sx r) e false)
  end.

(** [Math.max] and [Math.min]: NaN if an argument is NaN; [+0] is larger
    than [-0]. *)
Definition max (x y : float) : float :=
  if is_nan x || is_nan y then nan
  else if PrimFloat.ltb x y then y
  else if PrimFloat.ltb y x then x
  else if get_sign x then y else x.

Definition min (x y : float) : float :=
  if is_nan x || is_nan y then nan
  else if PrimFloat.ltb x y then x
  else if PrimFloat.ltb y x then y
  else if get_sign x then x else y.

(** ** Number::toString

    For a finite positive [x = m * 2^e] the standard picks the shortest
    decimal [s * 10^(n-k)], [s] of [k] digits, that reads back as [x], the
    closest to [x] among those, and lays it out by the size of [n]. *)

(** Does the rational [p/q] ([q > 0]) round to [m * 2^e]?  The comparison is
    done in units of [2^(e-2)]. *)
Definition roundsTo (m : positive) (e : Z) (p q : Z) : bool :=
  let '(N, D) :=
    if 2 <=? e then (p, q * 2 ^ (e - 2)) else (p * 2 ^ (2 - e), q) in
  let lowGap :=
    if (Z.pos m =? 2 ^ 52) && (emin <? e) then 1 else 2 in
  let lo := (4 * Z.pos m - lowGap) * D in
  let hi := (4 * Z.pos m + 2) * D in
  if Z.even (Z.pos m) then (lo <=? N) && (N <=? hi)
  else (lo <? N) && (N <? hi).

(** [x] as a fraction. *)
Definition fraction (m : positive) (e : Z) : Z * Z :=
  if 0 <=? e then (Z.pos m * 2 ^ e, 1) else (Z.pos m, 2 ^ (- e)).

(** [x / 10^t] as a fraction. *)
Definition scaled (m : positive) (e : Z) (t : Z) : Z * Z :=
  let '(a, b) := fraction m e in
  if 0 <=? t then (a, b * 10 ^ t) else (a * 10 ^ (- t), b).

(** The [n] with [10^(n-1) <= x < 10^n], searched from an estimate. *)
Fixpoint magnitude (fuel : nat) (m : positive) (e : Z) (n : Z) : Z :=
  match fuel with
  | O => n
  | S fuel =>
      let '(a, b) := scaled m e n in          (* x / 10^n *)
      if b <=? a then magnitude fuel m e (n + 1)
      else
        let '(a', b') := scaled m e (n - 1) in (* x / 10^(n-1) *)
        if a' <? b' then magnitude fuel m e (n - 1) else n
  end.

(** The digits [s] for a given length [k], if some [k]-digit decimal reads
    back as [x]; the result is [(s, n)]. *)
Definition digitsOfLength (m : positive) (e : Z) (n k : Z) : option (Z * Z) :=
  let t := n - k in
  let '(a, b) := scaled m e t in
  let s1 := a / b in
  let s2 := s1 + 1 in
  let ok s :=
    if 0 <=? t then roundsTo m e (s * 10 ^ t) 1
    else roundsTo m e s (10 ^ (- t)) in
  let norm s := if s =? 10 ^ k then (10 ^ (k - 1), n + 1) else (s, n) in
  match ok s1 && (10 ^ (k - 1) <=? s1), ok s2 with
  | true, true =>
      (* both read back: the closer one, the even one on a tie *)
      let d1 := a - s1 * b in
      let d2 := s2 * b - a in
      if d1 <? d2 then Some (norm s1)
      else if d2 <? d1 then Some (norm s2)
      else if Z.even s1 then Some (norm s1) else Some (norm s2)
  | true, false => Some (norm s1)
  | false, true => Some (norm s2)
  | false, false => None
  end.

Fixpoint shortest (fuel : nat) (m : positive) (e : Z) (n k : Z) : Z * Z :=
  match fuel with
  | O => (0, n)
  | S fuel =>
      match digitsOfLength m e n k with
      | Some r => r
      | None => shortest fuel m e n (k + 1)
      end
  end.

Definition substring_from (n : nat) (s : string) : string :=
  substring n (String.length s - n) s.

Definition layout (s n : Z) : string :=
  let ds := decimal s in
  let k := Z.of_nat (String.length ds) in
  if (k <=? n) && (n <=? 21) then
    ds ++ zeros (Z.to_nat (n - k))
  else if (0 <? n) && (n <=? 21) then
    substring 0 (Z.to_nat n) ds ++ "." ++ substring_from (Z.to_nat n) ds
  else if (-6 <? n) && (n <=? 0) then
    "0." ++ zeros (Z.to_nat (- n)) ++ ds
  else
    let ex := (if 0 <=? n - 1 then "+" else "-") ++ decimal (Z.abs (n - 1)) in
    if k =? 1 then ds ++ "e" ++ ex
    else substring 0 1 ds ++ "." ++ substring_from 1 ds ++ "e" ++ ex.

Definition toString (x : float) : string :=
  match Prim2SF x with
  | S754_nan => "NaN"
  | S754_zero _ => "0"
  | S754_infinity s => if s then "-Infinity" else "Infinity"
  | S754_finite sg m e =>
      let est := (Z.log2 (Z.pos m) + e) * 30103 / 100000 in
      let n := magnitude 8 m e est in
      let '(s, n) := shortest 17 m e n 1 in
      (if sg then "-" else "") ++ layout s n
  end.

(** The rounds of [for (let i = 0; i < x; i++)]: none for NaN and for
    [x <= 0], the least integer that is at least [x] otherwise, and no end
    for [+Infinity]. *)
Definition countBelow (x : float) : option nat :=
  match Prim2SF x with
  | S754_finite false m e =>
      if 0 <=? e then Some (Z.to_nat (Z.pos m * 2 ^ e))
      else
        let q := Z.shiftr (Z.pos m) (- e) in
        if Z.pos m =? Z.shiftl q (- e) then Some (Z.to_nat q)
        else Some (Z.to_nat (q + 1))
  | S754_infinity false => None
  | _ => Some O
  end.
End Float64.

#[export] Instance float_JSNumber : JSNumber float := {
  ofZ := Float64.ofZ;
  add := PrimFloat.add;
  sub := PrimFloat.sub;
  mul := PrimFloat.mul;
  div := PrimFloat.div;
  rem := Float64.rem;
  ltb := PrimFloat.ltb;
  eqb := PrimFloat.eqb;
  Math_sqrt := PrimFloat.sqrt;
  Math_floor := Float64.floor;
  Math_abs := PrimFloat.abs;
  Math_max := Float64.max;
  Math_min := Float64.min;
  toString := Float64.toString;
  countBelow := Float64.countBelow;
  }.


(* ================================================================== *)
(** * The exact instance *)
(* ================================================================== *)

(** At [R] the operations are the exact ones: there is no rounding, no
    underflow, no overflow and no NaN.  The partial operations are total as
    in the Reals library ([x / 0 = 0], [sqrt x = 0] for [x < 0]), where
    JavaScript yields NaN or an infinity.  This instance serves where the
    source stays away from those arguments and rounding does not decide the
    outcome: for ranges and thresholds of sums, means, clamps and products
    of data in their nominal ranges.  Where rounding or underflow decides,
    as in the zero test and the quotient of [calculateCorrelation] and so in
    [analyzeHarmony], nothing is stated at [R] alone: those cases are
    settled at [float]. *)
Module Real.
Import Digits.
Local Open Scope string_scope.
Local Open Scope R_scope.

Definition ltb (x y : R) : bool := if Rlt_dec x y then true else false.

Definition eqb (x y : R) : bool := if Req_dec_T x y then true else false.

Definition floor (x : R) : R := IZR (Int_part x).

(** Rounding towards zero, as the quotient of [%] does. *)
Definition trunc (x : R) : R :=
  if Rle_dec 0 x then floor x else - floor (- x).

Definition rem (x y : R) : R := x - y * trunc (x / y).

(** Number::toString.  An integer below [10^21] is written with all its
    digits.  Any other number is written with a fraction or an exponent;
    a real has no finite expansion in general, so only the sign, the
    integer part and the decimal point are written here. *)
Definition toString (x : R) : string :=
  let z := Int_part (Rabs x) in
  let sign := if Rlt_dec x 0 then "-" else "" in
  if eqb (Rabs x) (IZR z) && (z <? 10 ^ 21)%Z
  then sign ++ decimal z
  else sign ++ decimal z ++ ".".

(** The rounds of [for (let i = 0; i < x; i++)]: the least natural number
    that is at least [x]. *)
Definition countBelow (x : R) : option nat :=
  Some (Z.to_nat (- Int_part (- x))).
End Real.

#[export] Instance R_JSNumber : JSNumber R := {
  ofZ := IZR;
  add := Rplus;
  sub := Rminus;
  mul := Rmult;
  div := Rdiv;
  rem := Real.rem;
  ltb := Real.ltb;
  eqb := Real.eqb;
  Math_sqrt := sqrt;
  Math_floor := Real.floor;
  Math_abs := Rabs;
  Math_max := Rmax;
  Math_min := Rmin;
  toString := Real.toString;
  countBelow := Real.countBelow;
  }.


(* ================================================================== *)
(** * Sample frames *)
(* ================================================================== *)

(** The uniform frame of Scenario B: 128 samples, all [1.0]. *)
Definition uniformFrame : list float := repeat 1%float 128.

(** The brain after [n] ticks on the uniform frame. *)
Definition uniformBrain (n : nat) : MusicBrain float :=
  runAudio newMusicBrain (repeat uniformFrame n).

(** An undersized frame: 50 samples, all [1.0]. *)
Definition shortFrame : list float := repeat 1%float 50.

(** A colour with a fractional lightness, [hsl(180, 120%, 88.5%)]. *)
Definition fractionalColor : Color float := hsl 180%float 120%float 88.5%float.

(** The features and the context of the first tick on the uniform frame. *)
Definition uniformFeatures : AudioFeatures float :=
  fst (fst (analyzeAudio newMusicBrain uniformFrame)).

Definition uniformContext : MusicContext float :=
  snd (fst (analyzeAudio newMusicBrain uniformFrame)).

(** A quiet frame: 128 samples, all [0.25], and the features and the context
    of the first tick on it. *)
Definition quietFrame : list float := repeat 0.25%float 128.

Definition quietFeatures : AudioFeatures float :=
  fst (fst (analyzeAudio newMusicBrain quietFrame)).

Definition quietContext : MusicContext float :=
  snd (fst (analyzeAudio newMusicBrain quietFrame)).

(** A pinned random source: every call of [Math.random] returns 0.25. *)
Definition pinnedRandom : nat -> float := fun _ => 0.25%float.

(** Features and a context over the reals: full energy, a dense spectrum. *)
Definition denseFeatures : AudioFeatures R :=
  mkFeatures 1%R 1%R 1%R 1%R 1%R 0%R 0%R 1%R 120%R joyful.

Definition denseContext : MusicContext R :=
  mkContext false false 1%R (1 / 3)%R electronic.

(** A frame of 16-sample segments that rise and fall in turn. *)
Definition alternatingFrame : list float :=
  concat (repeat ((repeat 0%float 8 ++ repeat 1%float 8)
                ++ (repeat 1%float 8 ++ repeat 0%float 8)) 4).

(** A faint frame: eight segments of one sample [1.7e-81] and 15 zeros. *)
Definition faintFrame : list float :=
  concat (repeat (1.7e-81%float :: repeat 0%float 15) 8).

(** ** Silence in binary64 *)

(** The frame the analyser delivers when nothing plays. *)
Definition silentFrame : list float := repeat 0%float 128.

(** What [analyzeAudio] answers on the silent frame after [n] earlier
    silent frames, and the brain after [n] silent frames. *)
Definition silentFeatures (n : nat) : AudioFeatures float :=
  mkFeatures 0%float 0%float 0%float 0%float 0%float 0%float 0%float 0%float
             (if (n <? 8)%nat then 120%float else 60%float) mysterious.

Definition silentContext : MusicContext float :=
  mkContext false false 0%float 0%float acoustic.

Definition silentBrain (n : nat) : MusicBrain float :=
  mkBrain (match n with
           | O => None
           | S k => Some (silentFeatures k)
           end)
          (repeat 0%float (Nat.min n 20)) (repeat 0%float (Nat.min n 20)) n.

(** ** Nominal frames over the reals *)

Definition inUnit (v : R) : Prop := (0 <= v <= 1)%R.

(** A frame of 128 samples in [[0, 1]]. *)
Definition nominalFrame (frame : list R) : Prop :=
  length frame = 128%nat /\ Forall inUnit frame.

Definition halfFrame : list R := repeat (1 / 2)%R 128.

(** A frame for the neural mode: one lit sample, then silence. *)
Definition spikeData : list R := (5 / 10)%R :: repeat 0%R 127.

(** ** Frames, colours and ticks over the reals *)

(** A frame of 128 equal samples. *)
Definition constantFrame (c : R) : list R := repeat c 128.

(** The ranges CSS gives the channels of [hsl()]. *)
Definition legalColor (c : Color R) : Prop :=
  (0 <= hue c < 360)%R /\ (0 <= sat c <= 100)%R /\ (0 <= light c <= 100)%R.

(** A palette of one grey. *)
Definition greyPalette : ColorPalette R :=
  let grey := hsl 0%R 0%R 50%R in
  mkPalette grey grey grey grey grey [grey].

(** The largest amplitude a mode can reach at intensity 1: the product of
    the factors of its formula, each sine and cosine taken as 1. *)
Definition modePeak (mode : Mode) : R :=
  match mode with
  | sacred => 105 / 100
  | cosmic => 7 / 10
  | flow => 5 / 10
  | pulse => 104 / 100
  | trippy => 11 / 10
  | ocean => 6 / 10
  | neural => 12 / 10
  | galaxy => 1
  end.

(** Draws as [Math.random] makes them: in [[0, 1)]. *)
Definition unitDraws (tick : Tick R) : Prop :=
  forall i, (0 <= frameRandom tick i < 1)%R.

(** A tick at time 0 whose draws are all 0. *)
Definition stillTick : Tick R := mkTick 0%R (fun _ => 0%R) (fun _ => 0%R).

(* ================================================================== *)
(** * Evaluation in binary64 *)
(* ================================================================== *)

(** A closed statement about binary64 values is settled by running the
    code. *)
Ltac by_evaluation := repeat split; vm_compute; reflexivity.

(** Case analysis on the comparisons, minima and maxima of a goal over the
    reals. *)
Ltac real_cases :=
  unfold Rmin, Rmax in *;
  repeat match goal with
         | |- context [Rle_dec ?a ?b] => destruct (Rle_dec a b)
         end;
  unfold Real.ltb, Real.eqb in *;
  repeat match goal with
         | |- context [Rlt_dec ?a ?b] => destruct (Rlt_dec a b)
         | |- context [Req_dec_T ?a ?b] => destruct (Req_dec_T a b)
         end;
  cbn [andb orb negb]; try reflexivity; try lra.


(** The decimal literals of the source are the doubles that a JavaScript
    parser produces for them. *)
Lemma lit_binary64 :
  lit 12 10 = 1.2%float /\ lit 8 10 = 0.8%float /\ lit 6 10 = 0.6%float
  /\ lit 5 10 = 0.5%float /\ lit 3 10 = 0.3%float /\ lit 7 10 = 0.7%float
  /\ lit 4 10 = 0.4%float /\ lit 2 10 = 0.2%float /\ lit 1 10 = 0.1%float
  /\ lit 9 10 = 0.9%float /\ lit 11 10 = 1.1%float /\ lit 13 10 = 1.3%float
  /\ lit 15 10 = 1.5%float /\ lit 1 100 = 0.01%float.
Proof. by_evaluation. Qed.

(** Number::toString on doubles, at values with known renderings. *)
Lemma toString_binary64 :
  toString (0.1 + 0.2)%float = "0.30000000000000004"%string
  /\ toString (1 / 3)%float = "0.3333333333333333"%string
  /\ toString 1e21%float = "1e+21"%string
  /\ toString 1e-7%float = "1e-7"%string
  /\ toString 0.000001%float = "0.000001"%string
  /\ toString 5e-324%float = "5e-324"%string
  /\ toString 1152921504606846976%float = "1152921504606847000"%string
  /\ toString (-1.5)%float = "-1.5"%string
  /\ toString (0 / 0)%float = "NaN"%string
  /\ toString (-0)%float = "0"%string
  /\ toString (1 / 0)%float = "Infinity"%string.
Proof. by_evaluation. Qed.

(* ================================================================== *)
(** * Arrays: lengths of slices and of bounded histories *)
(* ================================================================== *)

Section ArrayFacts.
Context {A : Type}.
Implicit Types (arr : list A) (x : A).

Lemma slice_index_nonneg n k :
  (0 <= k)%Z -> slice_index n k = Nat.min (Z.to_nat k) n.
Proof.
  intros Hk. unfold slice_index.
  destruct (Z.ltb_spec k 0); [lia | reflexivity].
Qed.

Lemma slice_index_neg n k :
  (k < 0)%Z -> slice_index n k = (n - Z.to_nat (- k))%nat.
Proof.
  intros Hk. unfold slice_index.
  destruct (Z.ltb_spec k 0); lia.
Qed.

(** [slice(a, b)] with [0 <= a <= b] is the part from [a] up to [b]. *)
Lemma slice_nonneg (a b : nat) arr :
  (a <= b)%nat ->
  slice (Z.of_nat a) (Z.of_nat b) arr = firstn (b - a) (skipn a arr).
Proof.
  intros Hab. unfold slice.
  rewrite !slice_index_nonneg, !Nat2Z.id by lia.
  destruct (Nat.le_gt_cases (length arr) a) as [Hle | Hgt].
  - rewrite !Nat.min_r by lia.
    rewrite !skipn_all2 by lia. now rewrite !firstn_nil.
  - rewrite (Nat.min_l a) by lia.
    destruct (Nat.le_gt_cases b (length arr)).
    + now rewrite Nat.min_l by lia.
    + rewrite Nat.min_r by lia.
      rewrite !firstn_all2; try reflexivity; rewrite length_skipn; lia.
Qed.

Lemma length_slice (a b : nat) arr :
  (a <= b)%nat -> (b <= length arr)%nat ->
  length (slice (Z.of_nat a) (Z.of_nat b) arr) = (b - a)%nat.
Proof.
  intros Hab Hb. rewrite slice_nonneg by assumption.
  rewrite length_firstn, length_skipn. lia.
Qed.

(** [slice(-n)] keeps the last [n] entries. *)
Lemma slice_from_last (n : nat) arr :
  (0 < n)%nat ->
  slice_from (- Z.of_nat n) arr = skipn (length arr - n) arr.
Proof.
  intros Hn. unfold slice_from.
  rewrite slice_index_neg by lia. f_equal. lia.
Qed.

Lemma length_slice_from_last (n : nat) arr :
  (0 < n)%nat -> (n <= length arr)%nat ->
  length (slice_from (- Z.of_nat n) arr) = n.
Proof.
  intros Hn Hle. rewrite slice_from_last by assumption.
  rewrite length_skipn. lia.
Qed.

(** [slice(a)] of an array of at most [a] entries is empty. *)
Lemma slice_from_short (a : nat) arr :
  (length arr <= a)%nat -> slice_from (Z.of_nat a) arr = [].
Proof.
  intros Hle. unfold slice_from.
  rewrite slice_index_nonneg, Nat2Z.id by lia.
  apply skipn_all2. lia.
Qed.

Lemma length_pushCapped cap arr x :
  (length arr <= cap)%nat -> (length (pushCapped cap arr x) <= cap)%nat.
Proof.
  intros Hle. unfold pushCapped, push, shift.
  destruct (Nat.ltb_spec cap (length (arr ++ [x]))) as [Hlt | Hge].
  - rewrite length_app in Hlt. simpl in Hlt.
    destruct arr; simpl in *; [lia |]. rewrite length_app. simpl. lia.
  - assumption.
Qed.

(** First in, first out: below the cap nothing is dropped; at the cap the
    oldest entry goes and the order of the others is kept. *)
Lemma pushCapped_fifo cap arr x :
  (0 < cap)%nat -> (length arr <= cap)%nat ->
  pushCapped cap arr x =
    if (length arr <? cap)%nat then arr ++ [x] else tl arr ++ [x].
Proof.
  intros Hcap Hle. unfold pushCapped, push, shift.
  rewrite length_app. simpl.
  destruct (Nat.ltb_spec cap (length arr + 1)),
           (Nat.ltb_spec (length arr) cap); try lia; try reflexivity.
  destruct arr; simpl in *; [lia | reflexivity].
Qed.

Lemma length_pushCapped_exact cap arr x :
  (0 < cap)%nat -> (length arr <= cap)%nat ->
  length (pushCapped cap arr x) = Nat.min (length arr + 1) cap.
Proof.
  intros Hcap Hle. rewrite pushCapped_fifo by assumption.
  destruct (Nat.ltb_spec (length arr) cap).
  - rewrite length_app. cbn [length]. lia.
  - destruct arr as [| y arr]; cbn [length tl] in *; [lia |].
    rewrite length_app. cbn [length]. lia.
Qed.
End ArrayFacts.

(* ================================================================== *)
(** * History buffers *)
(* ================================================================== *)

Section Histories.
Context {num : Type} `{JSNumber num}.

Lemma runAudio_snoc (b : MusicBrain num) frames frame :
  runAudio b (frames ++ [frame]) = snd (analyzeAudio (runAudio b frames) frame).
Proof. unfold runAudio. now rewrite fold_left_app. Qed.

Lemma beatHistory_analyzeAudio (b : MusicBrain num) frame :
  beatHistory (snd (analyzeAudio b frame)) =
    pushCapped 20 (beatHistory b) (rhythm (fst (fst (analyzeAudio b frame)))).
Proof. reflexivity. Qed.

Lemma energyHistory_analyzeAudio (b : MusicBrain num) frame :
  energyHistory (snd (analyzeAudio b frame)) =
    pushCapped 20 (energyHistory b) (energy (fst (fst (analyzeAudio b frame)))).
Proof. reflexivity. Qed.

Lemma histories_bounded frames :
  (length (beatHistory (runAudio (newMusicBrain (num:=num)) frames)) <= 20)%nat
  /\ (length (energyHistory (runAudio (newMusicBrain (num:=num)) frames)) <= 20)%nat.
Proof.
  induction frames as [| frame frames IH] using rev_ind.
  - simpl. lia.
  - rewrite runAudio_snoc, beatHistory_analyzeAudio, energyHistory_analyzeAudio.
    destruct IH. split; now apply length_pushCapped.
Qed.

(** After [n] ticks the beat history holds [min n 20] entries. *)
Lemma length_beatHistory_run frames :
  length (beatHistory (runAudio (newMusicBrain (num:=num)) frames)) =
    Nat.min (length frames) 20.
Proof.
  induction frames as [| frame frames IH] using rev_ind.
  - reflexivity.
  - rewrite runAudio_snoc, beatHistory_analyzeAudio.
    rewrite length_pushCapped_exact by (try apply histories_bounded; lia).
    rewrite IH, length_app. simpl. lia.
Qed.

Lemma colorHistory_generatePalette random (cb : ColorBrain num) f c p cb' :
  generatePalette random cb f c = Some (p, cb') ->
  colorHistory cb' = pushCapped 10 (colorHistory cb) p.
Proof.
  unfold generatePalette.
  destruct (createBasePalette random f c (analyzeMood f c)); [| discriminate].
  intros [= <- <-]. reflexivity.
Qed.

Lemma runPalettes_snoc (cb : ColorBrain num) ticks random f c :
  runPalettes cb (ticks ++ [(random, f, c)]) =
    match runPalettes cb ticks with
    | None => None
    | Some this => option_map snd (generatePalette random this f c)
    end.
Proof. unfold runPalettes. now rewrite fold_left_app. Qed.

Lemma colorHistory_bounded ticks :
  match runPalettes (newColorBrain (num:=num)) ticks with
  | Some cb => (length (colorHistory cb) <= 10)%nat
  | None => True
  end.
Proof.
  induction ticks as [| [[random f] c] ticks IH] using rev_ind.
  - simpl. lia.
  - rewrite runPalettes_snoc.
    destruct (runPalettes newColorBrain ticks) as [cb |]; [| exact I].
    destruct (generatePalette random cb f c) as [[p cb'] |] eqn:E; [| exact I].
    simpl. rewrite (colorHistory_generatePalette _ _ _ _ E).
    now apply length_pushCapped.
Qed.
End Histories.

(** C8.  From the empty initial state, after any run of calls of
    [analyzeAudio] the beat history and the energy history hold at most 20
    entries, and after any run of calls of [generatePalette] the palette
    history holds at most 10.  Each call appends its new value at the end and,
    when the buffer was full, drops the oldest entry: first in, first out.
    This holds for every arithmetic. *)
Theorem history_buffers_bounded_fifo :
  forall (num : Type) (N : JSNumber num),
    (forall (frames : list (list num)) (frame : list num),
        let b := runAudio newMusicBrain frames in
        let r := analyzeAudio b frame in
        (length (beatHistory b) <= 20)%nat
        /\ (length (energyHistory b) <= 20)%nat
        /\ beatHistory (snd r) =
             (if (length (beatHistory b) <? 20)%nat
              then beatHistory b ++ [rhythm (fst (fst r))]
              else tl (beatHistory b) ++ [rhythm (fst (fst r))])
        /\ energyHistory (snd r) =
             (if (length (energyHistory b) <? 20)%nat
              then energyHistory b ++ [energy (fst (fst r))]
              else tl (energyHistory b) ++ [energy (fst (fst r))]))
    /\ (forall (ticks : list (PaletteTick (num:=num))) random features context,
          match runPalettes newColorBrain ticks with
          | None => True
          | Some cb =>
              (length (colorHistory cb) <= 10)%nat
              /\ match generatePalette random cb features context with
                 | None => True
                 | Some (palette, cb') =>
                     colorHistory cb' =
                       (if (length (colorHistory cb) <? 10)%nat
                        then colorHistory cb ++ [palette]
                        else tl (colorHistory cb) ++ [palette])
                 end
          end).
Proof.
  intros num N. split.
  - intros frames frame b r.
    destruct (histories_bounded frames) as [Hb He]. fold b in Hb, He.
    repeat split; try assumption.
    + subst r. rewrite beatHistory_analyzeAudio.
      apply pushCapped_fifo; [lia | assumption].
    + subst r. rewrite energyHistory_analyzeAudio.
      apply pushCapped_fifo; [lia | assumption].
  - intros ticks random features context.
    pose proof (colorHistory_bounded ticks) as Hc.
    destruct (runPalettes newColorBrain ticks) as [cb |]; [| exact I].
    split; [assumption |].
    destruct (generatePalette random cb features context) as [[p cb'] |] eqn:E;
      [| exact I].
    rewrite (colorHistory_generatePalette _ _ _ _ E).
    apply pushCapped_fifo; [lia | assumption].
Qed.


(* ================================================================== *)
(** * The rhythm multiplier *)
(* ================================================================== *)

Section Rhythm.
Context {num : Type} `{JSNumber num}.

Lemma calculateConsistency_consistency (v : list num) :
  (2 <= length v)%nat -> calculateConsistency v = consistency v.
Proof.
  intros Hv. unfold calculateConsistency.
  destruct (Nat.ltb_spec (length v) 2); [lia | reflexivity].
Qed.

Lemma analyzeRhythm_rule (this : MusicBrain num) (bass mid : num) :
  analyzeRhythm this bass mid = rhythmRule 5 (beatHistory this) bass mid.
Proof.
  unfold analyzeRhythm, rhythmRule.
  destruct (Nat.ltb_spec 4 (length (beatHistory this))) as [Hlt | Hge];
    destruct (Nat.leb_spec 5 (length (beatHistory this))); try lia;
    [| reflexivity].
  change (-4)%Z with (- Z.of_nat 4)%Z.
  rewrite calculateConsistency_consistency
    by (rewrite length_slice_from_last; lia).
  rewrite slice_from_last by lia. reflexivity.
Qed.
End Rhythm.

(** C7, as the code has it.  [rhythm] is [max(bass * 1.2, mid * 0.8)],
    multiplied by [1 + consistency(last 4) * 0.5] exactly when the beat
    history holds more than 4 entries, that is at least 5, where
    [consistency(v) = max(0, 1 - sqrt(variance(v)))].  The history grows by
    one entry per call, so from a new brain the multiplier is applied from the
    sixth call on and on no earlier call.  This holds for every arithmetic. *)
Theorem rhythm_multiplied_from_five_entries :
  forall (num : Type) (N : JSNumber num),
    (forall (this : MusicBrain num) (bass mid : num),
        analyzeRhythm this bass mid =
          let strength := Math_max (mul bass (lit 12 10)) (mul mid (lit 8 10)) in
          if (5 <=? length (beatHistory this))%nat
          then mul strength
                   (add (ofZ 1)
                        (mul (Math_max (ofZ 0)
                                (sub (ofZ 1)
                                   (Math_sqrt
                                      (variance (lastN 4 (beatHistory this))))))
                             (lit 5 10)))
          else strength)
    /\ (forall (frames : list (list num)) (frame : list num),
          rhythm (fst (fst (analyzeAudio (runAudio newMusicBrain frames) frame))) =
            rhythmRule 5 (beatHistory (runAudio newMusicBrain frames))
                       (extractBass frame) (extractMid frame)
          /\ ((5 <=? length (beatHistory (runAudio (newMusicBrain (num:=num)) frames)))%nat
              = (5 <=? length frames)%nat)).
Proof.
  intros num N. split.
  - intros this bass mid. apply analyzeRhythm_rule.
  - intros frames frame. split.
    + unfold analyzeAudio. cbn [fst snd rhythm].
      rewrite analyzeRhythm_rule. reflexivity.
    + rewrite length_beatHistory_run.
      destruct (Nat.leb_spec 5 (Nat.min (length frames) 20)),
               (Nat.leb_spec 5 (length frames)); lia || reflexivity.
Qed.

(** C7, the claim as stated fails.  After four ticks on the uniform frame the
    beat history holds exactly 4 entries, all [1.2].  On the fifth tick the
    code returns the bare strength [1.2]; with the multiplier applied at 4
    entries the rhythm would be [1.2 * 1.5]. *)
Lemma rhythm_not_multiplied_at_four_entries :
  beatHistory (uniformBrain 4) = [1.2; 1.2; 1.2; 1.2]%float
  /\ rhythm (fst (fst (analyzeAudio (uniformBrain 4) uniformFrame))) = 1.2%float
  /\ rhythmRule 4 (beatHistory (uniformBrain 4))
                (extractBass uniformFrame) (extractMid uniformFrame)
     = (1.2 * 1.5)%float
  /\ rhythm (fst (fst (analyzeAudio (uniformBrain 4) uniformFrame)))
     <> rhythmRule 4 (beatHistory (uniformBrain 4))
                   (extractBass uniformFrame) (extractMid uniformFrame).
Proof.
  repeat split; try (vm_compute; reflexivity).
  intros E. apply (f_equal (fun v => PrimFloat.eqb v 1.2)) in E.
  vm_compute in E. discriminate E.
Qed.

(* ================================================================== *)
(** * Connections of the neural mode *)
(* ================================================================== *)

Section Connections.
Context {num : Type} `{JSNumber num}.

Lemma ends_connectionStroke palette i j (a b : Node num) :
  ends (connectionStroke palette i j a b) = (i, j).
Proof. reflexivity. Qed.

(** The strokes of the inner loop for a fixed [i]. *)
Lemma in_inner_loop palette (nodes : list (Node num)) i js st :
  In st (flat_map
           (fun j =>
              match nth_error nodes i, nth_error nodes j with
              | Some a, Some b =>
                  if connected a b then [connectionStroke palette i j a b]
                  else []
              | _, _ => []
              end) js)
  <-> exists j a b,
        In j js /\ nth_error nodes i = Some a /\ nth_error nodes j = Some b
        /\ connected a b = true /\ st = connectionStroke palette i j a b.
Proof.
  rewrite in_flat_map. split.
  - intros (j & Hj & Hin).
    destruct (nth_error nodes i) as [a |] eqn:Ea; [| contradiction].
    destruct (nth_error nodes j) as [b |] eqn:Eb; [| contradiction].
    destruct (connected a b) eqn:Ec; [| contradiction].
    destruct Hin as [<- | []]. exists j, a, b. now repeat split.
  - intros (j & a & b & Hj & Ea & Eb & Ec & ->).
    exists j. split; [assumption |]. rewrite Ea, Eb, Ec. now left.
Qed.

Lemma in_drawConnections palette (nodes : list (Node num)) st :
  In st (drawConnections palette nodes)
  <-> exists i j a b,
        (i < j)%nat /\ nth_error nodes i = Some a /\ nth_error nodes j = Some b
        /\ connected a b = true /\ st = connectionStroke palette i j a b.
Proof.
  unfold drawConnections. rewrite in_flat_map. split.
  - intros (i & Hi & Hin). apply in_inner_loop in Hin.
    destruct Hin as (j & a & b & Hj & Ea & Eb & Ec & ->).
    apply in_seq in Hj. exists i, j, a, b. repeat split; try assumption. lia.
  - intros (i & j & a & b & Hij & Ea & Eb & Ec & ->).
    assert (j < length nodes)%nat
      by (apply nth_error_Some; rewrite Eb; discriminate).
    exists i. split; [apply in_seq; lia |].
    apply in_inner_loop. exists j, a, b. repeat split; try assumption.
    apply in_seq. lia.
Qed.
End Connections.

(** C9, as the code has it.  For two nodes [i < j] a connecting stroke is
    emitted exactly when their distance is below 150 and the intensity of at
    least one of the two endpoints exceeds 0.3.  This holds for every
    arithmetic and every palette. *)
Theorem neural_connection_iff_either_endpoint :
  forall (num : Type) (N : JSNumber num)
         (palette : option (ColorPalette num)) (nodes : list (Node num))
         (i j : nat),
    (exists st, In st (drawConnections palette nodes) /\ ends st = (i, j))
    <-> (i < j)%nat
        /\ exists a b,
             nth_error nodes i = Some a /\ nth_error nodes j = Some b
             /\ ltb (distance a b) (ofZ 150) = true
             /\ (ltb (lit 3 10) (intensity a) = true
                 \/ ltb (lit 3 10) (intensity b) = true).
Proof.
  intros num N palette nodes i j. split.
  - intros (st & Hin & Hends). apply in_drawConnections in Hin.
    destruct Hin as (i' & j' & a & b & Hij & Ea & Eb & Ec & ->).
    rewrite ends_connectionStroke in Hends. injection Hends as -> ->.
    split; [assumption |]. exists a, b.
    unfold connected in Ec. apply andb_true_iff in Ec. destruct Ec as [Hd Hi].
    apply orb_true_iff in Hi. now repeat split.
  - intros (Hij & a & b & Ea & Eb & Hd & Hi).
    exists (connectionStroke palette i j a b). split; [| reflexivity].
    apply in_drawConnections. exists i, j, a, b.
    repeat split; try assumption.
    unfold connected. rewrite Hd. apply orb_true_iff in Hi. now rewrite Hi.
Qed.

(** ** A stroke with one dim endpoint *)

Section RealTests.
Local Open Scope R_scope.

Lemma Rltb_true (x y : R) : Real.ltb x y = true <-> x < y.
Proof.
  unfold Real.ltb. destruct (Rlt_dec x y); split; intros; auto; discriminate.
Qed.

Lemma Reqb_true (x y : R) : Real.eqb x y = true <-> x = y.
Proof.
  unfold Real.eqb. destruct (Req_dec_T x y); split; intros; auto; discriminate.
Qed.

Lemma Reqb_false (x y : R) : Real.eqb x y = false <-> x <> y.
Proof.
  unfold Real.eqb.
  destruct (Req_dec_T x y); split; intros; auto; try discriminate;
    contradiction.
Qed.

Lemma cos_PI10_half : 1 / 2 <= cos (PI / 10).
Proof.
  rewrite <- cos_PI3. pose proof PI_RGT_0.
  apply cos_decr_1; lra.
Qed.
End RealTests.

(** C9, the claim as stated fails.  With the canvas centre at the origin, at
    time 0 and on [spikeData], node 0 has intensity 0.5 and node 1 has
    intensity 0, which does not exceed 0.3; the two are less than 150 apart,
    and the stroke between them is drawn. *)
Lemma neural_connection_one_dim_endpoint :
  exists a b,
    nth_error (createNodes sin cos PI 0%R 0%R spikeData 0%R) 0 = Some a
    /\ nth_error (createNodes sin cos PI 0%R 0%R spikeData 0%R) 1 = Some b
    /\ intensity a = (5 / 10)%R
    /\ intensity b = 0%R
    /\ In (connectionStroke None 0 1 a b)
          (drawNeuralConnections sin cos PI 0%R 0%R spikeData 0%R None).
Proof.
  eexists. eexists.
  split; [reflexivity |]. split; [reflexivity |].
  assert (Ha : orZero (num:=R)
                 (nth_error spikeData (0 * (length spikeData / nodeCount)))
               = (5 / 10)%R).
  { cbn. rewrite (proj2 (Reqb_false (5 / 10) 0)) by lra.
    now rewrite (proj2 (Reqb_true (5 / 10) (5 / 10))). }
  assert (Hb : orZero (num:=R)
                 (nth_error spikeData (1 * (length spikeData / nodeCount)))
               = 0%R).
  { cbn. now rewrite (proj2 (Reqb_true 0 0)). }
  cbn [intensity].
  split; [exact Ha |]. split; [exact Hb |].
  unfold drawNeuralConnections. apply in_drawConnections.
  exists 0%nat, 1%nat. eexists. eexists.
  split; [lia |]. split; [reflexivity |]. split; [reflexivity |].
  split; [| reflexivity].
  unfold connected. cbn [intensity]. rewrite Ha, Hb.
  apply andb_true_iff. split.
  2:{ apply orb_true_iff. left. apply Rltb_true. unfold lit. cbn. lra. }
  apply Rltb_true. unfold distance, Math_pow2. cbn [x y].
  cbn [ofZ add sub mul div Math_sqrt R_JSNumber Z.of_nat nodeCount
       Pos.of_succ_nat Pos.succ].
  replace (0 / 20 * PI * 2)%R with 0%R by field.
  replace (1 / 20 * PI * 2)%R with (PI / 10)%R by field.
  replace (0 + 0)%R with 0%R by ring. replace (0 + 1)%R with 1%R by ring.
  rewrite cos_0, sin_0.
  set (r := (100 + sin 1 * 50)%R).
  set (c := cos (PI / 10)). set (s := sin (PI / 10)).
  replace 150%R with (sqrt (150 * 150)) by (apply sqrt_square; lra).
  pose proof (SIN_bound 1) as Hs.
  pose proof cos_PI10_half as Hc. fold c in Hc.
  pose proof (sin2_cos2 (PI / 10)) as Hsc. unfold Rsqr in Hsc. fold c s in Hsc.
  assert (Hr : (50 <= r <= 150)%R) by (unfold r; lra).
  apply sqrt_lt_1_alt.
  split; [apply Rplus_le_le_0_compat; apply Rle_0_sqr |].
  match goal with
  | |- (?X < _)%R =>
      replace X
        with (10000 - 200 * (c * r) + r * r * (s * s + c * c))%R by ring
  end.
  rewrite Hsc. nra.
Qed.

(* ================================================================== *)
(** * Scenario B *)
(* ================================================================== *)

(** C5.  On the first tick, with the uniform frame of 128 samples [1.0],
    [analyzeAudio] returns exactly [bass = mid = treble = 1], [rhythm = 1.2],
    [melody = 1.4], [harmony = 0], [dynamics = 0], [energy = 1],
    [tempo = 120] and [mood = joyful], and the genre hint is [electronic]:
    the first rule matches and wins, although the rules for [rock] and
    [voice] hold of these features too.  The numbers are the binary64 values
    JavaScript computes. *)
Theorem scenario_B_first_tick :
  let result := fst (analyzeAudio newMusicBrain uniformFrame) in
  let features := fst result in
  fst result = (mkFeatures 1 1 1 1.2 1.4 0 0 1 120 joyful)%float
  /\ genreHint (snd result) = electronic
  /\ (ltb (lit 7 10) (bass features) && ltb (lit 6 10) (energy features)) = true
  /\ (ltb (lit 6 10) (rhythm features) && ltb (lit 5 10) (bass features)) = true
  /\ (ltb (lit 6 10) (mid features) && ltb (lit 5 10) (melody features)) = true.
Proof. by_evaluation. Qed.

(* ================================================================== *)
(** * Undersized frames *)
(* ================================================================== *)

Lemma extractTreble_short (frame : list float) :
  (length frame <= 96)%nat -> extractTreble frame = nan.
Proof.
  intros Hlen. unfold extractTreble.
  change 96%Z with (Z.of_nat 96). now rewrite slice_from_short.
Qed.

(** C4, the claim as stated fails.  On a frame of 50 samples the slice
    [frame.slice(96)] is empty and [extractTreble] returns [0 / 0], which is
    NaN and not 0; the treble that [analyzeAudio] reports is that NaN.  *)
Lemma extractTreble_short_frame_is_nan :
  (length shortFrame <= 96)%nat
  /\ is_nan (extractTreble shortFrame) = true
  /\ eqb (extractTreble shortFrame) (ofZ 0) = false
  /\ is_nan (treble (fst (fst (analyzeAudio newMusicBrain shortFrame)))) = true
  /\ is_nan (melody (fst (fst (analyzeAudio newMusicBrain shortFrame)))) = true.
Proof. repeat split; vm_compute; try reflexivity. lia. Qed.

(** C4, as the code has it.  The band means are not guarded.  For every frame
    of at most 96 samples [extractTreble] returns NaN, and so does the
    [treble] feature of [analyzeAudio], whatever the state of the brain.  On
    the empty frame the other means ([bass], [mid], [dynamics], [energy]) are
    NaN as well.  The guarded statistic does yield 0 there: the correlation of
    two empty segments is 0, and so is [harmony].  *)
Theorem undersized_frame_treble_is_nan :
  forall (this : MusicBrain float) (frame : list float),
    (length frame <= 96)%nat ->
    is_nan (extractTreble frame) = true
    /\ is_nan (treble (fst (fst (analyzeAudio this frame)))) = true
    /\ (frame = [] ->
        let features := fst (fst (analyzeAudio this frame)) in
        is_nan (bass features) = true
        /\ is_nan (mid features) = true
        /\ is_nan (dynamics features) = true
        /\ is_nan (energy features) = true
        /\ harmony features = 0%float).
Proof.
  intros this frame Hlen.
  assert (Ht : treble (fst (fst (analyzeAudio this frame))) = extractTreble frame)
    by reflexivity.
  rewrite Ht, extractTreble_short by assumption.
  repeat split; try reflexivity.
  all: subst frame; vm_compute; reflexivity.
Qed.

Lemma undersized_frame_treble_is_nan_witness :
  (length shortFrame <= 96)%nat
  /\ is_nan (extractTreble shortFrame) = true
  /\ is_nan (treble (fst (fst (analyzeAudio newMusicBrain shortFrame)))) = true.
Proof.
  assert (Hlen : (length shortFrame <= 96)%nat) by (vm_compute; lia).
  split; [exact Hlen |].
  split; apply (@undersized_frame_treble_is_nan newMusicBrain shortFrame Hlen).
Defined.


(* ================================================================== *)
(** * What parseHSL accepts *)
(* ================================================================== *)

Section RegexFacts.
Import Regex.
Local Open Scope string_scope.

Lemma all_app p (a b : string) : all p (a ++ b) = all p a && all p b.
Proof.
  induction a as [| c a IH]; simpl; [reflexivity |].
  now rewrite IH, andb_assoc.
Qed.

(** [span] splits a string into a run of [p] and a rest that does not start
    with [p]. *)
Lemma span_spec p (s : string) :
  s = fst (span p s) ++ snd (span p s)
  /\ all p (fst (span p s)) = true
  /\ match snd (span p s) with
     | EmptyString => True
     | String c _ => p c = false
     end.
Proof.
  induction s as [| c s IH]; simpl; [auto |].
  destruct (p c) eqn:Ec.
  - destruct (span p s) as [a b]. simpl in *.
    destruct IH as (-> & Ha & Hb). rewrite Ec. auto.
  - simpl. auto.
Qed.

(** The run of [p] that starts [a ++ rest] when [a] is all [p] and [rest]
    does not start with [p]. *)
Lemma span_all p (a rest : string) :
  all p a = true ->
  match rest with EmptyString => True | String c _ => p c = false end ->
  span p (a ++ rest) = (a, rest).
Proof.
  intros Ha Hrest. induction a as [| c a IH]; simpl in *.
  - destruct rest as [| c r]; simpl; [reflexivity |]. now rewrite Hrest.
  - apply andb_true_iff in Ha. destruct Ha as [Hc Ha].
    now rewrite Hc, IH.
Qed.

(** The run stops inside [a] when [a] has a character outside [p]. *)
Lemma span_stops p (a rest : string) :
  all p a = false ->
  exists d c r,
    a = d ++ String c r /\ p c = false
    /\ span p (a ++ rest) = (d, String c (r ++ rest)).
Proof.
  induction a as [| c a IH]; simpl; [discriminate |].
  destruct (p c) eqn:Ec; simpl.
  - intros Ha. destruct (IH Ha) as (d & c' & r & -> & Hc' & Hspan).
    exists (String c d), c', r. now rewrite Hspan.
  - intros _. exists EmptyString, c, a. auto.
Qed.

Lemma isDigit_isNumberChar c : isDigit c = true -> isNumberChar c = true.
Proof. unfold isNumberChar. now intros ->. Qed.

(** No character of a number is a comma, a percent sign, white space or the
    letter [h]. *)
Lemma isNumberChar_plain c :
  isNumberChar c = true ->
  Ascii.eqb "," c = false /\ Ascii.eqb "%" c = false
  /\ isSpace c = false /\ Ascii.eqb "h" c = false.
Proof.
  destruct c as [[] [] [] [] [] [] [] []]; vm_compute; intros; try discriminate;
    auto.
Qed.

(** A match can only start at the letter [h]. *)
Lemma matchHere_h (s : string) :
  match s with
  | String c _ => Ascii.eqb "h" c = false -> matchHere s = None
  | EmptyString => matchHere s = None
  end.
Proof.
  destruct s as [| c s]; [reflexivity |].
  intros Hc. unfold matchHere. cbn [expect]. now rewrite Hc.
Qed.

Lemma search_no_h (s : string) :
  all notH s = true -> search s = None.
Proof.
  induction s as [| c s IH]; [reflexivity |].
  cbn [all]. intros H. apply andb_true_iff in H. destruct H as [Hc Hs].
  apply negb_true_iff in Hc.
  cbn [search]. rewrite (matchHere_h (String c s) Hc). auto.
Qed.

Lemma all_number_no_h (s : string) :
  all isNumberChar s = true ->
  all notH s = true.
Proof.
  induction s as [| c s IH]; cbn [all]; [reflexivity |].
  intros H. apply andb_true_iff in H. destruct H as [Hc Hs].
  unfold notH. destruct (isNumberChar_plain _ Hc) as (_ & _ & _ & ->).
  simpl. auto.
Qed.
End RegexFacts.


Section TemplateFacts.
Import Regex.
Local Open Scope string_scope.

Lemma expect_app (pre rest : string) : expect pre (pre ++ rest) = Some rest.
Proof.
  induction pre as [| c pre IH]; simpl; [now destruct rest |].
  now rewrite Ascii.eqb_refl.
Qed.

(** A number [a] followed by a separator that starts with a character no
    number contains: the group and the separator match exactly when [a] is
    a run of digits. *)
Lemma groupThen_number (a rest sep : string) (stop : ascii) :
  all isNumberChar a = true ->
  isNumberChar stop = false ->
  groupThen (String stop sep) (a ++ String stop sep ++ rest) =
    if digitString a then Some (a, rest) else None.
Proof.
  intros Ha Hstop.
  assert (Hstopd : isDigit stop = false).
  { destruct (isDigit stop) eqn:E; [| reflexivity].
    now rewrite (isDigit_isNumberChar _ E) in Hstop. }
  unfold groupThen, group.
  destruct (all isDigit a) eqn:Ed.
  - change (String stop sep ++ rest) with (String stop (sep ++ rest)).
    rewrite span_all by assumption.
    destruct a as [| c a]; [reflexivity |].
    change (String stop (sep ++ rest)) with (String stop sep ++ rest).
    rewrite expect_app. unfold digitString. now rewrite Ed.
  - destruct (span_stops isDigit a (String stop sep ++ rest) Ed)
      as (d & c & r & -> & Hc & ->).
    assert (Hnd : digitString (d ++ String c r) = false).
    { unfold digitString. destruct (d ++ String c r); [reflexivity | exact Ed]. }
    rewrite Hnd.
    destruct d as [| c' d]; [reflexivity |].
    rewrite all_app in Ha. apply andb_true_iff in Ha. destruct Ha as [_ Ha].
    cbn [all] in Ha. apply andb_true_iff in Ha. destruct Ha as [Hcn _].
    cbn [expect].
    destruct (Ascii.eqb_spec stop c) as [-> | _]; [congruence | reflexivity].
Qed.

(** White space in front of a number that is followed by [stop]. *)
Lemma spaces_number (a rest : string) (stop : ascii) :
  all isNumberChar a = true ->
  isSpace stop = false ->
  spaces (String " " (a ++ String stop rest)) = a ++ String stop rest.
Proof.
  intros Ha Hstop. unfold spaces.
  change (String " " (a ++ String stop rest))
    with (String " " EmptyString ++ (a ++ String stop rest)).
  rewrite span_all; [reflexivity | reflexivity |].
  destruct a as [| c a]; cbn [append]; [assumption |].
  cbn [all] in Ha. apply andb_true_iff in Ha.
  now apply isNumberChar_plain.
Qed.

Lemma matchHere_template (a b c : string) :
  all isNumberChar a = true -> all isNumberChar b = true ->
  all isNumberChar c = true ->
  matchHere (template a b c) =
    if digitString a && digitString b && digitString c
    then Some (a, b, c) else None.
Proof.
  intros Ha Hb Hc. unfold matchHere, template.
  rewrite expect_app.
  change (a ++ ", " ++ b ++ "%, " ++ c ++ "%)")
    with (a ++ String "," EmptyString ++ (String " " (b ++ "%, " ++ c ++ "%)"))).
  rewrite groupThen_number by (assumption || reflexivity).
  destruct (digitString a); [| reflexivity].
  change (b ++ "%, " ++ c ++ "%)")
    with (b ++ String "%" (String "," EmptyString ++ (String " " (c ++ "%)")))).
  rewrite spaces_number by (assumption || reflexivity).
  change (b ++ String "%" (String "," EmptyString ++ (String " " (c ++ "%)"))))
    with (b ++ String "%" (String "," EmptyString) ++ (String " " (c ++ "%)"))).
  rewrite groupThen_number by (assumption || reflexivity).
  destruct (digitString b); [| reflexivity].
  change (c ++ "%)") with (c ++ String "%" (String ")" EmptyString)).
  rewrite spaces_number by (assumption || reflexivity).
  change (c ++ String "%" (String ")" EmptyString))
    with (c ++ String "%" (String ")" EmptyString) ++ EmptyString).
  rewrite groupThen_number by (assumption || reflexivity).
  destruct (digitString c); reflexivity.
Qed.

Lemma search_template (a b c : string) :
  all isNumberChar a = true -> all isNumberChar b = true ->
  all isNumberChar c = true ->
  search (template a b c) =
    if digitString a && digitString b && digitString c
    then Some (a, b, c) else None.
Proof.
  intros Ha Hb Hc.
  pose proof (matchHere_template a b c Ha Hb Hc) as Hm.
  unfold template in *. cbn [append] in *.
  cbn [search]. rewrite Hm.
  destruct (digitString a && digitString b && digitString c);
    [reflexivity |].
  apply search_no_h.
  repeat (cbn [all]; rewrite ?all_app).
  rewrite !all_number_no_h by assumption. reflexivity.
Qed.
End TemplateFacts.

Section Soundness.
Import Regex.
Local Open Scope string_scope.

Lemma expect_sound (pre s rest : string) :
  expect pre s = Some rest -> s = pre ++ rest.
Proof.
  revert s. induction pre as [| c pre IH]; intros s; simpl.
  - now intros [= ->].
  - destruct s as [| c' s]; [discriminate |].
    destruct (Ascii.eqb_spec c c') as [<- | _]; [| discriminate].
    intros E. now rewrite (IH _ E).
Qed.

Lemma group_sound (s m rest : string) :
  group s = Some (m, rest) -> s = m ++ rest /\ digitString m = true.
Proof.
  unfold group. pose proof (span_spec isDigit s) as (Hs & Hd & _).
  destruct (span isDigit s) as [d r]. simpl in *.
  destruct d as [| c d]; [discriminate |].
  intros [= <- <-]. auto.
Qed.

Lemma groupThen_sound (sep s m rest : string) :
  groupThen sep s = Some (m, rest) ->
  s = m ++ sep ++ rest /\ digitString m = true.
Proof.
  unfold groupThen. destruct (group s) as [[m' r] |] eqn:Eg; [| discriminate].
  destruct (expect sep r) as [r' |] eqn:Ee; [| discriminate].
  intros [= <- <-]. apply group_sound in Eg. apply expect_sound in Ee.
  destruct Eg as [-> Hm]. now subst r.
Qed.

Lemma spaces_sound (s : string) :
  exists w, s = w ++ spaces s /\ all isSpace w = true.
Proof.
  unfold spaces. pose proof (span_spec isSpace s) as (Hs & Hw & _).
  eauto.
Qed.

Lemma matchHere_sound (s m1 m2 m3 : string) :
  matchHere s = Some (m1, m2, m3) -> holdsPattern s m1 m2 m3.
Proof.
  unfold matchHere.
  destruct (expect "hsl(" s) as [s1 |] eqn:E0; [| discriminate].
  destruct (groupThen "," s1) as [[n1 s2] |] eqn:E1; [| discriminate].
  destruct (groupThen "%," (spaces s2)) as [[n2 s3] |] eqn:E2;
    [| discriminate].
  destruct (groupThen "%)" (spaces s3)) as [[n3 s4] |] eqn:E3;
    [| discriminate].
  intros [= <- <- <-].
  apply expect_sound in E0. apply groupThen_sound in E1, E2, E3.
  destruct E1 as [E1 D1], E2 as [E2 D2], E3 as [E3 D3].
  destruct (spaces_sound s2) as (w1 & Hw1 & A1).
  destruct (spaces_sound s3) as (w2 & Hw2 & A2).
  exists EmptyString, w1, w2, s4. repeat split; try assumption.
  rewrite E0, E1, Hw1, E2, Hw2, E3. reflexivity.
Qed.

Lemma search_sound (s m1 m2 m3 : string) :
  search s = Some (m1, m2, m3) -> holdsPattern s m1 m2 m3.
Proof.
  induction s as [| c s IH]; cbn [search].
  - destruct (matchHere "") eqn:E; [| discriminate].
    intros [= ->]. now apply matchHere_sound.
  - destruct (matchHere (String c s)) eqn:E.
    + intros [= ->]. now apply matchHere_sound.
    + intros Hs. destruct (IH Hs)
        as (pre & w1 & w2 & post & -> & A1 & A2 & D1 & D2 & D3).
      exists (String c pre), w1, w2, post. now repeat split.
Qed.

Lemma hasPoint_not_digits (s : string) :
  hasPoint s = true -> digitString s = false.
Proof.
  unfold hasPoint, digitString. intros Hp.
  destruct s as [| c s]; [reflexivity |].
  apply negb_true_iff in Hp.
  destruct (all isDigit (String c s)) eqn:Ed; [| reflexivity].
  rewrite <- Hp. clear Hp. revert Ed.
  generalize (String c s) as t. intros t.
  induction t as [| c' t IH]; cbn [all]; [reflexivity |].
  intros Ed. apply andb_true_iff in Ed. destruct Ed as [Hc Ht].
  rewrite <- (IH Ht).
  destruct c' as [[] [] [] [] [] [] [] []]; try discriminate Hc; reflexivity.
Qed.
End Soundness.

Section ParseHSL.
Import Regex.
Context {num : Type} `{JSNumber num}.

Lemma parseHSL_css (c : Color num) :
  all isNumberChar (toString (hue c)) = true ->
  all isNumberChar (toString (sat c)) = true ->
  all isNumberChar (toString (light c)) = true ->
  parseHSL (css c) =
    if integral c
    then mkHSL (parseInt (toString (hue c))) (parseInt (toString (sat c)))
               (parseInt (toString (light c)))
    else mkHSL (ofZ 0) (ofZ 0) (ofZ 0).
Proof.
  intros Hh Hs Hl. unfold parseHSL, css.
  rewrite search_template by assumption. fold (integral c).
  now destruct (integral c).
Qed.
End ParseHSL.

(** C10.  Let a colour string come from the template, with its three numbers
    written in the characters of Number::toString.  [parseHSL] returns the
    three numbers exactly when each is written with digits only; otherwise,
    and so whenever a number has a decimal point, it returns
    [{h: 0, s: 0, l: 0}].  [intensifyPalette], [addWarmth],
    [adjustSaturation] and the [blend] of [smoothTransition] then compute
    from 0, 0, 0 and not from the numbers of the colour.  For any string at
    all, a parse other than the zero fallback requires that the string holds
    [hsl(<digits>,<spaces><digits>%,<spaces><digits>%)]. *)
Theorem parseHSL_reads_integer_colours_only :
  forall (num : Type) (N : JSNumber num) (c : Color num),
    Regex.all Regex.isNumberChar (toString (hue c)) = true ->
    Regex.all Regex.isNumberChar (toString (sat c)) = true ->
    Regex.all Regex.isNumberChar (toString (light c)) = true ->
    let zero := ofZ 0 in
    parseHSL (css c) =
      (if integral c
       then mkHSL (parseInt (toString (hue c))) (parseInt (toString (sat c)))
                  (parseInt (toString (light c)))
       else mkHSL zero zero zero)
    /\ (Regex.hasPoint (toString (hue c)) || Regex.hasPoint (toString (sat c))
        || Regex.hasPoint (toString (light c)) = true ->
        integral c = false)
    /\ (integral c = false ->
        (forall p factor,
            primary p = c ->
            primary (intensifyPalette p factor) =
              hsl zero (Math_min (ofZ 100) (mul zero factor))
                  (Math_min (ofZ 90) (mul zero factor)))
        /\ (forall p amount,
              primary p = c ->
              primary (addWarmth p amount) =
                hsl (shiftTowardsWarmth zero amount) zero zero)
        /\ (forall p intensity,
              primary p = c ->
              primary (adjustSaturation p intensity) =
                hsl zero
                    (Math_min (ofZ 100)
                       (mul zero (add (ofZ 1) (mul intensity (lit 5 10)))))
                    zero)
        /\ (forall speed c2,
              blend speed c c2 =
                hsl (interpolateHue zero (h (parseHSL (css c2))) speed)
                    (add zero (mul (sub (s (parseHSL (css c2))) zero) speed))
                    (add zero (mul (sub (l (parseHSL (css c2))) zero) speed)))
        /\ (forall speed c1,
              blend speed c1 c =
                hsl (interpolateHue (h (parseHSL (css c1))) zero speed)
                    (add (s (parseHSL (css c1)))
                         (mul (sub zero (s (parseHSL (css c1)))) speed))
                    (add (l (parseHSL (css c1)))
                         (mul (sub zero (l (parseHSL (css c1)))) speed))))
    /\ (forall str : string,
          match Regex.search str with
          | None => parseHSL str = mkHSL zero zero zero
          | Some (m1, m2, m3) =>
              Regex.holdsPattern str m1 m2 m3
              /\ parseHSL str = mkHSL (parseInt m1) (parseInt m2) (parseInt m3)
          end).
Proof.
  intros num N c Hh Hs Hl zero.
  pose proof (parseHSL_css c Hh Hs Hl) as Hparse.
  split; [exact Hparse |]. split; [| split].
  - unfold integral. intros Hp.
    apply orb_true_iff in Hp. destruct Hp as [Hp | Hp];
      [apply orb_true_iff in Hp; destruct Hp as [Hp | Hp] |];
      apply hasPoint_not_digits in Hp; rewrite Hp;
      now rewrite ?andb_false_r.
  - intros Hint. rewrite Hint in Hparse.
    repeat split.
    + intros p factor <-. unfold intensifyPalette. cbn [primary].
      now rewrite Hparse.
    + intros p amount <-. unfold addWarmth. cbn [primary].
      now rewrite Hparse.
    + intros p intensity <-. unfold adjustSaturation. cbn [primary].
      now rewrite Hparse.
    + intros speed c2. unfold blend. now rewrite Hparse.
    + intros speed c1. unfold blend. now rewrite Hparse.
  - intros str. unfold parseHSL.
    destruct (Regex.search str) as [[[m1 m2] m3] |] eqn:E; [| reflexivity].
    split; [now apply search_sound | reflexivity].
Qed.

Lemma parseHSL_reads_integer_colours_only_witness :
  Regex.all Regex.isNumberChar (toString (hue fractionalColor)) = true
  /\ Regex.all Regex.isNumberChar (toString (sat fractionalColor)) = true
  /\ Regex.all Regex.isNumberChar (toString (light fractionalColor)) = true
  /\ integral fractionalColor = false
  /\ parseHSL (num:=float) (css fractionalColor) =
       (if integral fractionalColor
        then mkHSL (parseInt (toString (hue fractionalColor)))
                   (parseInt (toString (sat fractionalColor)))
                   (parseInt (toString (light fractionalColor)))
        else mkHSL (ofZ 0) (ofZ 0) (ofZ 0)).
Proof.
  assert (Hh : Regex.all Regex.isNumberChar (toString (hue fractionalColor))
               = true) by (vm_compute; reflexivity).
  assert (Hs : Regex.all Regex.isNumberChar (toString (sat fractionalColor))
               = true) by (vm_compute; reflexivity).
  assert (Hl : Regex.all Regex.isNumberChar (toString (light fractionalColor))
               = true) by (vm_compute; reflexivity).
  split; [exact Hh |]. split; [exact Hs |]. split; [exact Hl |].
  split; [vm_compute; reflexivity |].
  exact (proj1 (@parseHSL_reads_integer_colours_only float float_JSNumber
                  fractionalColor Hh Hs Hl)).
Defined.

(* ================================================================== *)
(** * The number of particle colours *)
(* ================================================================== *)

Section ParticleCount.
Context {num : Type} `{JSNumber num}.

Lemma length_mapi_from {A B} (f : A -> nat -> B) (arr : list A) i :
  length (mapi_from i f arr) = length arr.
Proof.
  revert i. induction arr as [| x arr IH]; intros i; simpl; [reflexivity |].
  now rewrite IH.
Qed.




Lemma length_particles_smooth (this : ColorBrain num) (p : ColorPalette num) :
  length (particles (smoothTransition this p)) = length (particles p).
Proof.
  unfold smoothTransition.
  destruct (length (colorHistory this) =? 0)%nat; [reflexivity |].
  destruct (nth_error _ _); [| reflexivity].
  cbn [particles]. unfold mapi. apply length_mapi_from.
Qed.


End ParticleCount.

Section RealCounts.
Local Open Scope R_scope.

Lemma Int_part_IZR (z : Z) : Int_part (IZR z) = z.
Proof. symmetry. apply Int_part_spec. lra. Qed.


End RealCounts.




(* ================================================================== *)
(** * Channels out of range, and smoothing *)
(* ================================================================== *)

(** C2, the code at a failing input.  First tick on the uniform frame, random
    source pinned to 0.25.  The mood saturation is 100 and the brightness 80.
    [createBasePalette] scales them for the accent and the glow and does not
    clamp: the accent has saturation 120, the glow saturation 150 and
    lightness 104.  The particle colours have the fractional saturation 92.5,
    so [addComplexity] parses hue 0 for them and its hue
    [(0 + (0.25 - 0.5) * 60) % 360] is -15: the remainder keeps the sign.
    The colours of the particle loop itself are clamped, as are those of
    [intensifyPalette] and [adjustSaturation]. *)
Theorem palette_channels_out_of_range :
  exists palette cb,
    generatePalette pinnedRandom newColorBrain uniformFeatures uniformContext
      = Some (palette, cb)
    /\ accent palette = (hsl 180 120 88)%float
    /\ css (accent palette) = "hsl(180, 120%, 88%)"%string
    /\ glow palette = (hsl 228 150 104)%float
    /\ css (glow palette) = "hsl(228, 150%, 104%)"%string
    /\ nth_error (particles palette) 0 = Some (hsl 300 92.5 70)%float
    /\ nth_error (particles palette) 8 = Some (hsl (-15) 0 0)%float
    /\ ltb (ofZ 100) (sat (accent palette)) = true
    /\ ltb (ofZ 100) (sat (glow palette)) = true
    /\ ltb (ofZ 100) (light (glow palette)) = true
    /\ existsb (fun c => ltb (hue c) (ofZ 0)) (particles palette) = true.
Proof.
  eexists. eexists. split; [vm_compute; reflexivity |].
  repeat split; vm_compute; reflexivity.
Qed.

(** C3, the code at a failing input.  The same features and context, those
    of the quiet frame, on three ticks in a row, random source pinned to
    0.25.  The first palette is the unsmoothed one; its secondary colour is
    [hsl(150, 56%, 40.5%)].  On the second tick the unsmoothed palette is the
    same and equals the last palette of the history, yet [smoothTransition]
    does not return it: [parseHSL] reads neither of the two equal strings,
    and the blend is [hsl(0, 0%, 0%)].  The third palette equals the second:
    the sequence has reached a fixed point, and it is not the unsmoothed
    palette. *)
Theorem smoothing_loses_fractional_colours :
  exists raw cb1 second cb2 third cb3,
    generatePalette pinnedRandom newColorBrain quietFeatures quietContext
      = Some (raw, cb1)
    /\ generatePalette pinnedRandom cb1 quietFeatures quietContext
       = Some (second, cb2)
    /\ generatePalette pinnedRandom cb2 quietFeatures quietContext
       = Some (third, cb3)
    /\ colorHistory cb1 = [raw]
    /\ smoothTransition cb1 raw = second
    /\ secondary raw = (hsl 150 56 40.5)%float
    /\ css (secondary raw) = "hsl(150, 56%, 40.5%)"%string
    /\ secondary second = (hsl 0 0 0)%float
    /\ css (secondary second) = "hsl(0, 0%, 0%)"%string
    /\ eqb (light (secondary second)) (light (secondary raw)) = false
    /\ third = second.
Proof.
  eexists. eexists. eexists. eexists. eexists. eexists.
  split; [vm_compute; reflexivity |].
  split; [vm_compute; reflexivity |].
  split; [vm_compute; reflexivity |].
  repeat split; vm_compute; reflexivity.
Qed.

(* ================================================================== *)
(** * Ranges of the features *)
(* ================================================================== *)

Section Ranges.
Local Open Scope R_scope.

Lemma len_INR (l : list R) : len l = INR (length l).
Proof. unfold len. cbn [ofZ R_JSNumber]. now rewrite <- INR_IZR_INZ. Qed.

(** A running sum from [a] is [a] plus the sum. *)
Lemma fold_add_shift {A} (f : A -> R) (l : list A) (a : R) :
  fold_left (fun acc v => acc + f v) l a =
    a + fold_left (fun acc v => acc + f v) l 0.
Proof.
  revert a. induction l as [| x l IH]; intros a; simpl; [lra |].
  rewrite (IH (a + f x)), (IH (0 + f x)). lra.
Qed.

Lemma fold_add_bounds {A} (f : A -> R) (lo hi : R) (l : list A) :
  Forall (fun v => lo <= f v <= hi) l ->
  lo * INR (length l) <= fold_left (fun acc v => acc + f v) l 0
  <= hi * INR (length l).
Proof.
  induction 1 as [| x l Hx Hl IH].
  - simpl. lra.
  - cbn [fold_left]. rewrite fold_add_shift.
    change (length (x :: l)) with (S (length l)). rewrite S_INR. lra.
Qed.

Lemma sum_bounds (l : list R) :
  Forall inUnit l -> 0 <= sum l <= INR (length l).
Proof.
  intros Hl. unfold sum. cbn [add ofZ R_JSNumber].
  pose proof (@fold_add_bounds R (fun v => v) 0 1 l Hl). lra.
Qed.

Lemma mean_unit (l : list R) :
  (0 < length l)%nat -> Forall inUnit l -> inUnit (sum l / len l).
Proof.
  intros Hpos Hl. rewrite len_INR. cbn [div R_JSNumber].
  pose proof (@sum_bounds l Hl) as Hs.
  assert (Hn : 0 < INR (length l)) by now apply lt_0_INR.
  unfold inUnit. split.
  - apply Rmult_le_pos; [lra |]. left. now apply Rinv_0_lt_compat.
  - apply (Rmult_le_reg_r (INR (length l))); [assumption |].
    unfold Rdiv. rewrite Rmult_assoc, Rinv_l by lra. lra.
Qed.

Lemma Forall_firstn_skipn {A} (P : A -> Prop) (n : nat) (l : list A) :
  Forall P l -> Forall P (firstn n l) /\ Forall P (skipn n l).
Proof.
  intros Hl. rewrite <- (firstn_skipn n l) in Hl.
  now apply Forall_app in Hl.
Qed.

Lemma Forall_slice {A} (P : A -> Prop) (a b : Z) (l : list A) :
  Forall P l -> Forall P (slice a b l).
Proof.
  intros Hl. unfold slice.
  now apply Forall_firstn_skipn, Forall_firstn_skipn.
Qed.

Lemma Forall_slice_from {A} (P : A -> Prop) (a : Z) (l : list A) :
  Forall P l -> Forall P (slice_from a l).
Proof. intros Hl. unfold slice_from. now apply Forall_firstn_skipn. Qed.

Lemma extractBass_unit frame : nominalFrame frame -> inUnit (extractBass frame).
Proof.
  intros [Hlen Hall]. unfold extractBass. apply mean_unit.
  - change 0%Z with (Z.of_nat 0). change 32%Z with (Z.of_nat 32).
    rewrite length_slice; lia.
  - now apply Forall_slice.
Qed.

Lemma extractMid_unit frame : nominalFrame frame -> inUnit (extractMid frame).
Proof.
  intros [Hlen Hall]. unfold extractMid. apply mean_unit.
  - change 32%Z with (Z.of_nat 32). change 96%Z with (Z.of_nat 96).
    rewrite length_slice; lia.
  - now apply Forall_slice.
Qed.

Lemma extractTreble_unit frame :
  nominalFrame frame -> inUnit (extractTreble frame).
Proof.
  intros [Hlen Hall]. unfold extractTreble. apply mean_unit.
  - unfold slice_from. rewrite length_skipn, slice_index_nonneg by lia. lia.
  - now apply Forall_slice_from.
Qed.

Lemma analyzeDynamics_unit (frame : list R) : inUnit (analyzeDynamics frame).
Proof.
  unfold analyzeDynamics. cbn [Math_min Math_sqrt mul ofZ R_JSNumber].
  match goal with |- inUnit (Rmin 1 (sqrt ?a * 2)) => pose proof (sqrt_pos a) end.
  unfold inUnit. split.
  - apply Rmin_glb; lra.
  - apply Rmin_l.
Qed.

Lemma calculateEnergy_unit (frame : list R) : inUnit (calculateEnergy frame).
Proof.
  unfold calculateEnergy. cbn [Math_min Math_sqrt mul ofZ R_JSNumber].
  match goal with |- inUnit (Rmin 1 (sqrt ?a * 2)) => pose proof (sqrt_pos a) end.
  unfold inUnit. split.
  - apply Rmin_glb; lra.
  - apply Rmin_l.
Qed.

(** ** Tempo *)

Lemma sum_nonneg (l : list R) : Forall (Rle 0) l -> 0 <= sum l.
Proof.
  unfold sum. cbn [add ofZ R_JSNumber].
  induction 1 as [| x l Hx Hl IH]; simpl; [lra |].
  rewrite (@fold_add_shift R (fun v => v)). lra.
Qed.

Lemma calculateConsistency_nonneg (values : list R) :
  0 <= calculateConsistency values.
Proof.
  unfold calculateConsistency.
  destruct (length values <? 2)%nat; cbn [Math_max ofZ R_JSNumber];
    [lra | apply Rmax_l].
Qed.

Lemma analyzeRhythm_nonneg (this : MusicBrain R) (bass mid : R) :
  0 <= bass -> 0 <= analyzeRhythm this bass mid.
Proof.
  intros Hb. unfold analyzeRhythm.
  set (strength := Math_max _ _).
  assert (Hs : 0 <= strength).
  { unfold strength, lit. cbn [Math_max mul div ofZ R_JSNumber].
    apply Rle_trans with (bass * (12 / 10)); [lra | apply Rmax_l]. }
  destruct (4 <? length (beatHistory this))%nat; [| exact Hs].
  pose proof (calculateConsistency_nonneg
                (slice_from (-4) (beatHistory this))) as Hc.
  unfold lit. cbn [add mul div ofZ R_JSNumber] in *. nra.
Qed.

Lemma Forall_pushCapped {A} (P : A -> Prop) cap (arr : list A) (v : A) :
  Forall P arr -> P v -> Forall P (pushCapped cap arr v).
Proof.
  intros Harr Hv. unfold pushCapped, push, shift.
  assert (Hall : Forall P (arr ++ [v])) by (apply Forall_app; auto).
  destruct (cap <? length (arr ++ [v]))%nat; [| exact Hall].
  destruct (arr ++ [v]); [constructor | now inversion Hall].
Qed.

Lemma beatHistory_nonneg (frames : list (list R)) :
  Forall nominalFrame frames ->
  Forall (Rle 0) (beatHistory (runAudio newMusicBrain frames)).
Proof.
  induction frames as [| frame frames IH] using rev_ind; intros Hall.
  - constructor.
  - apply Forall_app in Hall. destruct Hall as [Hframes Hframe].
    inversion Hframe as [| ? ? Hnom _]; subst.
    rewrite runAudio_snoc, beatHistory_analyzeAudio.
    apply Forall_pushCapped; [now apply IH |].
    unfold analyzeAudio. cbn [fst snd rhythm].
    apply analyzeRhythm_nonneg. now apply extractBass_unit.
Qed.

Lemma estimateTempo_floor (this : MusicBrain R) (rhythm : R) :
  Forall (Rle 0) (beatHistory this) -> 60 <= estimateTempo this rhythm.
Proof.
  intros Hall. unfold estimateTempo.
  destruct (Nat.ltb_spec (length (beatHistory this)) 8) as [Hlt | Hge];
    cbn [add mul div ofZ R_JSNumber]; [lra |].
  set (recent := slice_from (-8) (beatHistory this)).
  assert (Hs : 0 <= sum recent)
    by (apply sum_nonneg; now apply Forall_slice_from).
  assert (Hl : len recent = 8).
  { rewrite len_INR. unfold recent. change (-8)%Z with (- Z.of_nat 8)%Z.
    rewrite length_slice_from_last by lia. simpl. lra. }
  rewrite Hl. lra.
Qed.
End Ranges.

(** C1, as the code has it.  Over the reals, for every frame of 128 samples in
    [[0, 1]] and every brain reached from a new one through such frames:
    [bass], [mid], [treble], [dynamics] and [energy] lie in [[0, 1]]; [tempo]
    is at least 60; [mood] is one of the five declared values.  These are
    sums, means and clamps of samples in [[0, 1]], which correct rounding
    keeps in range.  Nothing is said of [harmony], a mean of correlation
    quotients that no clamp bounds, nor of an upper bound of [tempo]. *)
Theorem feature_ranges :
  forall (frames : list (list R)) (frame : list R),
    Forall nominalFrame frames ->
    nominalFrame frame ->
    let features :=
      fst (fst (analyzeAudio (runAudio newMusicBrain frames) frame)) in
    (0 <= bass features <= 1)%R
    /\ (0 <= mid features <= 1)%R
    /\ (0 <= treble features <= 1)%R
    /\ (0 <= dynamics features <= 1)%R
    /\ (0 <= energy features <= 1)%R
    /\ (60 <= tempo features)%R
    /\ In (mood features) [calm; energetic; dramatic; mysterious; joyful].
Proof.
  intros frames frame Hframes Hframe features.
  subst features. unfold analyzeAudio.
  cbn [fst snd bass mid treble dynamics energy harmony tempo mood].
  split; [now apply extractBass_unit |].
  split; [now apply extractMid_unit |].
  split; [now apply extractTreble_unit |].
  split; [apply analyzeDynamics_unit |].
  split; [apply calculateEnergy_unit |].
  split.
  - apply estimateTempo_floor. cbn [beatHistory].
    now apply beatHistory_nonneg.
  - destruct (determineMood _ _ _); simpl; auto 6.
Qed.


Lemma nominalFrame_halfFrame : nominalFrame halfFrame.
Proof.
  split; [reflexivity |]. apply Forall_forall. intros v Hv.
  apply repeat_spec in Hv. subst v. unfold inUnit. lra.
Qed.

Lemma feature_ranges_witness :
  Forall nominalFrame [halfFrame]
  /\ nominalFrame halfFrame
  /\ (0 <= bass (fst (fst (analyzeAudio
                              (runAudio newMusicBrain [halfFrame])
                              halfFrame))) <= 1)%R.
Proof.
  assert (Hframes : Forall nominalFrame [halfFrame])
    by (constructor; [exact nominalFrame_halfFrame | constructor]).
  split; [exact Hframes |]. split; [exact nominalFrame_halfFrame |].
  exact (proj1 (@feature_ranges [halfFrame] halfFrame Hframes
                  nominalFrame_halfFrame)).
Defined.

(** C1, the claim as stated fails.  The alternating frame has 128 samples,
    each 0 or 1; on the first tick its harmony is -1.  After eight ticks on
    the uniform frame the beat history holds rhythm values above 1, and the
    tempo of the ninth tick is above 180. *)
Lemma harmony_negative_tempo_above_180 :
  length alternatingFrame = 128%nat
  /\ forallb (fun v => PrimFloat.leb 0 v && PrimFloat.leb v 1) alternatingFrame
     = true
  /\ harmony (fst (fst (analyzeAudio newMusicBrain alternatingFrame)))
     = (-1)%float
  /\ ltb (harmony (fst (fst (analyzeAudio newMusicBrain alternatingFrame))))
         (ofZ 0) = true
  /\ length uniformFrame = 128%nat
  /\ forallb (fun v => PrimFloat.leb 0 v && PrimFloat.leb v 1) uniformFrame
     = true
  /\ ltb (ofZ 180)
         (tempo (fst (fst (analyzeAudio (uniformBrain 8) uniformFrame))))
     = true.
Proof. by_evaluation. Qed.

(** Nor is 1 an upper bound of [harmony] in binary64.  On the faint frame,
    128 samples in [[0, 1]], the product of the two denominators of
    [calculateCorrelation] falls into the subnormal range, its square root
    is too small, and the quotient exceeds 1. *)
Lemma harmony_above_one_binary64 :
  length faintFrame = 128%nat
  /\ forallb (fun v => PrimFloat.leb 0 v && PrimFloat.leb v 1) faintFrame
     = true
  /\ ltb (ofZ 1) (harmony (fst (fst (analyzeAudio newMusicBrain faintFrame))))
     = true.
Proof. by_evaluation. Qed.

(* ================================================================== *)
(** * The state of MusicBrain along a run *)
(* ================================================================== *)

Section BrainState.
Context {num : Type} `{JSNumber num}.

Lemma time_analyzeAudio (b : MusicBrain num) frame :
  time (snd (analyzeAudio b frame)) = S (time b).
Proof. unfold analyzeAudio. cbn [snd time updateHistory]. lia. Qed.

Lemma time_run frames :
  time (runAudio (newMusicBrain (num:=num)) frames) = length frames.
Proof.
  induction frames as [| frame frames IH] using rev_ind.
  - reflexivity.
  - rewrite runAudio_snoc, time_analyzeAudio, IH, length_app. simpl. lia.
Qed.

Lemma length_energyHistory_run frames :
  length (energyHistory (runAudio (newMusicBrain (num:=num)) frames)) =
    Nat.min (length frames) 20.
Proof.
  induction frames as [| frame frames IH] using rev_ind.
  - reflexivity.
  - rewrite runAudio_snoc, energyHistory_analyzeAudio.
    rewrite length_pushCapped_exact by (try apply histories_bounded; lia).
    rewrite IH, length_app. simpl. lia.
Qed.
End BrainState.

(** X1.  After [n] calls of [analyzeAudio] on a new brain, [time] is [n],
    both histories hold [min n 20] entries, and [previousFeatures] is unset
    exactly when no call was made; each call stores the features it
    returns.  This holds for every arithmetic. *)
Theorem brain_state_after_calls :
  forall (num : Type) (N : JSNumber num) (frames : list (list num))
         (frame : list num),
    let b := runAudio newMusicBrain frames in
    time b = length frames
    /\ length (beatHistory b) = Nat.min (length frames) 20
    /\ length (energyHistory b) = Nat.min (length frames) 20
    /\ (previousFeatures b = None <-> frames = [])
    /\ previousFeatures (snd (analyzeAudio b frame))
       = Some (fst (fst (analyzeAudio b frame))).
Proof.
  intros num N frames frame b. subst b.
  split; [apply time_run |].
  split; [apply length_beatHistory_run |].
  split; [apply length_energyHistory_run |].
  split; [| reflexivity].
  destruct frames as [| f frames] using rev_ind.
  - split; reflexivity.
  - rewrite runAudio_snoc. split.
    + discriminate.
    + intros E. now destruct frames.
Qed.

(** X2.  [estimateTempo] answers the default 120 on each of the first eight
    calls of a new brain; from the ninth call on the tempo is 60 plus 120
    times the mean of the last eight entries of the beat history.  This
    holds for every arithmetic. *)
Theorem tempo_default_until_eight_beats :
  forall (num : Type) (N : JSNumber num) (frames : list (list num))
         (frame : list num),
    let b := runAudio newMusicBrain frames in
    tempo (fst (fst (analyzeAudio b frame))) =
      if (length frames <? 8)%nat then ofZ 120
      else add (ofZ 60)
               (mul (div (sum (lastN 8 (beatHistory b))) (ofZ 8)) (ofZ 120)).
Proof.
  intros num N frames frame b. subst b.
  unfold analyzeAudio. cbn [fst tempo]. unfold estimateTempo. cbn [beatHistory].
  rewrite length_beatHistory_run.
  destruct (Nat.ltb_spec (length frames) 8) as [Hlt | Hge].
  - destruct (Nat.ltb_spec (Nat.min (length frames) 20) 8); [reflexivity | lia].
  - destruct (Nat.ltb_spec (Nat.min (length frames) 20) 8); [lia |].
    change (-8)%Z with (- Z.of_nat 8)%Z.
    rewrite slice_from_last by lia. unfold lastN, len.
    rewrite length_skipn, length_beatHistory_run.
    replace (Nat.min (length frames) 20 - (Nat.min (length frames) 20 - 8))%nat
      with 8%nat by lia.
    reflexivity.
Qed.

(** X3.  [detectGenre] returns one of the six hints [electronic],
    [classical], [rock], [ambient], [voice], [acoustic] and never [mixed], so
    the context that [analyzeAudio] returns never carries [mixed]: the
    [default] branch of the switch of [createBasePalette] is not reached from
    it.  This holds for every arithmetic. *)
Theorem detectGenre_never_mixed :
  forall (num : Type) (N : JSNumber num),
    (forall features : AudioFeatures num,
        In (detectGenre features)
           [electronic; classical; rock; ambient; voice; acoustic])
    /\ (forall (this : MusicBrain num) (frame : list num),
           genreHint (snd (fst (analyzeAudio this frame))) <> mixed).
Proof.
  intros num N.
  assert (Hg : forall features : AudioFeatures num,
             In (detectGenre features)
                [electronic; classical; rock; ambient; voice; acoustic]).
  { intros features. unfold detectGenre.
    repeat match goal with
           | |- context [if ?c then _ else _] => destruct c
           end; simpl; auto 7. }
  split; [exact Hg |].
  intros this frame. unfold analyzeAudio, analyzeContext.
  cbn [fst snd genreHint].
  match goal with |- detectGenre ?f <> _ => specialize (Hg f) end.
  intros E. rewrite E in Hg. simpl in Hg.
  repeat (destruct Hg as [Hg | Hg]; [discriminate Hg |]). exact Hg.
Qed.

(** X4.  No beat drop is reported on the first call of a brain, whatever
    the arithmetic; and over the reals none is reported when a call repeats
    the frame of the call before it, the bass not having risen. *)
Theorem no_beat_drop_without_rise :
  (forall (num : Type) (N : JSNumber num) (frame : list num),
      beatDrop (snd (fst (analyzeAudio newMusicBrain frame))) = false)
  /\ (forall (this : MusicBrain R) (frame : list R),
         beatDrop (snd (fst (analyzeAudio (snd (analyzeAudio this frame))
                                          frame))) = false).
Proof.
  split.
  - intros num N frame. reflexivity.
  - intros this frame. unfold analyzeAudio, analyzeContext, detectBeatDrop.
    cbn [fst snd beatDrop previousFeatures updateHistory bass energy].
    unfold lit. cbn [ltb sub div ofZ R_JSNumber].
    apply andb_false_iff. left.
    unfold Real.ltb. destruct (Rlt_dec _ _) as [Hlt |]; [| reflexivity].
    exfalso. lra.
Qed.

(* ================================================================== *)
(** * Rhythm, melody and tempo over the reals *)
(* ================================================================== *)

Section MoreRanges.
Local Open Scope R_scope.

Lemma calculateConsistency_unit (values : list R) :
  0 <= calculateConsistency values <= 1.
Proof.
  split; [apply calculateConsistency_nonneg |].
  unfold calculateConsistency.
  destruct (length values <? 2)%nat;
    cbn [Math_max Math_sqrt sub ofZ R_JSNumber]; [lra |].
  match goal with |- Rmax 0 (1 - sqrt ?a) <= 1 => pose proof (sqrt_pos a) end.
  apply Rmax_lub; lra.
Qed.

(** The rhythm lies between the rhythmic strength and one and a half times
    the strength. *)
Lemma analyzeRhythm_bounds (this : MusicBrain R) (bass mid : R) :
  0 <= bass ->
  Rmax (bass * (12 / 10)) (mid * (8 / 10)) <= analyzeRhythm this bass mid
  <= Rmax (bass * (12 / 10)) (mid * (8 / 10)) * (15 / 10).
Proof.
  intros Hb. unfold analyzeRhythm, lit.
  cbn [Math_max add mul div ofZ R_JSNumber].
  set (strength := Rmax _ _).
  assert (Hs : 0 <= strength).
  { apply Rle_trans with (bass * (12 / 10)); [lra | apply Rmax_l]. }
  destruct (4 <? length (beatHistory this))%nat; [| lra].
  pose proof (calculateConsistency_unit
                (slice_from (-4) (beatHistory this))) as Hc.
  nra.
Qed.

Lemma analyzeRhythm_nominal (this : MusicBrain R) (bass mid : R) :
  inUnit bass -> inUnit mid ->
  0 <= analyzeRhythm this bass mid <= 18 / 10.
Proof.
  intros [Hb0 Hb1] [Hm0 Hm1].
  pose proof (@analyzeRhythm_bounds this bass mid Hb0) as [Hlo Hhi].
  assert (Hs : 0 <= Rmax (bass * (12 / 10)) (mid * (8 / 10)) <= 12 / 10).
  { split.
    - apply Rle_trans with (bass * (12 / 10)); [lra | apply Rmax_l].
    - apply Rmax_lub; lra. }
  lra.
Qed.

Lemma beatHistory_nominal (frames : list (list R)) :
  Forall nominalFrame frames ->
  Forall (fun v => 0 <= v <= 18 / 10)
         (beatHistory (runAudio newMusicBrain frames)).
Proof.
  induction frames as [| frame frames IH] using rev_ind; intros Hall.
  - constructor.
  - apply Forall_app in Hall. destruct Hall as [Hframes Hframe].
    inversion Hframe as [| ? ? Hnom _]; subst.
    rewrite runAudio_snoc, beatHistory_analyzeAudio.
    apply Forall_pushCapped; [now apply IH |].
    unfold analyzeAudio. cbn [fst snd rhythm].
    apply analyzeRhythm_nominal;
      [now apply extractBass_unit | now apply extractMid_unit].
Qed.

Lemma mean_bounds (lo hi : R) (l : list R) :
  (0 < length l)%nat -> Forall (fun v => lo <= v <= hi) l ->
  lo <= sum l / len l <= hi.
Proof.
  intros Hpos Hl. rewrite len_INR. cbn [div R_JSNumber].
  pose proof (@fold_add_bounds R (fun v => v) lo hi l Hl) as Hs.
  assert (Hn : 0 < INR (length l)) by now apply lt_0_INR.
  unfold sum. cbn [add ofZ R_JSNumber].
  split.
  - apply (Rmult_le_reg_r (INR (length l))); [assumption |].
    unfold Rdiv. rewrite Rmult_assoc, Rinv_l by lra. lra.
  - apply (Rmult_le_reg_r (INR (length l))); [assumption |].
    unfold Rdiv. rewrite Rmult_assoc, Rinv_l by lra. lra.
Qed.

Lemma estimateTempo_bounds (this : MusicBrain R) (rhythm : R) :
  Forall (fun v => 0 <= v <= 18 / 10) (beatHistory this) ->
  60 <= estimateTempo this rhythm <= 276.
Proof.
  intros Hall. unfold estimateTempo.
  destruct (Nat.ltb_spec (length (beatHistory this)) 8) as [Hlt | Hge];
    cbn [add mul div ofZ R_JSNumber]; [lra |].
  pose proof (@mean_bounds 0 (18 / 10) (slice_from (-8) (beatHistory this)))
    as Hm.
  cbn [div R_JSNumber] in Hm.
  destruct Hm as [Hlo Hhi].
  - change (-8)%Z with (- Z.of_nat 8)%Z.
    rewrite length_slice_from_last by lia. lia.
  - now apply Forall_slice_from.
  - lra.
Qed.

Lemma analyzeMelody_bounds (this : MusicBrain R) (mid treble : R) :
  inUnit mid -> inUnit treble ->
  0 <= analyzeMelody this mid treble
  <= match previousFeatures this with None => 14 / 10 | Some _ => 1 end.
Proof.
  intros [Hm0 Hm1] [Ht0 Ht1]. unfold analyzeMelody, lit.
  cbn [Math_min Math_abs add sub mul div ofZ R_JSNumber].
  destruct (previousFeatures this) as [prev |]; [| lra].
  split; [| apply Rmin_l].
  match goal with
  | |- 0 <= Rmin 1 (_ + Rabs ?a * _) => pose proof (Rabs_pos a)
  end.
  apply Rmin_glb; lra.
Qed.
End MoreRanges.

Section Sums.
Local Open Scope R_scope.

(** A sum whose terms are all [k]. *)
Lemma fold_add_const {A} (f : A -> R) (k : R) (l : list A) :
  Forall (fun v => f v = k) l ->
  fold_left (fun acc v => acc + f v) l 0 = k * INR (length l).
Proof.
  intros Hl.
  assert (Hb : Forall (fun v => k <= f v <= k) l).
  { eapply Forall_impl; [| exact Hl]. intros v Hv. simpl in Hv. lra. }
  pose proof (@fold_add_bounds A f k k l Hb). lra.
Qed.

Lemma sum_const (c : R) (l : list R) :
  Forall (eq c) l -> sum l = c * INR (length l).
Proof.
  intros Hl. unfold sum. cbn [add ofZ R_JSNumber].
  apply (@fold_add_const R (fun v => v)).
  eapply Forall_impl; [| exact Hl]. intros v Hv. now symmetry.
Qed.

Lemma mean_const (c : R) (l : list R) :
  (0 < length l)%nat -> Forall (eq c) l -> sum l / len l = c.
Proof.
  intros Hpos Hl. rewrite len_INR, (@sum_const c l Hl). cbn [div R_JSNumber].
  assert (0 < INR (length l)) by now apply lt_0_INR.
  field. lra.
Qed.

(** A history without variation is fully consistent. *)
Lemma calculateConsistency_steady (v : R) (values : list R) :
  (2 <= length values)%nat -> Forall (eq v) values ->
  calculateConsistency values = 1.
Proof.
  intros Hlen Hall. unfold calculateConsistency, Math_pow2.
  destruct (Nat.ltb_spec (length values) 2); [lia |].
  cbn [Math_max Math_sqrt add sub mul div ofZ R_JSNumber].
  rewrite (@mean_const v values) by (assumption || lia).
  rewrite (@fold_add_const R (fun val => (val - v) * (val - v)) 0).
  - replace (0 * INR (length values) / len values) with 0
      by (unfold Rdiv; ring).
    rewrite sqrt_0, Rminus_0_r. apply Rmax_right. lra.
  - apply Forall_forall. intros a Ha. rewrite Forall_forall in Hall.
    rewrite <- (Hall a Ha). ring.
Qed.
End Sums.

(** X5.  Over the reals and for a non-negative bass, the rhythm lies
    between the rhythmic strength [max(bass * 1.2, mid * 0.8)] and one and a
    half times that strength.  It is the bare strength while the beat history
    holds at most 4 entries, and exactly one and a half times the strength
    when the last 4 entries of a longer history are equal. *)
Theorem rhythm_boost_range :
  forall (this : MusicBrain R) (bass mid steady : R),
    (0 <= bass)%R ->
    let strength := Rmax (bass * (12 / 10)) (mid * (8 / 10)) in
    (strength <= analyzeRhythm this bass mid <= strength * (15 / 10))%R
    /\ ((length (beatHistory this) <= 4)%nat ->
        analyzeRhythm this bass mid = strength)
    /\ ((4 < length (beatHistory this))%nat ->
        Forall (eq steady) (lastN 4 (beatHistory this)) ->
        analyzeRhythm this bass mid = (strength * (15 / 10))%R).
Proof.
  intros this bass mid steady Hb strength.
  split; [now apply analyzeRhythm_bounds |].
  split.
  - intros Hlen. unfold analyzeRhythm.
    destruct (Nat.ltb_spec 4 (length (beatHistory this))); [lia |].
    unfold lit. reflexivity.
  - intros Hlen Hall. unfold analyzeRhythm.
    destruct (Nat.ltb_spec 4 (length (beatHistory this))); [| lia].
    change (-4)%Z with (- Z.of_nat 4)%Z.
    rewrite slice_from_last by lia. fold (lastN 4 (beatHistory this)).
    rewrite (@calculateConsistency_steady steady)
      by (try assumption; unfold lastN; rewrite length_skipn; lia).
    unfold lit. subst strength. cbn [Math_max add mul div ofZ R_JSNumber].
    field.
Qed.

Lemma rhythm_boost_range_witness :
  (0 <= 1 / 2)%R
  /\ (Rmax (1 / 2 * (12 / 10)) (1 / 2 * (8 / 10))
      <= analyzeRhythm newMusicBrain (1 / 2)%R (1 / 2)%R
      <= Rmax (1 / 2 * (12 / 10)) (1 / 2 * (8 / 10)) * (15 / 10))%R.
Proof.
  assert (Hb : (0 <= 1 / 2)%R) by lra.
  split; [exact Hb |].
  exact (proj1 (@rhythm_boost_range newMusicBrain (1 / 2)%R (1 / 2)%R 0%R Hb)).
Defined.

(** X6.  Over the reals, for every frame of 128 samples in [[0, 1]] and
    every brain reached from a new one through such frames: [rhythm] lies in
    [[0, 1.8]]; [melody] lies in [[0, 1.4]] on the first call and in
    [[0, 1]] on every later call, where [Math.min(1, ...)] applies; [tempo]
    lies in [[60, 276]]. *)
Theorem rhythm_melody_tempo_ranges :
  forall (frames : list (list R)) (frame : list R),
    Forall nominalFrame frames ->
    nominalFrame frame ->
    let features :=
      fst (fst (analyzeAudio (runAudio newMusicBrain frames) frame)) in
    (0 <= rhythm features <= 18 / 10)%R
    /\ (0 <= melody features
        <= match frames with [] => 14 / 10 | _ :: _ => 1 end)%R
    /\ (60 <= tempo features <= 276)%R.
Proof.
  intros frames frame Hframes Hframe features. subst features.
  unfold analyzeAudio. cbn [fst snd rhythm melody tempo].
  split.
  { apply analyzeRhythm_nominal;
      [now apply extractBass_unit | now apply extractMid_unit]. }
  split.
  { pose proof (@analyzeMelody_bounds
                  (mkBrain (previousFeatures (runAudio newMusicBrain frames))
                           (beatHistory (runAudio newMusicBrain frames))
                           (energyHistory (runAudio newMusicBrain frames))
                           (time (runAudio newMusicBrain frames) + 1))
                  (extractMid frame) (extractTreble frame)
                  (extractMid_unit Hframe) (extractTreble_unit Hframe)) as Hm.
    cbn [previousFeatures] in Hm.
    destruct frames as [| f frames] using rev_ind; [exact Hm |].
    rewrite runAudio_snoc in Hm.
    cbn [analyzeAudio snd previousFeatures updateHistory] in Hm.
    destruct (frames ++ [f]) eqn:E; [now destruct frames |].
    rewrite <- E. rewrite runAudio_snoc. exact Hm. }
  apply estimateTempo_bounds. cbn [beatHistory].
  now apply beatHistory_nominal.
Qed.

Lemma rhythm_melody_tempo_ranges_witness :
  Forall nominalFrame [halfFrame]
  /\ nominalFrame halfFrame
  /\ (0 <= rhythm (fst (fst (analyzeAudio
                               (runAudio newMusicBrain [halfFrame])
                               halfFrame))) <= 18 / 10)%R.
Proof.
  assert (Hframes : Forall nominalFrame [halfFrame])
    by (constructor; [exact nominalFrame_halfFrame | constructor]).
  split; [exact Hframes |]. split; [exact nominalFrame_halfFrame |].
  exact (proj1 (@rhythm_melody_tempo_ranges [halfFrame] halfFrame Hframes
                  nominalFrame_halfFrame)).
Defined.

(** The quotients [k / n] for [k <= n <= 128], computed in binary64. *)
Lemma density_quotients_binary64 :
  forallb (fun n =>
             forallb (fun k =>
                        let d := div (ofZ (Z.of_nat k)) (ofZ (Z.of_nat n)) in
                        PrimFloat.leb 0 d && PrimFloat.leb d 1)
                     (seq 0 (S n)))
          (seq 1 128) = true.
Proof. vm_compute. reflexivity. Qed.

Lemma calculateInstrumentalDensity_binary64 (frame : list float) :
  frame <> [] -> (length frame <= 128)%nat ->
  PrimFloat.leb 0 (calculateInstrumentalDensity frame) = true
  /\ PrimFloat.leb (calculateInstrumentalDensity frame) 1 = true.
Proof.
  intros Hne Hlen. unfold calculateInstrumentalDensity, len.
  set (kept := filter _ frame).
  assert (Hk : (length kept <= length frame)%nat) by apply filter_length_le.
  assert (Hn : (1 <= length frame)%nat)
    by (destruct frame; [contradiction | simpl; lia]).
  pose proof density_quotients_binary64 as Hall.
  rewrite forallb_forall in Hall.
  specialize (Hall (length frame)).
  rewrite forallb_forall in Hall.
  specialize (Hall ltac:(apply in_seq; lia) (length kept)
                   ltac:(apply in_seq; lia)).
  cbv zeta in Hall. now apply andb_true_iff in Hall.
Qed.

Lemma calculateInstrumentalDensity_unit (frame : list R) :
  frame <> [] -> (0 <= calculateInstrumentalDensity frame <= 1)%R.
Proof.
  intros Hne.
  unfold calculateInstrumentalDensity. rewrite !len_INR.
  cbn [div R_JSNumber].
  set (kept := filter _ frame).
  assert (Hle : (length kept <= length frame)%nat) by apply filter_length_le.
  apply le_INR in Hle.
  assert (Hpos : (0 < INR (length frame))%R).
  { apply lt_0_INR. destruct frame; [contradiction | simpl; lia]. }
  pose proof (pos_INR (length kept)) as Hk.
  split.
  - apply Rmult_le_pos; [assumption |]. left. now apply Rinv_0_lt_compat.
  - apply (Rmult_le_reg_r (INR (length frame))); [assumption |].
    unfold Rdiv. rewrite Rmult_assoc, Rinv_l by lra. lra.
Qed.

(** X7.  [instrumentalDensity] lies in [[0, 1]] whatever the samples are:
    it is the share of the samples above 0.1.  In binary64 this holds for
    every frame of 1 to 128 samples, a NaN sample counting as not above 0.1;
    over the reals it holds for every frame that is not empty. *)
Theorem instrumental_density_range :
  forall (this : MusicBrain float) (frame : list float)
         (realBrain : MusicBrain R) (realFrame : list R),
    frame <> [] -> (length frame <= 128)%nat -> realFrame <> [] ->
    let density :=
      instrumentalDensity (snd (fst (analyzeAudio this frame))) in
    let realDensity :=
      instrumentalDensity (snd (fst (analyzeAudio realBrain realFrame))) in
    PrimFloat.leb 0 density = true /\ PrimFloat.leb density 1 = true
    /\ (0 <= realDensity <= 1)%R.
Proof.
  intros this frame realBrain realFrame Hne Hlen Hreal density realDensity.
  subst density realDensity. unfold analyzeAudio, analyzeContext.
  cbn [fst snd instrumentalDensity].
  destruct (calculateInstrumentalDensity_binary64 Hne Hlen) as [H0 H1].
  split; [exact H0 |]. split; [exact H1 |].
  now apply calculateInstrumentalDensity_unit.
Qed.

Lemma instrumental_density_range_witness :
  uniformFrame <> [] /\ (length uniformFrame <= 128)%nat /\ halfFrame <> []
  /\ PrimFloat.leb 0 (instrumentalDensity
                        (snd (fst (analyzeAudio newMusicBrain uniformFrame))))
     = true.
Proof.
  assert (Hne : uniformFrame <> [])
    by (unfold uniformFrame; simpl; discriminate).
  assert (Hlen : (length uniformFrame <= 128)%nat)
    by (unfold uniformFrame; simpl; lia).
  assert (Hreal : halfFrame <> []) by (unfold halfFrame; simpl; discriminate).
  split; [exact Hne |]. split; [exact Hlen |]. split; [exact Hreal |].
  exact (proj1 (@instrumental_density_range newMusicBrain uniformFrame
                  newMusicBrain halfFrame Hne Hlen Hreal)).
Defined.

(* ================================================================== *)
(** * Correlation and harmony *)
(* ================================================================== *)

Lemma Forall_repeat {A} (P : A -> Prop) (v : A) (n : nat) :
  P v -> Forall P (repeat v n).
Proof. intros Hv. induction n; simpl; constructor; auto. Qed.

Section Symmetry.
Context {num : Type} `{JSNumber num}.
Hypothesis mul_comm : forall a b : num, mul a b = mul b a.

(** Swapping the arrays swaps the two denominators and keeps the
    numerator. *)
Lemma correlationSums_swap (mean1 mean2 : num) (arr1 arr2 : list num) :
  correlationSums mean2 mean1 arr2 arr1 =
    let '(numerator, denominator1, denominator2) :=
      correlationSums mean1 mean2 arr1 arr2 in
    (numerator, denominator2, denominator1).
Proof.
  unfold correlationSums.
  generalize (ofZ 0) at 1 4. generalize (ofZ 0) at 1 4.
  generalize (ofZ 0) at 1 2.
  revert arr2.
  induction arr1 as [| a arr1 IH]; intros [| b arr2] d1 d2 n;
    try reflexivity.
  cbn [combine fold_left fst snd].
  rewrite (mul_comm (sub b mean2) (sub a mean1)). apply IH.
Qed.

Lemma calculateCorrelation_comm (arr1 arr2 : list num) :
  calculateCorrelation arr1 arr2 = calculateCorrelation arr2 arr1.
Proof.
  unfold calculateCorrelation. rewrite (Nat.eqb_sym (length arr2)).
  destruct (length arr1 =? length arr2)%nat; [| reflexivity].
  cbn [negb].
  rewrite (correlationSums_swap (div (sum arr1) (len arr1))
                                (div (sum arr2) (len arr2)) arr1 arr2).
  destruct (correlationSums _ _ arr1 arr2) as [[n d1] d2].
  now rewrite (mul_comm d2 d1).
Qed.
End Symmetry.

(** The product of binary64 does not depend on the order of its factors. *)
Lemma SFmul_comm (x y : spec_float) : SF64mul x y = SF64mul y x.
Proof.
  unfold SF64mul, SFmul.
  destruct x as [sx | sx | | sx mx ex], y as [sy | sy | | sy my ey];
    try reflexivity; try (now rewrite (xorb_comm sx sy)).
  now rewrite (xorb_comm sx sy), (Pos.mul_comm mx my), (Z.add_comm ex ey).
Qed.

Lemma float_mul_comm (x y : float) : PrimFloat.mul x y = PrimFloat.mul y x.
Proof. apply Prim2SF_inj. rewrite !mul_spec. apply SFmul_comm. Qed.

(** X8.  [calculateCorrelation] is symmetric in its two arrays, in binary64
    as over the reals: it answers the same number, or NaN both times, for
    [(arr1, arr2)] and [(arr2, arr1)].  For arrays of different lengths it
    answers 0, whatever the arithmetic. *)
Theorem calculateCorrelation_symmetric :
  (forall arr1 arr2 : list float,
      calculateCorrelation arr1 arr2 = calculateCorrelation arr2 arr1)
  /\ (forall arr1 arr2 : list R,
         calculateCorrelation arr1 arr2 = calculateCorrelation arr2 arr1)
  /\ (forall (num : Type) (N : JSNumber num) (arr1 arr2 : list num),
         if (length arr1 =? length arr2)%nat then True
         else calculateCorrelation arr1 arr2 = ofZ 0).
Proof.
  split; [| split].
  - intros arr1 arr2. apply calculateCorrelation_comm. exact float_mul_comm.
  - intros arr1 arr2. apply calculateCorrelation_comm. exact Rmult_comm.
  - intros num N arr1 arr2. unfold calculateCorrelation.
    now destruct (length arr1 =? length arr2)%nat.
Qed.

Section ShortFrames.
Context {num : Type} `{JSNumber num}.

Lemma slice_empty (a : nat) (arr : list num) :
  slice (Z.of_nat a) (Z.of_nat a) arr = [].
Proof. rewrite slice_nonneg by lia. now rewrite Nat.sub_diag. Qed.

(** With fewer than 8 samples the segment size is 0 and every segment is
    empty. *)
Lemma analyzeHarmony_short (frame : list num) :
  (length frame < 8)%nat -> analyzeHarmony frame = analyzeHarmony [].
Proof.
  intros Hlen. unfold analyzeHarmony, segments.
  rewrite (Nat.div_small (length frame) 8) by exact Hlen.
  cbn [length Nat.div Nat.divmod fst Nat.sub seq fold_left Nat.mul Nat.add].
  now rewrite !slice_empty.
Qed.
End ShortFrames.

Lemma analyzeHarmony_empty_real : analyzeHarmony ([] : list R) = 0%R.
Proof.
  unfold analyzeHarmony, segments.
  cbn [length Nat.div Nat.divmod fst Nat.sub seq fold_left Nat.mul Nat.add].
  rewrite !slice_empty.
  assert (Hc : calculateCorrelation ([] : list R) [] = 0%R).
  { unfold calculateCorrelation, correlationSums.
    cbn [length Nat.eqb negb combine fold_left].
    cbn [eqb Math_sqrt mul div ofZ R_JSNumber].
    rewrite Rmult_0_l, sqrt_0. now rewrite (proj2 (Reqb_true 0 0)). }
  rewrite Hc. cbn [add div ofZ R_JSNumber]. lra.
Qed.

(** X9.  A frame of fewer than 8 samples has harmony 0, in binary64 as over
    the reals: [Math.floor(length / 8)] is 0, every segment is empty, and
    for two empty arrays the guard [denominator === 0] of
    [calculateCorrelation] answers 0 (in binary64 their means are NaN and
    are not used). *)
Theorem harmony_of_short_frame :
  forall (frame : list float) (realFrame : list R),
    (length frame < 8)%nat -> (length realFrame < 8)%nat ->
    analyzeHarmony frame = 0%float /\ analyzeHarmony realFrame = 0%R.
Proof.
  intros frame realFrame Hlen Hreal. split.
  - rewrite (@analyzeHarmony_short _ _ frame Hlen). vm_compute. reflexivity.
  - rewrite (@analyzeHarmony_short _ _ realFrame Hreal).
    apply analyzeHarmony_empty_real.
Qed.

Lemma harmony_of_short_frame_witness :
  (length [1%float; 0%float; 1%float] < 8)%nat
  /\ (length [1%R; 0%R; 1%R] < 8)%nat
  /\ analyzeHarmony [1%float; 0%float; 1%float] = 0%float.
Proof.
  assert (Hlen : (length [1%float; 0%float; 1%float] < 8)%nat)
    by (simpl; lia).
  assert (Hreal : (length [1%R; 0%R; 1%R] < 8)%nat) by (simpl; lia).
  split; [exact Hlen |]. split; [exact Hreal |].
  exact (proj1 (@harmony_of_short_frame [1%float; 0%float; 1%float]
                  [1%R; 0%R; 1%R] Hlen Hreal)).
Defined.

(* ================================================================== *)
(** * Silence *)
(* ================================================================== *)

(** One call on the silent frame, from the brain after [n] silent frames:
    the 21 shapes of the history are evaluated one by one, and from the
    21st call on only the counter changes. *)
Lemma analyzeAudio_silentBrain (n : nat) :
  analyzeAudio (silentBrain n) silentFrame =
    ((silentFeatures n, silentContext), silentBrain (S n)).
Proof.
  do 21 (destruct n as [| n]; [vm_compute; reflexivity |]).
  vm_compute. now rewrite Nat.add_1_r.
Qed.

Lemma runAudio_silence (n : nat) :
  runAudio newMusicBrain (repeat silentFrame n) = silentBrain n.
Proof.
  induction n as [| n IH]; [reflexivity |].
  cbn [repeat]. rewrite repeat_cons, runAudio_snoc, IH.
  now rewrite analyzeAudio_silentBrain.
Qed.

(** X10.  Silence from the start, in binary64: on the silent frame of 128
    zeros, after any number [n] of earlier silent frames on a new brain,
    [analyzeAudio] answers [bass], [mid], [treble], [rhythm], [melody],
    [harmony], [dynamics] and [energy] all 0, the mood [mysterious], no beat
    drop, no vocal presence, density and emotional intensity 0 and the genre
    [acoustic].  The tempo is the default 120 on the first eight calls and
    60 from the ninth call on. *)
Theorem silence_from_the_start :
  forall n : nat,
    fst (analyzeAudio (runAudio newMusicBrain (repeat silentFrame n))
                      silentFrame)
    = (mkFeatures 0%float 0%float 0%float 0%float 0%float 0%float 0%float
                  0%float (if (n <? 8)%nat then 120%float else 60%float)
                  mysterious,
       mkContext false false 0%float 0%float acoustic).
Proof.
  intros n. now rewrite runAudio_silence, analyzeAudio_silentBrain.
Qed.

(* ================================================================== *)
(** * The colour mood *)
(* ================================================================== *)

(** X11.  The temperature that [analyzeMood] computes for the result of
    [analyzeAudio] follows the mood: [warm] when the mood is [calm] (its
    harmony exceeds 0.6), [cool] when it is [mysterious] or [dramatic], the
    last assignment winning; for [energetic] and [joyful] it is [warm] when
    the harmony exceeds 0.6 or the genre is [acoustic], else [cool] when the
    bass exceeds 0.6 or the genre is [electronic], else [neutral].  The
    palette does not depend on it: [createBasePalette] reads only the
    saturation and the brightness of the mood.  This holds for every
    arithmetic. *)
Theorem temperature_follows_mood :
  forall (num : Type) (N : JSNumber num) (this : MusicBrain num)
         (frame : list num),
    let result := fst (analyzeAudio this frame) in
    let features := fst result in
    let context := snd result in
    temperature (analyzeMood features context) =
      match mood features with
      | calm => warm
      | mysterious | dramatic => cool
      | energetic | joyful =>
          if ltb (lit 6 10) (harmony features)
             || Genre_eqb (genreHint context) acoustic then warm
          else if ltb (lit 6 10) (bass features)
                  || Genre_eqb (genreHint context) electronic then cool
          else neutral
      end
    /\ forall random name1 name2 temperature1 temperature2 contrast1 contrast2
              saturation' brightness',
         createBasePalette random features context
           (mkMood name1 temperature1 saturation' brightness' contrast1)
         = createBasePalette random features context
             (mkMood name2 temperature2 saturation' brightness' contrast2).
Proof.
  intros num N this frame result features context.
  subst features context result. split; [| reflexivity].
  unfold analyzeAudio, analyzeMood.
  cbn [fst snd temperature mood harmony bass genreHint].
  unfold determineMood.
  destruct (ltb (calculateEnergy frame) (lit 3 10)
            && ltb (lit 6 10) (analyzeHarmony frame)) eqn:Ecalm.
  - apply andb_true_iff in Ecalm. destruct Ecalm as [_ Hh].
    rewrite Hh. cbn [orb Mood_eqb]. reflexivity.
  - repeat match goal with
           | |- context [if ?c then energetic else _] => destruct c
           | |- context [if ?c then dramatic else _] => destruct c
           | |- context [if ?c then mysterious else _] => destruct c
           end; cbn [Mood_eqb orb];
      repeat match goal with
             | |- context [if ?c then _ else _] => destruct c
             end; reflexivity.
Qed.

(** X12.  Over the reals, for the features and the context that
    [analyzeAudio] returns on a frame of 128 samples in [[0, 1]], the mood of
    [analyzeMood] has its saturation in [[40, 100]] and its contrast in
    [[20, 100]], and its brightness is at most 100.  No lower bound of the
    brightness is stated: it follows the harmony through the emotional
    intensity. *)
Theorem mood_of_analysis_ranges :
  forall (this : MusicBrain R) (frame : list R),
    nominalFrame frame ->
    let result := fst (analyzeAudio this frame) in
    let colorMood := analyzeMood (fst result) (snd result) in
    (40 <= saturation colorMood <= 100)%R
    /\ (brightness colorMood <= 100)%R
    /\ (20 <= contrast colorMood <= 100)%R.
Proof.
  intros this frame Hframe result colorMood. subst colorMood result.
  unfold analyzeAudio, analyzeContext, analyzeMood.
  cbn [fst snd saturation brightness contrast energy dynamics treble harmony
       emotionalIntensity].
  pose proof (calculateEnergy_unit frame) as [He0 He1].
  pose proof (analyzeDynamics_unit frame) as [Hd0 Hd1].
  cbn [Math_min add mul div ofZ R_JSNumber].
  repeat split; try apply Rmin_l; apply Rmin_glb; lra.
Qed.

Lemma mood_of_analysis_ranges_witness :
  nominalFrame halfFrame
  /\ (40 <= saturation
              (analyzeMood
                 (fst (fst (analyzeAudio newMusicBrain halfFrame)))
                 (snd (fst (analyzeAudio newMusicBrain halfFrame))))
      <= 100)%R.
Proof.
  split; [exact nominalFrame_halfFrame |].
  exact (proj1 (@mood_of_analysis_ranges newMusicBrain halfFrame
                  nominalFrame_halfFrame)).
Defined.

(* ================================================================== *)
(** * The remainder operator over the reals *)
(* ================================================================== *)

Section Remainder.
Local Open Scope R_scope.

Lemma trunc_nonneg (x : R) : 0 <= x -> Real.trunc x = IZR (Int_part x).
Proof.
  intros Hx. unfold Real.trunc, Real.floor.
  destruct (Rle_dec 0 x); [reflexivity | contradiction].
Qed.

(** The remainder of a non-negative dividend lies in [[0, y)]. *)
Lemma rem_nonneg (x y : R) : 0 <= x -> 0 < y -> 0 <= Real.rem x y < y.
Proof.
  intros Hx Hy. unfold Real.rem.
  assert (Hq : 0 <= x / y).
  { apply Rmult_le_pos; [assumption |]. left. now apply Rinv_0_lt_compat. }
  rewrite trunc_nonneg by assumption.
  destruct (base_Int_part (x / y)) as [Hlo Hhi].
  set (q := IZR (Int_part (x / y))) in *.
  assert (Hx' : x = x / y * y) by (field; lra).
  split; nra.
Qed.

(** [r + y * k] leaves the remainder [r]. *)
Lemma rem_unique (r y : R) (k : Z) :
  0 <= r < y -> (0 <= k)%Z -> Real.rem (r + y * IZR k) y = r.
Proof.
  intros [Hr0 Hr1] Hk. unfold Real.rem.
  assert (Hy : 0 < y) by lra.
  assert (Hk' : 0 <= IZR k) by now apply IZR_le.
  assert (Hq : (r + y * IZR k) / y = r / y + IZR k) by (field; lra).
  assert (Hf : 0 <= r / y < 1).
  { split.
    - apply Rmult_le_pos; [assumption |]. left. now apply Rinv_0_lt_compat.
    - apply (Rmult_lt_reg_r y); [assumption |].
      unfold Rdiv. rewrite Rmult_assoc, Rinv_l by lra. lra. }
  rewrite trunc_nonneg by (rewrite Hq; lra).
  rewrite <- (Int_part_spec ((r + y * IZR k) / y) k) by (rewrite Hq; lra).
  ring.
Qed.

Lemma rem_small (x y : R) : 0 <= x < y -> Real.rem x y = x.
Proof.
  intros Hx. rewrite <- (@rem_unique x y 0 Hx) at 2 by lia.
  f_equal. ring.
Qed.

Lemma rem_plus_period (x y : R) : 0 <= x < y -> Real.rem (x + y) y = x.
Proof.
  intros Hx. rewrite <- (@rem_unique x y 1 Hx) at 2 by lia.
  f_equal. ring.
Qed.
End Remainder.

(* ================================================================== *)
(** * Channels of the palette *)
(* ================================================================== *)

Section LegalPalettes.
Local Open Scope R_scope.

Lemma analyzeMood_nonneg (features : AudioFeatures R)
      (context : MusicContext R) :
  0 <= energy features -> 0 <= dynamics features -> 0 <= treble features ->
  -1 <= emotionalIntensity context ->
  0 <= saturation (analyzeMood features context) <= 100
  /\ 0 <= brightness (analyzeMood features context) <= 100.
Proof.
  intros He Hd Ht Hi. unfold analyzeMood.
  cbn [saturation brightness Math_min add mul ofZ R_JSNumber].
  repeat split; try apply Rmin_l; apply Rmin_glb; nra.
Qed.

Lemma particleColor_legal (random : nat -> R)
      (baseHue saturation' lightness particleCount : R) (i : nat) :
  0 <= baseHue -> 0 < particleCount ->
  let c := particleColor random baseHue saturation' lightness particleCount i in
  0 <= hue c < 360 /\ 0 <= sat c <= 100 /\ 10 <= light c <= 90.
Proof.
  intros Hb Hn c. subst c. unfold particleColor, lit.
  cbn [hue sat light Math_max Math_min add sub mul div rem ofZ R_JSNumber].
  split; [| split].
  - apply rem_nonneg; [| lra].
    assert (0 <= 360 / particleCount).
    { apply Rmult_le_pos; [lra |]. left. now apply Rinv_0_lt_compat. }
    pose proof (pos_INR i) as Hi. rewrite INR_IZR_INZ in Hi. nra.
  - split; [apply Rmax_l |]. apply Rmax_lub; [lra | apply Rmin_l].
  - split; [apply Rmax_l |]. apply Rmax_lub; [lra | apply Rmin_l].
Qed.

Lemma valueAcc_nonneg (str : string) (acc : Z) :
  (0 <= acc)%Z -> (0 <= Regex.valueAcc str acc)%Z.
Proof.
  revert acc. induction str as [| c str IH]; intros acc Hacc; [assumption |].
  cbn [Regex.valueAcc]. apply IH. unfold Regex.digitValue. lia.
Qed.

Lemma parseInt_nonneg (digits : string) : 0 <= parseInt (num:=R) digits.
Proof.
  unfold parseInt, Regex.value. cbn [ofZ R_JSNumber].
  apply IZR_le. apply valueAcc_nonneg. lia.
Qed.

(** [parseHSL] never returns a negative number. *)
Lemma parseHSL_nonneg (str : string) :
  0 <= h (parseHSL (num:=R) str) /\ 0 <= s (parseHSL (num:=R) str)
  /\ 0 <= l (parseHSL (num:=R) str).
Proof.
  unfold parseHSL. destruct (Regex.search str) as [[[m1 m2] m3] |];
    cbn [h s l].
  - repeat split; apply parseInt_nonneg.
  - cbn [ofZ R_JSNumber]. lra.
Qed.
End LegalPalettes.

(** X13.  Over the reals, when the base hue of the genre is not negative and
    energy, dynamics and treble are not negative (emotional intensity at
    least -1), [createBasePalette] returns a palette whose primary,
    secondary and background colours are legal (hue in [[0, 360)],
    saturation and lightness in [[0, 100]]) and whose particles are legal
    with a lightness in [[10, 90]], whatever [Math.random] returns; the hue
    of the accent is legal and the glow has the hue of the primary. *)
Theorem base_palette_legal_channels :
  forall (random : nat -> R) (features : AudioFeatures R)
         (context : MusicContext R),
    (0 <= baseHueOf features context)%R ->
    (0 <= energy features)%R -> (0 <= dynamics features)%R ->
    (0 <= treble features)%R -> (-1 <= emotionalIntensity context)%R ->
    exists palette,
      createBasePalette random features context (analyzeMood features context)
      = Some palette
      /\ legalColor (primary palette)
      /\ legalColor (secondary palette)
      /\ legalColor (background palette)
      /\ Forall (fun c => legalColor c /\ (10 <= light c <= 90)%R)
                (particles palette)
      /\ (0 <= hue (accent palette) < 360)%R
      /\ hue (glow palette) = hue (primary palette).
Proof.
  intros random features context Hb He Hd Ht Hi.
  destruct (@analyzeMood_nonneg features context He Hd Ht Hi) as [Hs Hl].
  unfold createBasePalette, generateParticleColors.
  cbn [countBelow R_JSNumber]. unfold Real.countBelow.
  eexists. split; [reflexivity |].
  cbn [primary secondary background particles accent glow hue].
  set (S := saturation (analyzeMood features context)) in *.
  set (L := brightness (analyzeMood features context)) in *.
  assert (H0 : (0 <= Real.rem (baseHueOf features context) 360 < 360)%R)
    by (apply rem_nonneg; lra).
  set (baseHue := rem (baseHueOf features context) (ofZ 360)) in *.
  change (0 <= baseHue < 360)%R in H0.
  assert (Hrem : forall k : R, (0 <= k)%R ->
                   (0 <= Real.rem (baseHue + k) 360 < 360)%R)
    by (intros k Hk; apply rem_nonneg; lra).
  unfold legalColor, lit. cbn [hue sat light add mul div rem ofZ R_JSNumber].
  split; [repeat split; lra |].
  split; [split; [apply Hrem; lra | lra] |].
  split; [split; [apply Hrem; lra | lra] |].
  split; [| split; [apply Hrem; lra | reflexivity]].
  apply Forall_forall. intros c Hc. apply in_map_iff in Hc.
  destruct Hc as (i & <- & _).
  assert (Hn : (0 < Math_floor (ofZ 3 + energy features * ofZ 5)%js)%R).
  { cbn [Math_floor add mul ofZ R_JSNumber]. unfold Real.floor.
    destruct (base_Int_part (3 + energy features * 5)) as [_ Hip]. nra. }
  destruct (@particleColor_legal random baseHue S L _ i (proj1 H0) Hn)
    as (Hh & Hsat & Hlight).
  cbn [add mul ofZ R_JSNumber] in Hh, Hsat, Hlight.
  repeat split; lra.
Qed.

Lemma base_palette_legal_channels_witness :
  (0 <= baseHueOf denseFeatures denseContext)%R
  /\ (0 <= energy denseFeatures)%R /\ (0 <= dynamics denseFeatures)%R
  /\ (0 <= treble denseFeatures)%R
  /\ (-1 <= emotionalIntensity denseContext)%R
  /\ exists palette,
       createBasePalette (fun _ => (1 / 2)%R) denseFeatures denseContext
                         (analyzeMood denseFeatures denseContext)
       = Some palette
       /\ legalColor (primary palette)
       /\ legalColor (secondary palette)
       /\ legalColor (background palette)
       /\ Forall (fun c => legalColor c /\ (10 <= light c <= 90)%R)
                 (particles palette)
       /\ (0 <= hue (accent palette) < 360)%R
       /\ hue (glow palette) = hue (primary palette).
Proof.
  assert (Hb : (0 <= baseHueOf denseFeatures denseContext)%R)
    by (cbn; lra).
  assert (He : (0 <= energy denseFeatures)%R) by (cbn; lra).
  assert (Hd : (0 <= dynamics denseFeatures)%R) by (cbn; lra).
  assert (Ht : (0 <= treble denseFeatures)%R) by (cbn; lra).
  assert (Hi : (-1 <= emotionalIntensity denseContext)%R) by (cbn; lra).
  split; [exact Hb |]. split; [exact He |]. split; [exact Hd |].
  split; [exact Ht |]. split; [exact Hi |].
  exact (@base_palette_legal_channels (fun _ => (1 / 2)%R) denseFeatures
           denseContext Hb He Hd Ht Hi).
Defined.

(** X16.  Over the reals, for a factor and an intensity that are not
    negative: every colour that [intensifyPalette] rewrites (primary,
    accent, glow, particles) has a saturation in [[0, 100]] and a lightness
    in [[0, 90]], and its secondary and background are those of the
    argument; every colour that [adjustSaturation] rewrites (primary,
    secondary, accent, particles) has a saturation in [[0, 100]], and its
    glow and background are those of the argument.  The numbers rewritten
    are those [parseHSL] reads, never negative. *)
Theorem intensify_and_adjust_clamp :
  forall (palette : ColorPalette R) (factor intensity : R),
    (0 <= factor)%R -> (0 <= intensity)%R ->
    let intense := intensifyPalette palette factor in
    let adjusted := adjustSaturation palette intensity in
    Forall (fun c => (0 <= hue c)%R /\ (0 <= sat c <= 100)%R
                     /\ (0 <= light c <= 90)%R)
           (primary intense :: accent intense :: glow intense
            :: particles intense)
    /\ secondary intense = secondary palette
    /\ background intense = background palette
    /\ Forall (fun c => (0 <= hue c)%R /\ (0 <= sat c <= 100)%R
                        /\ (0 <= light c)%R)
              (primary adjusted :: secondary adjusted :: accent adjusted
               :: particles adjusted)
    /\ glow adjusted = glow palette
    /\ background adjusted = background palette.
Proof.
  intros palette factor intensity Hf Hi intense adjusted.
  assert (Hint : forall color : Color R,
             let hsl' := parseHSL (css color) in
             let c := hsl (h hsl') (Math_min (ofZ 100) (mul (s hsl') factor))
                          (Math_min (ofZ 90) (mul (l hsl') factor)) in
             (0 <= hue c)%R /\ (0 <= sat c <= 100)%R /\ (0 <= light c <= 90)%R).
  { intros color hsl' c. subst c hsl'.
    destruct (parseHSL_nonneg (css color)) as (Hh & Hs & Hl).
    cbn [hue sat light Math_min mul ofZ R_JSNumber].
    repeat split; try assumption; try apply Rmin_l; apply Rmin_glb; nra. }
  assert (Hadj : forall color : Color R,
             let hsl' := parseHSL (css color) in
             let c := hsl (h hsl')
                          (Math_min (ofZ 100)
                             (mul (s hsl')
                                  (add (ofZ 1) (mul intensity (lit 5 10)))))
                          (l hsl') in
             (0 <= hue c)%R /\ (0 <= sat c <= 100)%R /\ (0 <= light c)%R).
  { intros color hsl' c. subst c hsl'.
    destruct (parseHSL_nonneg (css color)) as (Hh & Hs & Hl).
    unfold lit. cbn [hue sat light Math_min add mul div ofZ R_JSNumber].
    repeat split; try assumption; try apply Rmin_l; apply Rmin_glb; nra. }
  subst intense adjusted. unfold intensifyPalette, adjustSaturation.
  cbn [primary secondary accent background glow particles].
  repeat split.
  - repeat (constructor; [apply Hint |]).
    apply Forall_forall. intros c Hc. apply in_map_iff in Hc.
    destruct Hc as (color & <- & _). apply Hint.
  - repeat (constructor; [apply Hadj |]).
    apply Forall_forall. intros c Hc. apply in_map_iff in Hc.
    destruct Hc as (color & <- & _). apply Hadj.
Qed.

Lemma intensify_and_adjust_clamp_witness :
  (0 <= 15 / 10)%R /\ (0 <= 9 / 10)%R
  /\ secondary (intensifyPalette greyPalette (15 / 10)%R)
     = secondary greyPalette.
Proof.
  assert (Hf : (0 <= 15 / 10)%R) by lra.
  assert (Hi : (0 <= 9 / 10)%R) by lra.
  split; [exact Hf |]. split; [exact Hi |].
  exact (proj1 (proj2 (@intensify_and_adjust_clamp greyPalette (15 / 10)%R
                         (9 / 10)%R Hf Hi))).
Defined.

(* ================================================================== *)
(** * What the refinement and the smoothing leave alone *)
(* ================================================================== *)

Section PaletteStructure.
Context {num : Type} `{JSNumber num}.

Lemma background_refineForContext random next (palette : ColorPalette num)
      (context : MusicContext num) :
  background (refineForContext random next palette context)
  = background palette.
Proof.
  unfold refineForContext.
  destruct (beatDrop context), (vocalPresence context),
    (ltb (lit 7 10) (instrumentalDensity context)),
    (ltb (lit 8 10) (emotionalIntensity context)); reflexivity.
Qed.

(** The loop of [addComplexity] over indices inside the array: the index
    [i % particles.length] is [i], and each round pushes one colour. *)
Lemma addComplexity_fold random next (particles : list (Color num))
      (indices : list nat) (acc : list (Color num)) :
  Forall (fun i => (i < length particles)%nat) indices ->
  fold_left
    (fun complexParticles i =>
       match nth_error particles (i mod length particles)%nat with
       | None => complexParticles
       | Some baseColor =>
           let hsl' := parseHSL (css baseColor) in
           let variation :=
             hsl (rem (add hsl'.(h)
                           (mul (sub (random (next + i)%nat) (lit 5 10))
                                (ofZ 60)))
                      (ofZ 360))
                 hsl'.(s) hsl'.(l) in
           push complexParticles variation
       end)
    indices acc
  = acc ++ map (fun i =>
                  variationOf (random (next + i)%nat)
                              (nth i particles (hsl (ofZ 0) (ofZ 0) (ofZ 0))))
               indices.
Proof.
  intros Hall. revert acc.
  induction Hall as [| i indices Hi Hall IH]; intros acc.
  - cbn [fold_left map]. now rewrite app_nil_r.
  - cbn [fold_left map]. rewrite Nat.mod_small by assumption.
    rewrite (nth_error_nth' particles (hsl (ofZ 0) (ofZ 0) (ofZ 0)) Hi).
    rewrite IH. unfold push, variationOf. now rewrite <- app_assoc.
Qed.

Lemma nth_error_last {A} (arr : list A) (d : A) :
  arr <> [] -> nth_error arr (length arr - 1) = Some (last arr d).
Proof.
  induction arr as [| a arr IH]; [contradiction |]. intros _.
  destruct arr as [| b arr]; [reflexivity |].
  specialize (IH ltac:(discriminate)).
  cbn [length] in *.
  replace (S (S (length arr)) - 1)%nat with (S (length arr)) by lia.
  replace (S (length arr) - 1)%nat with (length arr) in IH by lia.
  cbn [nth_error]. rewrite IH. reflexivity.
Qed.

Lemma skipn_mapi_from {A B} (f : A -> nat -> B) (g : A -> B) (arr : list A)
      (i k : nat) :
  (forall a j, (i + k <= j)%nat -> f a j = g a) ->
  skipn k (mapi_from i f arr) = map g (skipn k arr).
Proof.
  revert i k. induction arr as [| a arr IH]; intros i k Hf.
  - now destruct k.
  - destruct k as [| k].
    + cbn [skipn mapi_from map]. rewrite Hf by lia. f_equal.
      specialize (IH (S i) 0%nat). cbn [skipn] in IH. apply IH.
      intros b j Hj. apply Hf. lia.
    + cbn [skipn mapi_from]. apply IH. intros b j Hj. apply Hf. lia.
Qed.

(** Past the particles of the last palette, the new particles are kept as
    they are. *)
Lemma smoothTransition_particles_beyond (this : ColorBrain num)
      (newPalette : ColorPalette num) :
  let lastPalette := last (colorHistory this) newPalette in
  skipn (length (particles lastPalette))
        (particles (smoothTransition this newPalette))
  = skipn (length (particles lastPalette)) (particles newPalette).
Proof.
  cbv zeta. unfold smoothTransition.
  destruct (colorHistory this) as [| p history]; [reflexivity |].
  change (length (p :: history) =? 0)%nat with false. cbv iota.
  rewrite (@nth_error_last _ (p :: history) newPalette) by discriminate.
  set (lastPalette := last (p :: history) newPalette).
  cbn [particles]. unfold mapi.
  rewrite (@skipn_mapi_from _ _ _ (fun color => color)).
  - now rewrite map_id.
  - intros a j Hj. cbn [Nat.add] in Hj.
    destruct (nth_error (particles lastPalette) j) eqn:En; [| reflexivity].
    assert (j < length (particles lastPalette))%nat
      by (apply nth_error_Some; rewrite En; discriminate).
    lia.
Qed.
End PaletteStructure.

(** X14.  [refineForContext] never changes the background: none of
    [intensifyPalette], [addWarmth], [addComplexity] and [adjustSaturation]
    rewrites it.  So the background of the first palette of a new
    ColorBrain, which is not smoothed, is the one [createBasePalette]
    wrote: the hue opposite the base hue, 0.3 times the saturation and 0.2
    times the brightness of the mood.  This holds for every arithmetic. *)
Theorem refinement_keeps_background :
  forall (num : Type) (N : JSNumber num) (random : nat -> num) (next : nat)
         (palette : ColorPalette num) (features : AudioFeatures num)
         (context : MusicContext num),
    background (refineForContext random next palette context)
    = background palette
    /\ match generatePalette random newColorBrain features context with
       | Some (first, _) =>
           let colorMood := analyzeMood features context in
           let baseHue := rem (baseHueOf features context) (ofZ 360) in
           background first =
             hsl (rem (add baseHue (ofZ 180)) (ofZ 360))
                 (mul (saturation colorMood) (lit 3 10))
                 (mul (brightness colorMood) (lit 2 10))
       | None => True
       end.
Proof.
  intros num N random next palette features context.
  split; [apply background_refineForContext |].
  unfold generatePalette.
  destruct (createBasePalette random features context
                              (analyzeMood features context))
    as [base |] eqn:E; [| exact I].
  cbn [smoothTransition newColorBrain colorHistory length Nat.eqb].
  rewrite background_refineForContext.
  unfold createBasePalette in E.
  destruct (generateParticleColors _ _ _ _ _); [| discriminate].
  injection E as <-. reflexivity.
Qed.

(** X15.  [addComplexity] returns the particles it was given, unchanged and
    in order, followed by [min(5, floor(length / 2))] new colours; the
    [i]-th new colour is derived from the [i]-th particle, of which it keeps
    the saturation and the lightness that [parseHSL] reads, with the hue
    moved by [(random - 0.5) * 60] and reduced by [% 360].  This holds for
    every arithmetic. *)
Theorem addComplexity_appends_variations :
  forall (num : Type) (N : JSNumber num) (random : nat -> num) (next : nat)
         (particles : list (Color num)),
    addComplexity random next particles =
      particles
      ++ map (fun i =>
                variationOf (random (next + i)%nat)
                            (nth i particles (hsl (ofZ 0) (ofZ 0) (ofZ 0))))
             (seq 0 (Nat.min 5 (length particles / 2))).
Proof.
  intros num N random next particles.
  unfold addComplexity. apply addComplexity_fold.
  apply Forall_forall. intros i Hi. apply in_seq in Hi.
  destruct (length particles) eqn:E; [simpl in Hi; lia |].
  assert (S n / 2 < S n)%nat by (apply Nat.div_lt; lia).
  lia.
Qed.

(** X17.  [smoothTransition] returns the new palette itself while the
    history is empty.  Otherwise it blends with the last palette of the
    history, at the transition speed; the result has as many particles as
    the new palette, and the particles past the count of the last palette
    are those of the new palette, not blended.  This holds for every
    arithmetic. *)
Theorem smoothTransition_blends_common_particles :
  forall (num : Type) (N : JSNumber num) (this : ColorBrain num)
         (newPalette : ColorPalette num),
    let lastPalette := last (colorHistory this) newPalette in
    let result := smoothTransition this newPalette in
    length (particles result) = length (particles newPalette)
    /\ skipn (length (particles lastPalette)) (particles result)
       = skipn (length (particles lastPalette)) (particles newPalette)
    /\ match colorHistory this with
       | [] => result = newPalette
       | _ :: _ =>
           primary result =
             blend (transitionSpeed this) (primary lastPalette)
                   (primary newPalette)
           /\ background result =
                blend (transitionSpeed this) (background lastPalette)
                      (background newPalette)
       end.
Proof.
  intros num N this newPalette lastPalette result.
  split; [apply length_particles_smooth |].
  split; [apply smoothTransition_particles_beyond |].
  subst result lastPalette. unfold smoothTransition.
  destruct (colorHistory this) as [| p history]; [reflexivity |].
  change (length (p :: history) =? 0)%nat with false. cbv iota.
  rewrite (@nth_error_last _ (p :: history) newPalette) by discriminate.
  split; reflexivity.
Qed.

(* ================================================================== *)
(** * Hues on the colour wheel *)
(* ================================================================== *)

Section Hues.
Local Open Scope R_scope.

(** The signed difference that [interpolateHue] scales by [t].  The
    remainder keeps the sign of its dividend, so a difference below -180 is
    not brought back into [[-180, 180)]. *)
Lemma interpolateHue_diff (h1 h2 : R) :
  0 <= h1 < 360 -> 0 <= h2 < 360 ->
  Real.rem (h2 - h1 + 180) 360 - 180
  = if Real.ltb (h2 - h1) 180 then h2 - h1 else h2 - h1 - 360.
Proof.
  intros Hh1 Hh2. unfold Real.ltb.
  destruct (Rlt_dec (h2 - h1) 180) as [Hlt | Hge].
  - destruct (Rle_dec 0 (h2 - h1 + 180)) as [Hpos | Hneg].
    + rewrite rem_small by lra. lra.
    + assert (Hq : -1 < (h2 - h1 + 180) / 360 < 0).
      { split.
        - apply (Rmult_lt_reg_r 360); [lra |].
          unfold Rdiv. rewrite Rmult_assoc, Rinv_l by lra. lra.
        - apply (Rmult_lt_reg_r 360); [lra |].
          unfold Rdiv. rewrite Rmult_assoc, Rinv_l by lra. lra. }
      unfold Real.rem, Real.trunc, Real.floor.
      destruct (Rle_dec 0 ((h2 - h1 + 180) / 360)); [lra |].
      rewrite <- (Int_part_spec (- ((h2 - h1 + 180) / 360)) 0)
        by (simpl; lra).
      simpl. lra.
  - replace (h2 - h1 + 180) with ((h2 - h1 - 180) + 360 * IZR 1)
      by (simpl; ring).
    rewrite rem_unique by (lra || lia). lra.
Qed.

Lemma interpolateHue_formula (h1 h2 t : R) :
  0 <= h1 < 360 -> 0 <= h2 < 360 ->
  interpolateHue h1 h2 t =
    Real.rem (h1 + (if Real.ltb (h2 - h1) 180 then h2 - h1
                    else h2 - h1 - 360) * t + 360) 360.
Proof.
  intros Hh1 Hh2. unfold interpolateHue.
  cbn [add sub mul rem ofZ R_JSNumber].
  now rewrite interpolateHue_diff.
Qed.

Lemma interpolateHue_range (h1 h2 t : R) :
  0 <= h1 < 360 -> 0 <= h2 < 360 -> 0 <= t <= 1 ->
  0 <= interpolateHue h1 h2 t < 360.
Proof.
  intros Hh1 Hh2 Ht. rewrite interpolateHue_formula by assumption.
  apply rem_nonneg; [| lra].
  unfold Real.ltb. destruct (Rlt_dec (h2 - h1) 180); nra.
Qed.

Lemma interpolateHue_one (h1 h2 : R) :
  0 <= h1 < 360 -> 0 <= h2 < 360 -> interpolateHue h1 h2 1 = h2.
Proof.
  intros Hh1 Hh2. rewrite interpolateHue_formula by assumption.
  unfold Real.ltb. destruct (Rlt_dec (h2 - h1) 180).
  - replace (h1 + (h2 - h1) * 1 + 360) with (h2 + 360) by ring.
    now apply rem_plus_period.
  - replace (h1 + (h2 - h1 - 360) * 1 + 360) with h2 by ring.
    now apply rem_small.
Qed.

Lemma interpolateHue_same (hue' t : R) :
  0 <= hue' < 360 -> interpolateHue hue' hue' t = hue'.
Proof.
  intros Hh. rewrite interpolateHue_formula by assumption.
  replace (hue' - hue') with 0 by ring.
  unfold Real.ltb. destruct (Rlt_dec 0 180); [| lra].
  replace (hue' + 0 * t + 360) with (hue' + 360) by ring.
  now apply rem_plus_period.
Qed.
End Hues.

(** X18.  Over the reals, for two hues in [[0, 360)] and [t] in [[0, 1]]:
    [interpolateHue] answers a hue in [[0, 360)]; it is the first hue at
    [t = 0] and the second at [t = 1]; in between it is
    [(h1 + diff * t + 360) % 360] where [diff] is [h2 - h1] when that is
    below 180 and [h2 - h1 - 360] otherwise.  So a difference below -180 is
    walked the long way round the wheel: [%] keeps the sign of a negative
    dividend. *)
Theorem interpolateHue_between_hues :
  forall (h1 h2 t : R),
    (0 <= h1 < 360)%R -> (0 <= h2 < 360)%R -> (0 <= t <= 1)%R ->
    (0 <= interpolateHue h1 h2 t < 360)%R
    /\ interpolateHue h1 h2 0%R = h1
    /\ interpolateHue h1 h2 1%R = h2
    /\ interpolateHue h1 h2 t =
         Real.rem (h1 + (if Real.ltb (h2 - h1) 180 then h2 - h1
                         else h2 - h1 - 360) * t + 360)%R 360.
Proof.
  intros h1 h2 t Hh1 Hh2 Ht.
  split; [now apply interpolateHue_range |].
  split; [| split; [now apply interpolateHue_one
                   | now apply interpolateHue_formula]].
  rewrite interpolateHue_formula by assumption.
  match goal with
  | |- Real.rem (h1 + ?d * 0 + 360)%R 360 = h1 =>
      replace (h1 + d * 0 + 360)%R with (h1 + 360)%R by ring
  end.
  now apply rem_plus_period.
Qed.

Lemma interpolateHue_between_hues_witness :
  (0 <= 350 < 360)%R /\ (0 <= 10 < 360)%R /\ (0 <= 1 / 10 <= 1)%R
  /\ (0 <= interpolateHue 350%R 10%R (1 / 10)%R < 360)%R.
Proof.
  assert (H1 : (0 <= 350 < 360)%R) by lra.
  assert (H2 : (0 <= 10 < 360)%R) by lra.
  assert (Ht : (0 <= 1 / 10 <= 1)%R) by lra.
  split; [exact H1 |]. split; [exact H2 |]. split; [exact Ht |].
  exact (proj1 (@interpolateHue_between_hues 350%R 10%R (1 / 10)%R H1 H2 Ht)).
Defined.

(** X19.  Over the reals, for a hue in [[0, 360)] and an amount in
    [[0, 1]], [shiftTowardsWarmth] moves the hue the fraction [amount] of
    the way to a target and stays between the two.  The target is the
    nearest of 0, 30 and 60 by plain difference, not round the wheel: 0 up
    to hue 15, 30 up to hue 45, and 60 for every hue above 45, the reds near
    360 included. *)
Theorem shiftTowardsWarmth_target :
  forall (hue' amount : R),
    (0 <= hue' < 360)%R -> (0 <= amount <= 1)%R ->
    let target :=
      if Real.ltb 45 hue' then 60%R
      else if Real.ltb 15 hue' then 30%R else 0%R in
    shiftTowardsWarmth hue' amount = (hue' + (target - hue') * amount)%R
    /\ (Rmin hue' target <= shiftTowardsWarmth hue' amount
        <= Rmax hue' target)%R.
Proof.
  intros hue' amount Hh Ha target.
  assert (Hc : fold_left
                 (fun closest warmHue =>
                    if ltb (Math_abs (sub hue' warmHue))
                           (Math_abs (sub hue' closest))
                    then warmHue else closest)
                 [ofZ 30; ofZ 60] (ofZ 0) = target).
  { subst target. cbn [fold_left ltb sub Math_abs ofZ R_JSNumber].
    assert (E1 : (if Real.ltb (Rabs (hue' - 30)) (Rabs (hue' - 0))
                  then 30 else 0)%R
                 = (if Real.ltb 15 hue' then 30 else 0)%R).
    { unfold Real.ltb, Rabs.
      destruct (Rcase_abs (hue' - 30)), (Rcase_abs (hue' - 0));
        destruct (Rlt_dec _ _), (Rlt_dec 15 hue'); try reflexivity; lra. }
    rewrite E1. unfold Real.ltb at 2 4.
    destruct (Rlt_dec 15 hue');
      unfold Real.ltb, Rabs;
      repeat match goal with
             | |- context [Rcase_abs ?a] => destruct (Rcase_abs a)
             end;
      repeat match goal with
             | |- context [Rlt_dec ?a ?b] => destruct (Rlt_dec a b)
             end; try reflexivity; lra. }
  assert (Ht : (0 <= target <= 60)%R).
  { subst target. unfold Real.ltb.
    destruct (Rlt_dec 45 hue'), (Rlt_dec 15 hue'); lra. }
  assert (Hv : (0 <= hue' + (target - hue') * amount < 360)%R) by nra.
  assert (E : shiftTowardsWarmth hue' amount
              = (hue' + (target - hue') * amount)%R).
  { unfold shiftTowardsWarmth. rewrite Hc.
    cbn [add sub mul rem ofZ R_JSNumber]. now apply rem_plus_period. }
  split; [exact E |]. rewrite E.
  unfold Rmin, Rmax. destruct (Rle_dec hue' target); nra.
Qed.

Lemma shiftTowardsWarmth_target_witness :
  (0 <= 350 < 360)%R /\ (0 <= 3 / 10 <= 1)%R
  /\ shiftTowardsWarmth 350%R (3 / 10)%R
     = (350 + ((if Real.ltb 45 350 then 60
                else if Real.ltb 15 350 then 30 else 0) - 350) * (3 / 10))%R.
Proof.
  assert (Hh : (0 <= 350 < 360)%R) by lra.
  assert (Ha : (0 <= 3 / 10 <= 1)%R) by lra.
  split; [exact Hh |]. split; [exact Ha |].
  exact (proj1 (@shiftTowardsWarmth_target 350%R (3 / 10)%R Hh Ha)).
Defined.

(** X20.  Over the reals, [setTransitionSpeed] stores the speed clamped
    into [[0.01, 1]]: 0.01 for a smaller argument, 1 for a larger one, the
    argument itself otherwise.  It leaves the history as it is. *)
Theorem setTransitionSpeed_clamps :
  forall (this : ColorBrain R) (speed : R),
    let this' := setTransitionSpeed this speed in
    (1 / 100 <= transitionSpeed this' <= 1)%R
    /\ transitionSpeed this' =
         (if Real.ltb speed (1 / 100) then (1 / 100)%R
          else if Real.ltb 1 speed then 1%R else speed)
    /\ colorHistory this' = colorHistory this.
Proof.
  intros this speed this'. subst this'. unfold setTransitionSpeed, lit.
  cbn [transitionSpeed colorHistory Math_max Math_min div ofZ R_JSNumber].
  unfold Rmin. destruct (Rle_dec 1 speed);
    unfold Rmax; destruct (Rle_dec _ _);
    unfold Real.ltb; destruct (Rlt_dec speed (1 / 100)), (Rlt_dec 1 speed);
    repeat split; try reflexivity; lra.
Qed.

(* ================================================================== *)
(** * Colours written with integers *)
(* ================================================================== *)

Section Decimal.
Import Regex Digits.
Local Open Scope string_scope.
Local Open Scope Z_scope.

Lemma digitChar_spec (d : Z) :
  0 <= d < 10 -> isDigit (digitChar d) = true /\ digitValue (digitChar d) = d.
Proof.
  intros Hd.
  assert (Hc : d = 0 \/ d = 1 \/ d = 2 \/ d = 3 \/ d = 4 \/ d = 5 \/ d = 6
               \/ d = 7 \/ d = 8 \/ d = 9) by lia.
  repeat (destruct Hc as [-> | Hc]; [split; reflexivity |]).
  subst d. split; reflexivity.
Qed.

Lemma valueAcc_app (a b : string) (acc : Z) :
  valueAcc (a ++ b) acc = valueAcc b (valueAcc a acc).
Proof.
  revert acc. induction a as [| c a IH]; intros acc; [reflexivity |].
  cbn [append valueAcc]. apply IH.
Qed.

Lemma append_assoc (a b c : string) : (a ++ b) ++ c = a ++ b ++ c.
Proof.
  induction a as [| x a IH]; [reflexivity |].
  cbn [append]. now rewrite IH.
Qed.

Lemma append_empty (a : string) : a ++ EmptyString = a.
Proof.
  induction a as [| x a IH]; [reflexivity |].
  cbn [append]. now rewrite IH.
Qed.

Lemma length_snoc (a : string) (c : ascii) :
  String.length (a ++ String c EmptyString) = S (String.length a).
Proof.
  induction a as [| x a IH]; [reflexivity |].
  cbn [append String.length]. now rewrite IH.
Qed.

(** The digits are written in front of [acc]; read back after [a], they
    give [a] shifted by their number, plus [z]. *)
Lemma digitsAcc_spec (fuel : nat) (z : Z) (acc : string) :
  (0 < fuel)%nat -> 0 <= z < 2 ^ Z.of_nat fuel ->
  exists ds,
    digitsAcc fuel z acc = ds ++ acc
    /\ all isDigit ds = true /\ ds <> EmptyString
    /\ forall a, valueAcc ds a = a * 10 ^ Z.of_nat (String.length ds) + z.
Proof.
  revert z acc. induction fuel as [| fuel IH]; intros z acc Hf Hz; [lia |].
  cbn [digitsAcc].
  assert (Hm : 0 <= z mod 10 < 10) by (apply Z.mod_pos_bound; lia).
  destruct (digitChar_spec Hm) as [Hd Hv].
  destruct (Z.ltb_spec z 10) as [Hlt | Hge].
  - exists (String (digitChar (z mod 10)) EmptyString).
    cbn [append all valueAcc String.length]. rewrite Hd, Hv.
    rewrite Z.mod_small by lia.
    repeat split; [discriminate |]. intros a.
    change (10 ^ Z.of_nat 1) with 10. lia.
  - assert (Hfuel : (0 < fuel)%nat).
    { destruct fuel; [| lia]. change (2 ^ Z.of_nat 1) with 2 in Hz. lia. }
    assert (Hq : 0 <= z / 10 < 2 ^ Z.of_nat fuel).
    { split; [apply Z.div_pos; lia |].
      apply Z.div_lt_upper_bound; [lia |].
      rewrite Nat2Z.inj_succ, Z.pow_succ_r in Hz by lia. lia. }
    destruct (IH (z / 10) (String (digitChar (z mod 10)) acc) Hfuel Hq)
      as (ds & E & Hall & Hne & Hval).
    exists (ds ++ String (digitChar (z mod 10)) EmptyString).
    rewrite E, append_assoc. cbn [append].
    split; [reflexivity |].
    split; [rewrite all_app; cbn [all]; now rewrite Hall, Hd |].
    split; [destruct ds; [contradiction | discriminate] |].
    intros a. rewrite valueAcc_app. cbn [valueAcc]. rewrite Hval, Hv.
    rewrite length_snoc, Nat2Z.inj_succ, Z.pow_succ_r by lia.
    pose proof (Z.div_mod z 10 ltac:(lia)). lia.
Qed.

(** A non-negative integer is written with digits only, and [parseInt]
    reads it back. *)
Lemma decimal_spec (z : Z) :
  0 <= z -> digitString (decimal z) = true /\ value (decimal z) = z.
Proof.
  intros Hz. unfold decimal.
  assert (Hb : 0 <= z < 2 ^ Z.of_nat (S (Z.to_nat (Z.log2 z)))).
  { split; [assumption |].
    rewrite Nat2Z.inj_succ, Z2Nat.id by apply Z.log2_nonneg.
    destruct (Z.eq_dec z 0) as [-> | Hne]; [reflexivity |].
    apply Z.log2_spec. lia. }
  destruct (@digitsAcc_spec (S (Z.to_nat (Z.log2 z))) z EmptyString
              ltac:(lia) Hb) as (ds & E & Hall & Hne & Hval).
  rewrite E, append_empty. split.
  - unfold digitString. destruct ds; [contradiction | assumption].
  - unfold value. rewrite Hval. lia.
Qed.

Lemma digitString_number (str : string) :
  digitString str = true -> all isNumberChar str = true.
Proof.
  unfold digitString. destruct str as [| x str]; [discriminate |].
  generalize (String x str). clear. intros str.
  induction str as [| c str IH]; [reflexivity |].
  cbn [all]. intros Hs. apply andb_true_iff in Hs.
  destruct Hs as [Hc Hs]. now rewrite (isDigit_isNumberChar _ Hc), IH.
Qed.
End Decimal.

Section IntegerColours.
Context {num : Type} `{JSNumber num}.

(** The template filled with three non-negative integers is read back. *)
Lemma parseHSL_template_decimal (a b c : Z) :
  (0 <= a)%Z -> (0 <= b)%Z -> (0 <= c)%Z ->
  parseHSL (Regex.template (Digits.decimal a) (Digits.decimal b)
                           (Digits.decimal c))
  = mkHSL (ofZ a) (ofZ b) (ofZ c).
Proof.
  intros Ha Hb Hc.
  destruct (decimal_spec Ha) as [Da Va].
  destruct (decimal_spec Hb) as [Db Vb].
  destruct (decimal_spec Hc) as [Dc Vc].
  unfold parseHSL.
  rewrite search_template by (apply digitString_number; assumption).
  rewrite Da, Db, Dc. cbn [andb]. unfold parseInt.
  now rewrite Va, Vb, Vc.
Qed.
End IntegerColours.

(** X21.  A non-negative integer written in decimal is a run of digits
    that [parseInt] reads back as the integer, and [parseHSL] reads the
    template [hsl(a, b%, c%)] filled with three such integers back as
    [{h: a, s: b, l: c}].  This holds for every arithmetic. *)
Theorem parseHSL_reads_back_integers :
  forall (num : Type) (N : JSNumber num) (a b c : Z),
    (0 <= a)%Z -> (0 <= b)%Z -> (0 <= c)%Z ->
    Regex.digitString (Digits.decimal a) = true
    /\ parseInt (Digits.decimal a) = ofZ a
    /\ parseHSL (Regex.template (Digits.decimal a) (Digits.decimal b)
                                (Digits.decimal c))
       = mkHSL (ofZ a) (ofZ b) (ofZ c).
Proof.
  intros num N a b c Ha Hb Hc.
  destruct (decimal_spec Ha) as [Da Va].
  split; [exact Da |].
  split; [unfold parseInt; now rewrite Va |].
  now apply parseHSL_template_decimal.
Qed.

Lemma parseHSL_reads_back_integers_witness :
  (0 <= 210)%Z /\ (0 <= 56)%Z /\ (0 <= 40)%Z
  /\ parseHSL (num:=float)
       (Regex.template (Digits.decimal 210) (Digits.decimal 56)
                       (Digits.decimal 40))
     = mkHSL (ofZ 210) (ofZ 56) (ofZ 40).
Proof.
  assert (Ha : (0 <= 210)%Z) by lia.
  assert (Hb : (0 <= 56)%Z) by lia.
  assert (Hc : (0 <= 40)%Z) by lia.
  split; [exact Ha |]. split; [exact Hb |]. split; [exact Hc |].
  exact (proj2 (proj2 (@parseHSL_reads_back_integers float float_JSNumber
                         210%Z 56%Z 40%Z Ha Hb Hc))).
Defined.

Section CssRoundTrip.
Import Digits.
Local Open Scope Z_scope.

(** Number::toString on the doubles of the integers 0 .. 360. *)
Lemma toString_small_integers :
  forallb (fun n => String.eqb (toString (ofZ (num:=float) (Z.of_nat n)))
                               (decimal (Z.of_nat n)))
          (seq 0 361) = true.
Proof. vm_compute. reflexivity. Qed.

Lemma toString_binary64_integer (z : Z) :
  0 <= z <= 360 -> toString (ofZ (num:=float) z) = decimal z.
Proof.
  intros Hz. pose proof toString_small_integers as Hall.
  rewrite forallb_forall in Hall.
  specialize (Hall (Z.to_nat z)).
  rewrite Z2Nat.id in Hall by lia.
  apply String.eqb_eq, Hall, in_seq. lia.
Qed.

Lemma toString_real_integer (z : Z) :
  0 <= z < 10 ^ 21 -> toString (ofZ (num:=R) z) = decimal z.
Proof.
  intros Hz. cbn [toString ofZ R_JSNumber]. unfold Real.toString.
  assert (Hpos : (0 <= IZR z)%R) by (apply IZR_le; lia).
  rewrite Rabs_pos_eq, Int_part_IZR by assumption.
  rewrite (proj2 (Reqb_true (IZR z) (IZR z)) eq_refl).
  destruct (Z.ltb_spec z (10 ^ 21)); [| lia]. cbn [andb].
  destruct (Rlt_dec (IZR z) 0); [lra | reflexivity].
Qed.

Lemma parseHSL_css_integers (a b c : Z) :
  0 <= a < 10 ^ 21 -> 0 <= b < 10 ^ 21 -> 0 <= c < 10 ^ 21 ->
  parseHSL (css (hsl (IZR a) (IZR b) (IZR c))) = mkHSL (IZR a) (IZR b) (IZR c).
Proof.
  intros Ha Hb Hc. unfold css. cbn [hue sat light].
  change (IZR a) with (ofZ (num:=R) a). change (IZR b) with (ofZ (num:=R) b).
  change (IZR c) with (ofZ (num:=R) c).
  rewrite !toString_real_integer by assumption.
  apply parseHSL_template_decimal; lia.
Qed.
End CssRoundTrip.

(** X22.  In binary64, a colour whose three channels are integers, the hue
    from 0 to 360 and saturation and lightness from 0 to 100, is written by
    the template with digits only, and [parseHSL] reads the string back as
    the same three numbers. *)
Theorem parseHSL_css_round_trip_binary64 :
  forall (a b c : Z),
    (0 <= a <= 360)%Z -> (0 <= b <= 100)%Z -> (0 <= c <= 100)%Z ->
    let color : Color float := hsl (ofZ a) (ofZ b) (ofZ c) in
    css color = Regex.template (Digits.decimal a) (Digits.decimal b)
                               (Digits.decimal c)
    /\ integral color = true
    /\ parseHSL (css color) = mkHSL (ofZ a) (ofZ b) (ofZ c).
Proof.
  intros a b c Ha Hb Hc color.
  assert (E : css color = Regex.template (Digits.decimal a) (Digits.decimal b)
                                         (Digits.decimal c)).
  { subst color. unfold css. cbn [hue sat light].
    now rewrite !toString_binary64_integer by lia. }
  split; [exact E |]. split.
  - subst color. unfold integral. cbn [hue sat light].
    rewrite !toString_binary64_integer by lia.
    destruct (@decimal_spec a ltac:(lia)) as [-> _].
    destruct (@decimal_spec b ltac:(lia)) as [-> _].
    destruct (@decimal_spec c ltac:(lia)) as [-> _].
    reflexivity.
  - rewrite E. apply parseHSL_template_decimal; lia.
Qed.

Lemma parseHSL_css_round_trip_binary64_witness :
  (0 <= 210 <= 360)%Z /\ (0 <= 56 <= 100)%Z /\ (0 <= 40 <= 100)%Z
  /\ parseHSL (css (hsl (ofZ (num:=float) 210) (ofZ 56) (ofZ 40)))
     = mkHSL (ofZ 210) (ofZ 56) (ofZ 40).
Proof.
  assert (Ha : (0 <= 210 <= 360)%Z) by lia.
  assert (Hb : (0 <= 56 <= 100)%Z) by lia.
  assert (Hc : (0 <= 40 <= 100)%Z) by lia.
  split; [exact Ha |]. split; [exact Hb |]. split; [exact Hc |].
  exact (proj2 (proj2 (@parseHSL_css_round_trip_binary64 210%Z 56%Z 40%Z
                         Ha Hb Hc))).
Defined.

(** X23.  Over the reals, [blend] of two colours whose channels are
    integers in the legal ranges reads both back and answers the hue of
    [interpolateHue] and the saturation and lightness moved the fraction
    [speed] of the way from the last colour to the new one.  For a speed in
    [[0, 1]] the result is a legal colour; at speed 1 it is the new colour;
    and a colour blended with itself is returned as it is, at any speed. *)
Theorem blend_of_integer_colours :
  forall (speed : R) (h1 s1 l1 h2 s2 l2 : Z),
    (0 <= speed <= 1)%R ->
    (0 <= h1 < 360)%Z -> (0 <= s1 <= 100)%Z -> (0 <= l1 <= 100)%Z ->
    (0 <= h2 < 360)%Z -> (0 <= s2 <= 100)%Z -> (0 <= l2 <= 100)%Z ->
    let lastColor := hsl (IZR h1) (IZR s1) (IZR l1) in
    let newColor := hsl (IZR h2) (IZR s2) (IZR l2) in
    blend speed lastColor newColor =
      hsl (interpolateHue (IZR h1) (IZR h2) speed)
          (IZR s1 + (IZR s2 - IZR s1) * speed)%R
          (IZR l1 + (IZR l2 - IZR l1) * speed)%R
    /\ legalColor (blend speed lastColor newColor)
    /\ blend 1%R lastColor newColor = newColor
    /\ blend speed newColor newColor = newColor.
Proof.
  intros speed h1 s1 l1 h2 s2 l2 Hs Hh1 Hs1 Hl1 Hh2 Hs2 Hl2 lastColor newColor.
  assert (P1 : parseHSL (css lastColor) = mkHSL (IZR h1) (IZR s1) (IZR l1))
    by (apply parseHSL_css_integers; lia).
  assert (P2 : parseHSL (css newColor) = mkHSL (IZR h2) (IZR s2) (IZR l2))
    by (apply parseHSL_css_integers; lia).
  assert (R1 : (0 <= IZR h1 < 360)%R)
    by (split; [apply IZR_le | apply IZR_lt]; lia).
  assert (R2 : (0 <= IZR h2 < 360)%R)
    by (split; [apply IZR_le | apply IZR_lt]; lia).
  assert (B1 : (0 <= IZR s1 <= 100)%R) by (split; apply IZR_le; lia).
  assert (B2 : (0 <= IZR s2 <= 100)%R) by (split; apply IZR_le; lia).
  assert (C1 : (0 <= IZR l1 <= 100)%R) by (split; apply IZR_le; lia).
  assert (C2 : (0 <= IZR l2 <= 100)%R) by (split; apply IZR_le; lia).
  assert (E : forall t, blend t lastColor newColor =
                hsl (interpolateHue (IZR h1) (IZR h2) t)
                    (IZR s1 + (IZR s2 - IZR s1) * t)%R
                    (IZR l1 + (IZR l2 - IZR l1) * t)%R).
  { intros t. unfold blend. rewrite P1, P2. reflexivity. }
  split; [apply E |]. rewrite !E.
  split; [| split].
  - unfold legalColor. cbn [hue sat light].
    split; [now apply interpolateHue_range |]. split; nra.
  - rewrite interpolateHue_one by assumption. subst newColor. f_equal; ring.
  - unfold blend. rewrite P2. cbn [h s l].
    rewrite interpolateHue_same by assumption.
    subst newColor. cbn [add sub mul R_JSNumber]. f_equal; ring.
Qed.

Lemma blend_of_integer_colours_witness :
  (0 <= 1 / 10 <= 1)%R
  /\ (0 <= 350 < 360)%Z /\ (0 <= 56 <= 100)%Z /\ (0 <= 40 <= 100)%Z
  /\ (0 <= 10 < 360)%Z /\ (0 <= 80 <= 100)%Z /\ (0 <= 60 <= 100)%Z
  /\ legalColor (blend (1 / 10)%R (hsl 350%R 56%R 40%R) (hsl 10%R 80%R 60%R)).
Proof.
  assert (Hs : (0 <= 1 / 10 <= 1)%R) by lra.
  assert (H1 : (0 <= 350 < 360)%Z) by lia.
  assert (H2 : (0 <= 56 <= 100)%Z) by lia.
  assert (H3 : (0 <= 40 <= 100)%Z) by lia.
  assert (H4 : (0 <= 10 < 360)%Z) by lia.
  assert (H5 : (0 <= 80 <= 100)%Z) by lia.
  assert (H6 : (0 <= 60 <= 100)%Z) by lia.
  repeat (split; [assumption |]).
  exact (proj1 (proj2 (@blend_of_integer_colours (1 / 10)%R 350%Z 56%Z 40%Z
                         10%Z 80%Z 60%Z Hs H1 H2 H3 H4 H5 H6))).
Defined.

(* ================================================================== *)
(** * The neural mode: nodes, strokes and fills *)
(* ================================================================== *)

Section Ring.
Local Open Scope R_scope.

Lemma cos_PI10_above_half : 1 / 2 < cos (PI / 10).
Proof.
  rewrite <- cos_PI3. pose proof PI_RGT_0.
  apply cos_decreasing_1; lra.
Qed.

(** The node that the node loop creates for index [i]. *)
Lemma nth_error_createNodes (centerX centerY : R) (data : list R) (time : R)
      (i : nat) :
  (i < 20)%nat ->
  nth_error (createNodes sin cos PI centerX centerY data time) i =
    Some (mkNode
            (centerX + cos (INR i / 20 * PI * 2)
                       * (100 + sin (time + INR i) * 50))
            (centerY + sin (INR i / 20 * PI * 2)
                       * (100 + sin (time + INR i) * 50))
            (orZero (nth_error data (i * (length data / nodeCount))%nat))).
Proof.
  intros Hi. unfold createNodes. rewrite nth_error_map, nth_error_seq.
  change nodeCount with 20%nat.
  destruct (Nat.ltb_spec i 20); [| lia].
  cbn [option_map Nat.add add mul div ofZ R_JSNumber].
  rewrite <- INR_IZR_INZ. reflexivity.
Qed.

(** The squared distance of two points given by radius and angle round a
    common centre. *)
Lemma polar_distance (cx cy a1 a2 r1 r2 : R) :
  (cx + cos a1 * r1 - (cx + cos a2 * r2))
  * (cx + cos a1 * r1 - (cx + cos a2 * r2))
  + (cy + sin a1 * r1 - (cy + sin a2 * r2))
    * (cy + sin a1 * r1 - (cy + sin a2 * r2))
  = r1 * r1 + r2 * r2 - 2 * r1 * r2 * cos (a2 - a1).
Proof.
  rewrite cos_minus.
  pose proof (sin2_cos2 a1) as H1. pose proof (sin2_cos2 a2) as H2.
  unfold Rsqr in *.
  replace (r1 * r1) with (r1 * r1 * (sin a1 * sin a1 + cos a1 * cos a1))
    by (rewrite H1; ring).
  replace (r2 * r2) with (r2 * r2 * (sin a2 * sin a2 + cos a2 * cos a2))
    by (rewrite H2; ring).
  ring.
Qed.
End Ring.

(** X24.  Over the reals, with the sine, the cosine and the pi of
    mathematics: [drawNeuralNetwork] creates 20 nodes; each lies at a
    distance between 50 and 150 from the centre of the canvas; and two nodes
    next to each other in the loop are always less than 150 apart, so
    whether the stroke between them is drawn depends on their intensities
    alone. *)
Theorem neural_nodes_on_ring :
  forall (centerX centerY : R) (data : list R) (time : R),
    let nodes := createNodes sin cos PI centerX centerY data time in
    length nodes = 20%nat
    /\ Forall (fun n =>
                 (50 * 50 <= (x n - centerX) * (x n - centerX)
                             + (y n - centerY) * (y n - centerY)
                  <= 150 * 150)%R)
              nodes
    /\ Forall (fun i =>
                 match nth_error nodes i, nth_error nodes (S i) with
                 | Some a, Some b => (distance a b < 150)%R
                 | _, _ => False
                 end)
              (seq 0 19).
Proof.
  intros centerX centerY data time nodes.
  split; [subst nodes; unfold createNodes; now rewrite length_map, length_seq |].
  split.
  - apply Forall_forall. intros n Hn. apply In_nth_error in Hn.
    destruct Hn as [i Hi].
    assert (Hlt : (i < 20)%nat).
    { assert (i < length nodes)%nat
        by (apply nth_error_Some; rewrite Hi; discriminate).
      subst nodes. unfold createNodes in *.
      now rewrite length_map, length_seq in *. }
    subst nodes. rewrite (nth_error_createNodes _ _ _ _ Hlt) in Hi.
    injection Hi as <-. cbn [x y].
    pose proof (SIN_bound (time + INR i)) as Hs.
    set (r := (100 + sin (time + INR i) * 50)%R) in *.
    set (a := (INR i / 20 * PI * 2)%R).
    replace ((centerX + cos a * r - centerX) * (centerX + cos a * r - centerX)
             + (centerY + sin a * r - centerY)
               * (centerY + sin a * r - centerY))%R
      with (r * r * (sin a * sin a + cos a * cos a))%R by ring.
    pose proof (sin2_cos2 a) as Hsc. unfold Rsqr in Hsc. rewrite Hsc.
    assert (50 <= r <= 150)%R by (unfold r; lra). nra.
  - apply Forall_forall. intros i Hi. apply in_seq in Hi.
    subst nodes.
    rewrite !nth_error_createNodes by lia.
    unfold distance, Math_pow2.
    cbn [x y sub add mul Math_sqrt ltb ofZ R_JSNumber].
    rewrite polar_distance.
    replace (INR (S i) / 20 * PI * 2 - INR i / 20 * PI * 2)%R with (PI / 10)%R
      by (rewrite S_INR; field).
    pose proof cos_PI10_above_half as Hc.
    pose proof (COS_bound (PI / 10)) as Hc1.
    pose proof (SIN_bound (time + INR i)) as Hs1.
    pose proof (SIN_bound (time + INR (S i))) as Hs2.
    set (r1 := (100 + sin (time + INR i) * 50)%R) in *.
    set (r2 := (100 + sin (time + INR (S i)) * 50)%R) in *.
    set (c := cos (PI / 10)) in *.
    assert (H1 : (50 <= r1 <= 150)%R) by (unfold r1; lra).
    assert (H2 : (50 <= r2 <= 150)%R) by (unfold r2; lra).
    replace 150%R with (sqrt (150 * 150)) by (apply sqrt_square; lra).
    assert (Hp : (0 < r1 * r2)%R) by nra.
    assert (Hq : (r1 * r2 < 2 * r1 * r2 * c)%R) by nra.
    assert (Hr : (2 * r1 * r2 * c <= 2 * r1 * r2)%R) by nra.
    assert (Hb1 : (0 <= (r1 - 50) * (150 - r1))%R) by nra.
    assert (Hb2 : (0 <= (r2 - 50) * (150 - r2))%R) by nra.
    assert (Hb3 : (0 <= (150 - r1) * (150 - r2))%R) by nra.
    pose proof (Rle_0_sqr (r1 - r2)) as Hsq. unfold Rsqr in Hsq.
    apply sqrt_lt_1_alt. split; nra.
Qed.

Section NodeFills.
Context {num : Type} `{JSNumber num}.

Lemma length_drawNode pi palette shadow i (node : Node num) :
  (length (fst (drawNode pi palette shadow i node)) <= 2)%nat.
Proof.
  unfold drawNode.
  destruct (ltb (intensity node) (lit 1 10)); [simpl; lia |].
  destruct (ltb (lit 6 10) (intensity node)); simpl; lia.
Qed.

Lemma length_drawNodesFrom pi palette shadow i (nodes : list (Node num)) :
  (length (drawNodesFrom pi palette shadow i nodes) <= 2 * length nodes)%nat.
Proof.
  revert shadow i. induction nodes as [| node nodes IH]; intros shadow i;
    [simpl; lia |].
  cbn [drawNodesFrom].
  pose proof (length_drawNode pi palette shadow i node) as Hn.
  destruct (drawNode pi palette shadow i node) as [fills shadow'].
  rewrite length_app. specialize (IH shadow' (S i)).
  cbn [fst length] in *. lia.
Qed.

(** Every fill belongs to a node that passed the test of the loop. *)
Lemma drawNodesFrom_audible pi palette shadow k (nodes : list (Node num)) :
  Forall (fun f =>
            exists node,
              (k <= filled f)%nat
              /\ nth_error nodes (filled f - k) = Some node
              /\ ltb (intensity node) (lit 1 10) = false
              /\ center f = (x node, y node)
              /\ radius f = add (ofZ 3) (mul (intensity node) (ofZ 8))
              /\ angles f = (ofZ 0, mul pi (ofZ 2))
              /\ (shadowBlur f = ofZ 0
                  \/ shadowBlur f = ofZ 20
                     /\ ltb (lit 6 10) (intensity node) = true))
         (drawNodesFrom pi palette shadow k nodes).
Proof.
  revert shadow k. induction nodes as [| node nodes IH]; intros shadow k;
    [constructor |].
  cbn [drawNodesFrom].
  destruct (drawNode pi palette shadow k node) as [fills shadow'] eqn:E.
  apply Forall_app. split.
  - unfold drawNode in E.
    destruct (ltb (intensity node) (lit 1 10)) eqn:Equiet.
    + injection E as <- _. constructor.
    + destruct (ltb (lit 6 10) (intensity node)) eqn:Eloud;
        injection E as <- _;
        repeat constructor; exists node;
        cbn [filled center radius angles shadowBlur];
        rewrite Nat.sub_diag; repeat split; auto.
  - eapply Forall_impl; [| apply (IH shadow' (S k))].
    intros f (n & Hk & Hn & Hq & Hc & Hr & Ha & Hs).
    exists n. split; [lia |].
    replace (filled f - k)%nat with (S (filled f - S k)) by lia.
    repeat split; assumption.
Qed.

Lemma length_inner_loop palette (nodes : list (Node num)) i js :
  (length (flat_map
             (fun j =>
                match nth_error nodes i, nth_error nodes j with
                | Some a, Some b =>
                    if connected a b then [connectionStroke palette i j a b]
                    else []
                | _, _ => []
                end) js) <= length js)%nat.
Proof.
  induction js as [| j js IH]; [simpl; lia |].
  cbn [flat_map]. rewrite length_app. cbn [length].
  destruct (nth_error nodes i) as [a |]; [| simpl; lia].
  destruct (nth_error nodes j) as [b |]; [| simpl; lia].
  destruct (connected a b); simpl; lia.
Qed.

(** The rounds [0 .. m - 1] of an outer loop whose round [i] adds at most
    [n - (i + 1)] strokes. *)
Lemma length_outer_loop (n m : nat) (f : nat -> list (Stroke num)) :
  (m <= n)%nat ->
  (forall i, (length (f i) <= n - (i + 1))%nat) ->
  (2 * length (flat_map f (seq 0 m)) <= m * (2 * n - m - 1))%nat.
Proof.
  intros Hm Hf. induction m as [| m IH]; [simpl; lia |].
  rewrite seq_S, flat_map_app, length_app. cbn [flat_map Nat.add].
  rewrite app_nil_r. specialize (IH ltac:(lia)). specialize (Hf m).
  nia.
Qed.

Lemma length_drawConnections palette (nodes : list (Node num)) :
  (2 * length (drawConnections palette nodes)
   <= length nodes * (length nodes - 1))%nat.
Proof.
  unfold drawConnections.
  etransitivity.
  - apply (@length_outer_loop (length nodes) (length nodes)); [lia |].
    intros i. etransitivity; [apply length_inner_loop |].
    rewrite length_seq. lia.
  - nia.
Qed.
End NodeFills.

(** X25.  One call of [drawNeuralNetwork] works on 20 nodes, draws at most
    190 strokes, one for each pair at most, and makes at most 40 fills.
    Every fill belongs to a node whose intensity is not below 0.1: it is
    centred on the node with radius [3 + intensity * 8], and it has the
    shadow blur 0, or 20 for the second fill of a node whose intensity
    exceeds 0.6.  This holds for every arithmetic. *)
Theorem neural_drawing_is_bounded :
  forall (num : Type) (N : JSNumber num) (sin' cos' : num -> num) (pi : num)
         (centerX centerY : num) (data : list num) (time : num)
         (palette : option (ColorPalette num)),
    let nodes := createNodes sin' cos' pi centerX centerY data time in
    length nodes = 20%nat
    /\ (length (drawNeuralConnections sin' cos' pi centerX centerY data time
                                      palette) <= 190)%nat
    /\ (length (drawNodes pi palette nodes) <= 40)%nat
    /\ Forall (fun f =>
                 exists node,
                   nth_error nodes (filled f) = Some node
                   /\ ltb (intensity node) (lit 1 10) = false
                   /\ center f = (x node, y node)
                   /\ radius f = add (ofZ 3) (mul (intensity node) (ofZ 8))
                   /\ angles f = (ofZ 0, mul pi (ofZ 2))
                   /\ (shadowBlur f = ofZ 0
                       \/ shadowBlur f = ofZ 20
                          /\ ltb (lit 6 10) (intensity node) = true))
              (drawNodes pi palette nodes).
Proof.
  intros num N sin' cos' pi centerX centerY data time palette nodes.
  assert (Hlen : length nodes = 20%nat)
    by (subst nodes; unfold createNodes; now rewrite length_map, length_seq).
  split; [exact Hlen |]. split; [| split].
  - unfold drawNeuralConnections. fold nodes.
    pose proof (length_drawConnections palette nodes) as Hc.
    rewrite Hlen in Hc. lia.
  - unfold drawNodes.
    pose proof (length_drawNodesFrom pi palette None 0 nodes) as Hf.
    rewrite Hlen in Hf. lia.
  - unfold drawNodes.
    eapply Forall_impl;
      [| apply (drawNodesFrom_audible pi palette None 0 nodes)].
    intros f (n & _ & Hn & Hrest). exists n.
    rewrite Nat.sub_0_r in Hn. split; assumption.
Qed.

(* ================================================================== *)
(** * The simulated frames *)
(* ================================================================== *)

Section FrameFacts.
Context {num : Type} `{JSNumber num}.

Lemma Forall_mapi_from {A B} (P : B -> Prop) (f : A -> nat -> B)
      (arr : list A) (k : nat) :
  (forall a i, P (f a i)) -> Forall P (mapi_from k f arr).
Proof.
  intros Hf. revert k. induction arr as [| a arr IH]; intros k;
    cbn [mapi_from]; constructor; auto.
Qed.

Lemma length_simulateFrame sin' cos' pi mode intensity' random
      (dateNow : num) (data : list num) :
  length (simulateFrame sin' cos' pi mode intensity' random dateNow data)
  = length data.
Proof. unfold simulateFrame, mapi. apply length_mapi_from. Qed.

Lemma runVisualizer_snoc sin' cos' (pi : num) mode intensity' ticks tick :
  runVisualizer sin' cos' pi mode intensity' (ticks ++ [tick]) =
    match runVisualizer sin' cos' pi mode intensity' ticks with
    | None => None
    | Some v => simulateIntelligentAudio sin' cos' pi mode intensity' tick v
    end.
Proof. unfold runVisualizer. now rewrite fold_left_app. Qed.
End FrameFacts.

Section RealFrames.
Local Open Scope R_scope.

Lemma product_unit (a b : R) :
  -1 <= a <= 1 -> -1 <= b <= 1 -> -1 <= a * b <= 1.
Proof. intros Ha Hb. split; nra. Qed.

(** No mode exceeds its peak. *)
Lemma amplitudeOf_peak (mode : Mode) (random : nat -> R) (time : R) (i : nat) :
  0 <= random i < 1 ->
  amplitudeOf sin cos PI mode random time i <= modePeak mode.
Proof.
  intros Hr. unfold amplitudeOf, modePeak, lit.
  cbn [add mul div ltb eqb rem Math_floor ofZ R_JSNumber].
  destruct mode;
    repeat match goal with
           | |- context [sin ?a] =>
               let s := fresh "s" in
               let Hs := fresh "Hs" in
               pose proof (SIN_bound a) as Hs; set (s := sin a) in *;
               clearbody s
           | |- context [cos ?a] =>
               let c := fresh "c" in
               let Hc := fresh "Hc" in
               pose proof (COS_bound a) as Hc; set (c := cos a) in *;
               clearbody c
           end;
    repeat match goal with
           | |- context [if ?b then _ else _] => destruct b
           end;
    try match goal with
        | Ha : -1 <= ?a <= 1, Hb : -1 <= ?b <= 1 |- context [?a * ?b] =>
            pose proof (product_unit Ha Hb)
        end;
    nra.
Qed.

Lemma simulateFrame_bounds (mode : Mode) (intensity' : R)
      (random : nat -> R) (dateNow : R) (data : list R) :
  0 <= intensity' -> (forall i, 0 <= random i < 1) ->
  Forall (fun v => 0 <= v <= modePeak mode * intensity')
         (simulateFrame sin cos PI mode intensity' random dateNow data).
Proof.
  intros Hi Hr. unfold simulateFrame, mapi. apply Forall_mapi_from.
  intros _ i.
  pose proof (@amplitudeOf_peak mode random (dateNow * lit 1 1000)%js i (Hr i))
    as Hp.
  set (amplitude := amplitudeOf sin cos PI mode random _ i) in *.
  clearbody amplitude. cbn [Math_max mul ofZ R_JSNumber].
  assert (Hm : 0 < modePeak mode) by (destruct mode; simpl; lra).
  split; [apply Rmax_l |]. apply Rmax_lub; nra.
Qed.

Lemma generatePalette_returns (random : nat -> R) (this : ColorBrain R)
      (features : AudioFeatures R) (context : MusicContext R) :
  exists palette this',
    generatePalette random this features context = Some (palette, this').
Proof.
  unfold generatePalette, createBasePalette, generateParticleColors.
  cbn [countBelow R_JSNumber]. unfold Real.countBelow.
  eexists. eexists. reflexivity.
Qed.

(** What a run keeps true, in a mode and at an intensity whose samples stay
    in [[0, 1]]: the brain is the one reached through the frames built so
    far, all of them nominal. *)
Lemma runVisualizer_nominal (mode : Mode) (intensity' : R)
      (ticks : list (Tick R)) :
  0 <= intensity' -> modePeak mode * intensity' <= 1 ->
  Forall unitDraws ticks ->
  exists v frames,
    runVisualizer sin cos PI mode intensity' ticks = Some v
    /\ nominalFrame (audioData v)
    /\ Forall nominalFrame frames
    /\ length frames = length ticks
    /\ musicBrainRef v = runAudio newMusicBrain frames
    /\ match rev frames with
       | [] => audioFeatures v = None
       | frame :: earlier =>
           audioFeatures v =
             Some (fst (fst (analyzeAudio (runAudio newMusicBrain (rev earlier))
                                          frame)))
       end.
Proof.
  intros Hi Hp. induction ticks as [| tick ticks IH] using rev_ind; intros Hd.
  - exists newVisualizer, [].
    repeat split; try reflexivity; try (now constructor).
    cbn [newVisualizer audioData]. apply Forall_repeat.
    unfold inUnit. cbn [ofZ R_JSNumber]. lra.
  - apply Forall_app in Hd. destruct Hd as [Hticks Htick].
    inversion Htick as [| ? ? Hu _]; subst.
    destruct (IH Hticks)
      as (v & frames & Erun & Hnom & Hall & Hlen & Hbrain & _).
    rewrite runVisualizer_snoc, Erun. unfold simulateIntelligentAudio.
    set (frame := simulateFrame sin cos PI mode intensity' (frameRandom tick)
                                (tickNow tick) (audioData v)).
    destruct (generatePalette_returns (paletteRandom tick) (colorBrainRef v)
                (fst (fst (analyzeAudio (musicBrainRef v) frame)))
                (snd (fst (analyzeAudio (musicBrainRef v) frame))))
      as (palette & cb & Eg).
    rewrite Eg.
    assert (Hframe : nominalFrame frame).
    { split.
      - unfold frame. rewrite length_simulateFrame. apply Hnom.
      - pose proof (@simulateFrame_bounds mode intensity' (frameRandom tick)
                      (tickNow tick) (audioData v) Hi Hu) as Hb.
        eapply Forall_impl; [| exact Hb]. intros a Ha. unfold inUnit.
        simpl in Ha. lra. }
    eexists. exists (frames ++ [frame]).
    split; [reflexivity |]. cbn [audioData musicBrainRef audioFeatures].
    split; [exact Hframe |].
    split; [apply Forall_app; split; [assumption | now constructor] |].
    split; [rewrite !length_app, Hlen; reflexivity |].
    split; [now rewrite runAudio_snoc, Hbrain |].
    rewrite rev_app_distr. cbn [rev app]. rewrite rev_involutive.
    now rewrite Hbrain.
Qed.
End RealFrames.

(** X26.  Over the reals, with the sine, the cosine and the pi of
    mathematics, for an intensity that is not negative and draws in
    [[0, 1)]: the frame that [simulateIntelligentAudio] builds has the
    length of the frame before it, and each of its samples lies between 0
    and the peak of the mode times the intensity, the peak being 1.05 for
    sacred, 0.7 for cosmic, 0.5 for flow, 1.04 for pulse, 1.1 for trippy,
    0.6 for ocean, 1.2 for neural and 1 for galaxy. *)
Theorem simulated_samples_within_peak :
  forall (mode : Mode) (intensity' : R) (random : nat -> R) (dateNow : R)
         (data : list R),
    (0 <= intensity')%R -> (forall i, 0 <= random i < 1)%R ->
    let frame := simulateFrame sin cos PI mode intensity' random dateNow data in
    length frame = length data
    /\ Forall (fun v => 0 <= v <= modePeak mode * intensity')%R frame.
Proof.
  intros mode intensity' random dateNow data Hi Hr frame.
  split; [apply length_simulateFrame | now apply simulateFrame_bounds].
Qed.

Lemma simulated_samples_within_peak_witness :
  (0 <= 1)%R /\ (forall i : nat, 0 <= (fun _ : nat => 0%R) i < 1)%R
  /\ length (simulateFrame sin cos PI flow 1%R (fun _ => 0%R) 0%R
                           (constantFrame 0))
     = length (constantFrame 0).
Proof.
  assert (Hi : (0 <= 1)%R) by lra.
  assert (Hr : (forall i : nat, 0 <= (fun _ : nat => 0%R) i < 1)%R)
    by (intros i; lra).
  split; [exact Hi |]. split; [exact Hr |].
  exact (proj1 (@simulated_samples_within_peak flow 1%R (fun _ => 0%R) 0%R
                  (constantFrame 0) Hi Hr)).
Defined.

(** X27.  Over the reals, in a mode and at an intensity with
    [peak * intensity <= 1], every run of ticks from the initial state of
    the component returns a state.  Its frame has 128 samples in
    [[0, 1]]; its MusicBrain has counted the ticks; and the features it
    shows, if any tick was made, have energy, bass, mid and treble in
    [[0, 1]] and a tempo in [[60, 276]]. *)
Theorem status_ranges_in_quiet_modes :
  forall (mode : Mode) (intensity' : R) (ticks : list (Tick R)),
    (0 <= intensity')%R -> (modePeak mode * intensity' <= 1)%R ->
    Forall unitDraws ticks ->
    exists v,
      runVisualizer sin cos PI mode intensity' ticks = Some v
      /\ nominalFrame (audioData v)
      /\ time (musicBrainRef v) = length ticks
      /\ match audioFeatures v with
         | None => ticks = []
         | Some features =>
             (0 <= energy features <= 1)%R
             /\ (60 <= tempo features <= 276)%R
             /\ (0 <= bass features <= 1)%R
             /\ (0 <= mid features <= 1)%R
             /\ (0 <= treble features <= 1)%R
         end.
Proof.
  intros mode intensity' ticks Hi Hp Hd.
  destruct (@runVisualizer_nominal mode intensity' ticks Hi Hp Hd)
    as (v & frames & Erun & Hnom & Hall & Hlen & Hbrain & Hfeat).
  exists v. split; [exact Erun |]. split; [exact Hnom |].
  split; [now rewrite Hbrain, time_run |].
  destruct (rev frames) as [| frame earlier] eqn:Er.
  - rewrite Hfeat.
    assert (frames = [])
      by (apply (f_equal (@rev _)) in Er; now rewrite rev_involutive in Er).
    subst frames. destruct ticks; [reflexivity | discriminate].
  - rewrite Hfeat.
    assert (Hrev : Forall nominalFrame (frame :: earlier)).
    { rewrite <- Er. apply Forall_rev. exact Hall. }
    inversion Hrev as [| ? ? Hframe Hearlier]; subst.
    apply Forall_rev in Hearlier.
    unfold analyzeAudio. cbn [fst snd energy tempo bass mid treble].
    split; [apply calculateEnergy_unit |].
    split; [apply estimateTempo_bounds; cbn [beatHistory];
            now apply beatHistory_nominal |].
    split; [now apply extractBass_unit |].
    split; [now apply extractMid_unit | now apply extractTreble_unit].
Qed.

Lemma status_ranges_in_quiet_modes_witness :
  (0 <= 1)%R /\ (modePeak flow * 1 <= 1)%R /\ Forall unitDraws [stillTick]
  /\ exists v,
       runVisualizer sin cos PI flow 1%R [stillTick] = Some v
       /\ nominalFrame (audioData v)
       /\ time (musicBrainRef v) = length [stillTick]
       /\ match audioFeatures v with
          | None => [stillTick] = []
          | Some features =>
              (0 <= energy features <= 1)%R
              /\ (60 <= tempo features <= 276)%R
              /\ (0 <= bass features <= 1)%R
              /\ (0 <= mid features <= 1)%R
              /\ (0 <= treble features <= 1)%R
          end.
Proof.
  assert (Hi : (0 <= 1)%R) by lra.
  assert (Hp : (modePeak flow * 1 <= 1)%R) by (simpl; lra).
  assert (Hd : Forall unitDraws [stillTick]).
  { constructor; [| constructor]. intros i. simpl. lra. }
  split; [exact Hi |]. split; [exact Hp |]. split; [exact Hd |].
  exact (@status_ranges_in_quiet_modes flow 1%R [stillTick] Hi Hp Hd).
Defined.

(* ================================================================== *)
(** * The pulse mode *)
(* ================================================================== *)

Section PulseFacts.
Local Open Scope R_scope.

Lemma band_mean_unit (band : list R) (n : nat) :
  length band = n -> (0 < n)%nat -> Forall inUnit band ->
  0 <= sum band / IZR (Z.of_nat n) <= 1.
Proof.
  intros Hlen Hn Hall.
  pose proof (@mean_unit band ltac:(lia) Hall) as Hm.
  unfold inUnit, len in Hm. rewrite Hlen in Hm. exact Hm.
Qed.

Lemma energyOrOne_unit (features : option (AudioFeatures R)) :
  match features with
  | None => True
  | Some f => 0 <= energy f <= 1
  end ->
  0 <= Pulse.energyOrOne features <= 1.
Proof.
  unfold Pulse.energyOrOne. destruct features as [f |];
    cbn [eqb ofZ R_JSNumber]; [| lra].
  intros Hf. destruct (Real.eqb (energy f) 0 || negb (Real.eqb _ _)); lra.
Qed.
End PulseFacts.

(** X28.  Over the reals, on a frame of 128 samples in [[0, 1]] and with
    features whose energy lies in [[0, 1]], or with none,
    [drawPulsingCircles] draws three circles: the first with a radius in
    [[80, 200]] and a line width in [[3, 8]], the second with a radius in
    [[50, 130]] and a line width in [[2, 6]], the third with a radius in
    [[20, 60]] and a line width in [[1, 4]]. *)
Theorem pulsing_circles_radii :
  forall (pi centerX centerY : R) (data : list R)
         (palette : option (ColorPalette R))
         (features : option (AudioFeatures R)),
    nominalFrame data ->
    match features with
    | None => True
    | Some f => (0 <= energy f <= 1)%R
    end ->
    exists outer middle inner,
      Pulse.drawPulsingCircles pi centerX centerY data palette features
      = [outer; middle; inner]
      /\ (80 <= Pulse.radiusOf outer <= 200)%R
      /\ (50 <= Pulse.radiusOf middle <= 130)%R
      /\ (20 <= Pulse.radiusOf inner <= 60)%R
      /\ (3 <= Pulse.lineWidth outer <= 8)%R
      /\ (2 <= Pulse.lineWidth middle <= 6)%R
      /\ (1 <= Pulse.lineWidth inner <= 4)%R.
Proof.
  intros pi centerX centerY data palette features [Hlen Hall] Hf.
  unfold Pulse.drawPulsingCircles.
  eexists. eexists. eexists. split; [reflexivity |].
  cbn [Pulse.radiusOf Pulse.arc Pulse.lineWidth].
  pose proof (energyOrOne_unit features Hf) as He.
  set (e := Pulse.energyOrOne features) in *. clearbody e.
  assert (Hb : (0 <= sum (slice 0 16 data) / IZR 16 <= 1)%R).
  { apply (@band_mean_unit _ 16); [| lia | now apply Forall_slice].
    change 0%Z with (Z.of_nat 0). change 16%Z with (Z.of_nat 16).
    rewrite length_slice; lia. }
  assert (Hm : (0 <= sum (slice 16 64 data) / IZR 48 <= 1)%R).
  { apply (@band_mean_unit _ 48); [| lia | now apply Forall_slice].
    change 16%Z with (Z.of_nat 16). change 64%Z with (Z.of_nat 64).
    rewrite length_slice; lia. }
  assert (Hh : (0 <= sum (slice_from 64 data) / IZR 64 <= 1)%R).
  { apply (@band_mean_unit _ 64); [| lia | now apply Forall_slice_from].
    unfold slice_from. rewrite length_skipn, slice_index_nonneg by lia. lia. }
  cbn [add mul div ofZ R_JSNumber].
  set (b := (sum (slice 0 16 data) / 16)%R) in *.
  set (m := (sum (slice 16 64 data) / 48)%R) in *.
  set (h := (sum (slice_from 64 data) / 64)%R) in *.
  repeat split; nra.
Qed.

Lemma pulsing_circles_radii_witness :
  nominalFrame halfFrame
  /\ match @None (AudioFeatures R) with
     | None => True
     | Some f => (0 <= energy f <= 1)%R
     end
  /\ exists outer middle inner,
       Pulse.drawPulsingCircles PI 0%R 0%R halfFrame None None
       = [outer; middle; inner]
       /\ (80 <= Pulse.radiusOf outer <= 200)%R
       /\ (50 <= Pulse.radiusOf middle <= 130)%R
       /\ (20 <= Pulse.radiusOf inner <= 60)%R
       /\ (3 <= Pulse.lineWidth outer <= 8)%R
       /\ (2 <= Pulse.lineWidth middle <= 6)%R
       /\ (1 <= Pulse.lineWidth inner <= 4)%R.
Proof.
  split; [exact nominalFrame_halfFrame |]. split; [exact I |].
  exact (@pulsing_circles_radii PI 0%R 0%R halfFrame None None
           nominalFrame_halfFrame I).
Defined.
